(** * HTTP interceptor chain: construction and dispatch

    A shallow embedding of the two interceptor dispatchers of the repository:

    - [RxjsInterop]: packages/common/http/rxjs-interop/src/interceptor.ts,
      the stream variant ([chainedInterceptorFn], [interceptorChainEndFn],
      [HttpInterceptorHandler.handle] returning an Observable);
    - [SingleShot]: packages/common/http/src/interceptor.ts, the promise
      variant ([HttpInterceptorHandler.handle] taking an [onEvent] callback),
      and packages/common/http/src/http.ts ([Http.request]).

    Both dispatchers read their entries from two multi-provided tokens and
    merge them with [Array.from(new Set([...a, ...b]))]; that part is shared
    and lives in [Dedupe].  [Throwing] is the stream variant again, with
    entries, continuations and backends that may throw. *)

From Stdlib Require Import String Ascii List ZArith Lia Bool Arith.
From Stdlib Require Import DecimalString DecimalNat.
Import ListNotations.

Set Implicit Arguments.

(** ** Requests and events *)

(** Modelled from the spec: the value types of ./request and ./response are
    not among the sources.  A request is an immutable value that interceptors
    clone with modifications; of its fields the method, the URL and the
    header list are kept.  An event is a tagged union; [Response] is the class
    [HttpResponse] that [chainedInterceptorFn] tests with [instanceof]. *)
Record HttpRequest : Type := mkRequest
  { method : string
  ; url : string
  ; headers : list (string * string) }.

Inductive HttpEvent : Type :=
| Sent
| UploadProgress (loaded : nat)
| ResponseHeader (status : Z)
| DownloadProgress (loaded : nat)
| Response (status : Z) (body : string)
| User (payload : string).

(** [event instanceof HttpResponse] *)
Definition isHttpResponse (event : HttpEvent) : bool :=
  match event with
  | Response _ _ => true
  | _ => false
  end.

(** [req.clone({headers: req.headers.append(name, value)})]: one more pair
    at the end of the header list. *)
Definition addHeader (name value : string) (req : HttpRequest) : HttpRequest :=
  {| method := method req; url := url req; headers := headers req ++ [(name, value)] |}.

(** Interceptor entries are JavaScript functions and objects: a [Set] compares
    them by reference.  A registration list is therefore a list of references
    into a table of interceptors. *)
Definition Ref : Type := nat.

(** ** Merging the two registration lists *)

Module Dedupe.
Section WithEq.
Variable A : Type.
Variable eq_dec : forall x y : A, {x = y} + {x <> y}.

(** [mem x s]: [Set.prototype.has]. *)
Definition mem (x : A) (s : list A) : bool :=
  if in_dec eq_dec x s then true else false.

(** [Set.prototype.add]: a value already in the set keeps its place, a new
    one goes last. *)
Definition set_add (s : list A) (x : A) : list A :=
  if mem x s then s else s ++ [x].

(** [new Set(iterable)] followed by [Array.from]: the values in insertion
    order. *)
Definition new_Set (l : list A) : list A := fold_left set_add l [].

(** [Array.from(new Set([...fns, ...rootFns]))] *)
Definition dedupedInterceptorFns (fns rootFns : list A) : list A :=
  new_Set (fns ++ rootFns).

End WithEq.
End Dedupe.

(** ** The pending-task registry *)

(** Modelled from the spec: [PendingTasks] of @angular/core is not among the
    sources.  It exposes [add() -> token] and [remove(token) -> void]; tokens
    are consecutive numbers kept in a set.  [history] records every call, so
    that acquisitions and releases can be counted. *)
Inductive TaskOp : Type :=
| Added (id : nat)
| Removed (id : nat).

Record PendingTasks : Type := mkPendingTasks
  { taskId : nat
  ; pending : list nat
  ; history : list TaskOp }.

Definition PendingTasks_add (t : PendingTasks) : nat * PendingTasks :=
  (taskId t,
   {| taskId := S (taskId t)
    ; pending := pending t ++ [taskId t]
    ; history := history t ++ [Added (taskId t)] |}).

Definition PendingTasks_remove (id : nat) (t : PendingTasks) : PendingTasks :=
  {| taskId := taskId t
   ; pending := filter (fun i => negb (Nat.eqb i id)) (pending t)
   ; history := history t ++ [Removed id] |}.

(** [REQUESTS_CONTRIBUTE_TO_STABILITY]: provided in root by the factory
    [() => true]. *)
Definition REQUESTS_CONTRIBUTE_TO_STABILITY : bool := true.

(** The two multi-provided tokens an [EnvironmentInjector] is asked for.
    [injector.get(HTTP_ROOT_INTERCEPTOR_FNS, [])] is the empty list when the
    token has no provider. *)
Record EnvironmentInjector : Type := mkInjector
  { HTTP_INTERCEPTOR_FNS : list Ref
  ; HTTP_ROOT_INTERCEPTOR_FNS : list Ref }.

(** ** The stream variant: rxjs-interop/src/interceptor.ts *)

Module RxjsInterop.

(** *** Observables

    rxjs is a dependency, not part of the sources.  An [Observable] is cold:
    every subscription runs the producer again.  The model records what one
    subscription is pushed in the turn it subscribes: the events in order and
    how the stream stands afterwards, completed, errored, or still [Open]
    (no terminal notification yet).  Nothing is ever pushed after a terminal
    notification. *)
Inductive Ending : Type :=
| Completed
| Errored (err : string)
| Open.

Record Observable : Type := mkObservable
  { events : list HttpEvent
  ; ending : Ending }.

(** [of(e1, ..., en)] and [throwError], the usual building blocks. *)
Definition of_ (evs : list HttpEvent) : Observable :=
  {| events := evs; ending := Completed |}.

(** The [Subscriber] handed to the function given to [new Observable]:
    [next] is ignored once the subscriber is stopped, [complete] and [error]
    stop it. *)
Record Subscriber : Type := mkSubscriber
  { delivered : list HttpEvent
  ; state : Ending }.

Definition Subscriber_next (event : HttpEvent) (s : Subscriber) : Subscriber :=
  match state s with
  | Open => {| delivered := delivered s ++ [event]; state := Open |}
  | _ => s
  end.

Definition Subscriber_complete (s : Subscriber) : Subscriber :=
  match state s with
  | Open => {| delivered := delivered s; state := Completed |}
  | _ => s
  end.

Definition Subscriber_error (err : string) (s : Subscriber) : Subscriber :=
  match state s with
  | Open => {| delivered := delivered s; state := Errored err |}
  | _ => s
  end.

(** [new Observable(subscribe)] *)
Definition new_Observable (subscribe : Subscriber -> Subscriber) : Observable :=
  let s := subscribe {| delivered := []; state := Open |} in
  {| events := delivered s; ending := state s |}.

(** [observable.subscribe(onEvent)] from inside a callback-based entry: the
    callback is run on every event. *)
Definition subscribe_with (K : Type) (o : Observable)
    (onEvent : HttpEvent -> K -> K) (k : K) : K :=
  fold_left (fun k event => onEvent event k) (events o) k.

(** *** Handlers and interceptors *)

(** [HttpHandlerFn = (req) => Observable<HttpEvent>] *)
Definition HttpHandlerFn : Type := HttpRequest -> Observable.

(** [HttpInterceptorFn]: a function [(req, next) => Observable], or an object
    with an [eventInterceptor(request, next, onEvent): void] method.  The
    method returns nothing: all it can do to the outside is call [onEvent],
    whatever the callback does, hence the type of the third argument. *)
Inductive HttpInterceptorFn : Type :=
| ObservableInterceptorFn
    (fn : HttpRequest -> HttpHandlerFn -> Observable)
| EventInterceptor
    (eventInterceptor :
       HttpRequest -> HttpHandlerFn ->
       forall K : Type, (HttpEvent -> K -> K) -> K -> K).

(** [ChainedInterceptorFn = (req, finalHandlerFn) => Observable] *)
Definition ChainedInterceptorFn : Type :=
  HttpRequest -> HttpHandlerFn -> Observable.

Definition interceptorChainEndFn : ChainedInterceptorFn :=
  fun req finalHandlerFn => finalHandlerFn req.

(** [runInInjectionContext(injector, fn)] runs [fn]; the injector only
    matters to [inject()] calls inside it. *)
Definition runInInjectionContext (A : Type)
    (injector : EnvironmentInjector) (fn : unit -> A) : A := fn tt.

Definition chainedInterceptorFn
    (chainTailFn : ChainedInterceptorFn)
    (interceptorFn : HttpInterceptorFn)
    (injector : EnvironmentInjector) : ChainedInterceptorFn :=
  match interceptorFn with
  | EventInterceptor eventInterceptor =>
      fun initialRequest finalHandlerFn =>
        new_Observable (fun subscriber =>
          runInInjectionContext injector (fun _ =>
            eventInterceptor
              initialRequest
              (fun downstreamRequest => chainTailFn downstreamRequest finalHandlerFn)
              Subscriber
              (fun event subscriber =>
                 let subscriber := Subscriber_next event subscriber in
                 if isHttpResponse event
                 then Subscriber_complete subscriber
                 else subscriber)
              subscriber))
  | ObservableInterceptorFn fn =>
      fun initialRequest finalHandlerFn =>
        runInInjectionContext injector (fun _ =>
          fn initialRequest
             (fun downstreamRequest => chainTailFn downstreamRequest finalHandlerFn))
  end.

(** *** Streams with teardown

    [source.pipe(finalize(callback))]: the callback runs once, when a
    subscription to the result ends: on complete, on error, or when the
    subscriber unsubscribes.  Only the dispatcher pipes through [finalize],
    and its callback acts on the pending-task registry. *)
Record Stream : Type := mkStream
  { source : Observable
  ; teardown : list (PendingTasks -> PendingTasks) }.

Definition pipe_finalize (o : Observable)
    (callback : PendingTasks -> PendingTasks) : Stream :=
  {| source := o; teardown := [callback] |}.

Definition unpiped (o : Observable) : Stream :=
  {| source := o; teardown := [] |}.

(** What the subscriber does: listen to the end, or unsubscribe once it has
    received [n] events (cancellation in flight). *)
Inductive Consumer : Type :=
| KeepListening
| UnsubscribeAfter (n : nat).

(** How a subscription stands at the end of the turn. *)
Inductive Status : Type :=
| Terminated (how : Ending)
| Cancelled
| InFlight.

Definition run_teardown (fs : list (PendingTasks -> PendingTasks))
    (t : PendingTasks) : PendingTasks :=
  fold_left (fun t f => f t) fs t.

(** One subscription to a stream: the events received, how it stands, and the
    registry afterwards.  The teardown runs when the subscription closes and
    not before. *)
Definition subscribe (s : Stream) (c : Consumer) (t : PendingTasks)
  : list HttpEvent * Status * PendingTasks :=
  let evs := events (source s) in
  let closing :=
    match ending (source s) with
    | Open => None
    | how => Some (Terminated how)
    end in
  match c with
  | UnsubscribeAfter n =>
      if n <? length evs
      then (firstn n evs, Cancelled, run_teardown (teardown s) t)
      else match closing with
           | Some st => (evs, st, run_teardown (teardown s) t)
           | None => (evs, Cancelled, run_teardown (teardown s) t)
           end
  | KeepListening =>
      match closing with
      | Some st => (evs, st, run_teardown (teardown s) t)
      | None => (evs, InFlight, t)
      end
  end.

(** *** The dispatcher *)

(** [HttpBackend.handle(req)] *)
Definition HttpBackend : Type := HttpRequest -> Observable.

Record HttpInterceptorHandler : Type := mkHandler
  { chain : option ChainedInterceptorFn
  ; contributeToStability : bool
  ; backend : HttpBackend
  ; injector : EnvironmentInjector }.

Definition set_chain (c : ChainedInterceptorFn) (this : HttpInterceptorHandler)
  : HttpInterceptorHandler :=
  {| chain := Some c
   ; contributeToStability := contributeToStability this
   ; backend := backend this
   ; injector := injector this |}.

(** The registration lists are mutable arrays owned by the injector. *)
Definition set_injector (i : EnvironmentInjector) (this : HttpInterceptorHandler)
  : HttpInterceptorHandler :=
  {| chain := chain this
   ; contributeToStability := contributeToStability this
   ; backend := backend this
   ; injector := i |}.

Section WithHeap.
  (** The interceptor each reference stands for. *)
Variable heap : Ref -> HttpInterceptorFn.

(** [dedupedInterceptorFns.reduceRight((nextSequencedFn, interceptorFn) =>
      chainedInterceptorFn(nextSequencedFn, interceptorFn, this.injector),
      interceptorChainEndFn)] *)
Definition reduceRight_chain (injector : EnvironmentInjector)
    (dedupedInterceptorFns : list Ref) : ChainedInterceptorFn :=
  fold_right
    (fun interceptorFn nextSequencedFn =>
       chainedInterceptorFn nextSequencedFn (heap interceptorFn) injector)
    interceptorChainEndFn
    dedupedInterceptorFns.

(** [HttpInterceptorHandler.handle(initialRequest)]: the stream returned,
    the handler with its [chain] field, and the registry after the call. *)
Definition handle (this : HttpInterceptorHandler) (initialRequest : HttpRequest)
    (pendingTasks : PendingTasks)
  : Stream * HttpInterceptorHandler * PendingTasks :=
  let this_chain :=
    match chain this with
    | None =>
        let dedupedInterceptorFns :=
          Dedupe.dedupedInterceptorFns Nat.eq_dec
            (HTTP_INTERCEPTOR_FNS (injector this))
            (HTTP_ROOT_INTERCEPTOR_FNS (injector this)) in
        reduceRight_chain (injector this) dedupedInterceptorFns
    | Some c => c
    end in
  let this := match chain this with
              | None => set_chain this_chain this
              | Some _ => this
              end in
  if contributeToStability this then
    let (taskId, pendingTasks) := PendingTasks_add pendingTasks in
    (pipe_finalize
       (this_chain initialRequest
          (fun downstreamRequest => backend this downstreamRequest))
       (PendingTasks_remove taskId),
     this, pendingTasks)
  else
    (unpiped
       (this_chain initialRequest
          (fun downstreamRequest => backend this downstreamRequest)),
     this, pendingTasks).

End WithHeap.

(** *** Interceptors used in the statements *)

(** A next-based interceptor that always delegates: it hands a transformed
    request to [next] and returns the stream it gets back, transformed. *)
Definition delegating (onRequest : HttpRequest -> HttpRequest)
    (onResponse : Observable -> Observable) : HttpInterceptorFn :=
  ObservableInterceptorFn (fun req next => onResponse (next (onRequest req))).

(** A callback-based interceptor given by the events it emits, in order. *)
Definition emitting (evs : HttpRequest -> HttpHandlerFn -> list HttpEvent)
  : HttpInterceptorFn :=
  EventInterceptor (fun request next K onEvent k =>
    fold_left (fun k event => onEvent event k) (evs request next) k).

(** A callback-based interceptor that always delegates: it subscribes to
    [next] on a transformed request and emits events made from the ones it
    is pushed. *)
Definition delegatingEvent (onRequest : HttpRequest -> HttpRequest)
    (onEvents : list HttpEvent -> list HttpEvent) : HttpInterceptorFn :=
  emitting (fun request next => onEvents (events (next (onRequest request)))).

(** [{eventInterceptor: (req, next, onEvent) => {
        onEvent({type: HttpEventType.Sent});
        next(req).subscribe(onEvent); }}] *)
Definition sentThenForward : HttpInterceptorFn :=
  EventInterceptor (fun request next K onEvent k =>
    subscribe_with (next request) onEvent (onEvent Sent k)).

(** The events up to and including the first [HttpResponse]. *)
Fixpoint upToResponse (evs : list HttpEvent) : list HttpEvent :=
  match evs with
  | [] => []
  | event :: evs =>
      if isHttpResponse event then [event] else event :: upToResponse evs
  end.

(** What the caller of a callback-based delegating entry sees of the stream
    [o] the entry was given: the events the entry makes of it, up to the
    first response, which completes the stream. *)
Definition closing (onEvents : list HttpEvent -> list HttpEvent)
    (o : Observable) : Observable :=
  {| events := upToResponse (onEvents (events o))
   ; ending := if existsb isHttpResponse (onEvents (events o))
               then Completed else Open |}.

(** An entry that calls its continuation unconditionally, in either calling
    convention, with what it does to the request and to the stream. *)
Definition always_delegates (interceptorFn : HttpInterceptorFn)
    (onRequest : HttpRequest -> HttpRequest)
    (onResponse : Observable -> Observable) : Prop :=
  interceptorFn = delegating onRequest onResponse
  \/ exists onEvents,
       interceptorFn = delegatingEvent onRequest onEvents
       /\ forall o, onResponse o = closing onEvents o.

(** An interceptor that leaves its continuation alone: what it returns, or
    what it emits, is the same whatever [next] is. *)
Definition never_calls_next (interceptorFn : HttpInterceptorFn) : Prop :=
  match interceptorFn with
  | ObservableInterceptorFn fn =>
      forall req next1 next2, fn req next1 = fn req next2
  | EventInterceptor eventInterceptor =>
      forall req next1 next2 (K : Type) (onEvent : HttpEvent -> K -> K) k,
        eventInterceptor req next1 K onEvent k
        = eventInterceptor req next2 K onEvent k
  end.

End RxjsInterop.

(** ** The stream variant, with calls that throw

    rxjs-interop/src/interceptor.ts once more.  In [RxjsInterop] every
    entry, continuation and backend returns.  Here a call returns or throws:
    a next-based entry may throw instead of returning a stream, an
    [eventInterceptor] may throw after the events it has emitted, and so may
    the continuation and the backend.  An exception that leaves the function
    given to [new Observable] is sent by rxjs to the subscriber as its
    error, which a stopped subscriber ignores; one that leaves the chain
    leaves [handle]. *)

Module Throwing.
Import RxjsInterop.

(** How a call ends. *)
Inductive Call (A : Type) : Type :=
| Returns (a : A)
| Throws (err : string).
Arguments Throws {A} err.

Definition HttpHandlerFn : Type := HttpRequest -> Call Observable.

(** The [eventInterceptor] gives the state its calls of [onEvent] have
    led to, and what it threw, if it did. *)
Inductive HttpInterceptorFn : Type :=
| ObservableInterceptorFn
    (fn : HttpRequest -> HttpHandlerFn -> Call Observable)
| EventInterceptor
    (eventInterceptor :
       HttpRequest -> HttpHandlerFn ->
       forall K : Type, (HttpEvent -> K -> K) -> K -> K * option string).

Definition ChainedInterceptorFn : Type :=
  HttpRequest -> HttpHandlerFn -> Call Observable.

Definition interceptorChainEndFn : ChainedInterceptorFn :=
  fun req finalHandlerFn => finalHandlerFn req.

Definition chainedInterceptorFn
    (chainTailFn : ChainedInterceptorFn)
    (interceptorFn : HttpInterceptorFn)
    (injector : EnvironmentInjector) : ChainedInterceptorFn :=
  match interceptorFn with
  | EventInterceptor eventInterceptor =>
      fun initialRequest finalHandlerFn =>
        Returns
          (new_Observable (fun subscriber =>
             let (subscriber, thrown) :=
               runInInjectionContext injector (fun _ =>
                 eventInterceptor
                   initialRequest
                   (fun downstreamRequest =>
                      chainTailFn downstreamRequest finalHandlerFn)
                   Subscriber
                   (fun event subscriber =>
                      let subscriber := Subscriber_next event subscriber in
                      if isHttpResponse event
                      then Subscriber_complete subscriber
                      else subscriber)
                   subscriber) in
             match thrown with
             | Some err => Subscriber_error err subscriber
             | None => subscriber
             end))
  | ObservableInterceptorFn fn =>
      fun initialRequest finalHandlerFn =>
        runInInjectionContext injector (fun _ =>
          fn initialRequest
             (fun downstreamRequest => chainTailFn downstreamRequest finalHandlerFn))
  end.

(** [HttpBackend.handle(req)] *)
Definition HttpBackend : Type := HttpRequest -> Call Observable.

Record HttpInterceptorHandler : Type := mkHandler
  { chain : option ChainedInterceptorFn
  ; contributeToStability : bool
  ; backend : HttpBackend
  ; injector : EnvironmentInjector }.

Definition set_chain (c : ChainedInterceptorFn) (this : HttpInterceptorHandler)
  : HttpInterceptorHandler :=
  {| chain := Some c
   ; contributeToStability := contributeToStability this
   ; backend := backend this
   ; injector := injector this |}.

Section WithHeap.
Variable heap : Ref -> HttpInterceptorFn.

Definition reduceRight_chain (injector : EnvironmentInjector)
    (dedupedInterceptorFns : list Ref) : ChainedInterceptorFn :=
  fold_right
    (fun interceptorFn nextSequencedFn =>
       chainedInterceptorFn nextSequencedFn (heap interceptorFn) injector)
    interceptorChainEndFn
    dedupedInterceptorFns.

(** [HttpInterceptorHandler.handle(initialRequest)]: the stream returned or
    the exception thrown, the handler with its [chain] field, and the
    registry after the call.  The token is added before the chain is
    called, [finalize] is attached to what the chain returns. *)
Definition handle (this : HttpInterceptorHandler) (initialRequest : HttpRequest)
    (pendingTasks : PendingTasks)
  : Call Stream * HttpInterceptorHandler * PendingTasks :=
  let this_chain :=
    match chain this with
    | None =>
        let dedupedInterceptorFns :=
          Dedupe.dedupedInterceptorFns Nat.eq_dec
            (HTTP_INTERCEPTOR_FNS (injector this))
            (HTTP_ROOT_INTERCEPTOR_FNS (injector this)) in
        reduceRight_chain (injector this) dedupedInterceptorFns
    | Some c => c
    end in
  let this := match chain this with
              | None => set_chain this_chain this
              | Some _ => this
              end in
  if contributeToStability this then
    let (taskId, pendingTasks) := PendingTasks_add pendingTasks in
    match this_chain initialRequest
            (fun downstreamRequest => backend this downstreamRequest) with
    | Returns o =>
        (Returns (pipe_finalize o (PendingTasks_remove taskId)),
         this, pendingTasks)
    | Throws err => (Throws err, this, pendingTasks)
    end
  else
    match this_chain initialRequest
            (fun downstreamRequest => backend this downstreamRequest) with
    | Returns o => (Returns (unpiped o), this, pendingTasks)
    | Throws err => (Throws err, this, pendingTasks)
    end.

End WithHeap.

(** A callback-based interceptor given by the events it emits, in order,
    and by what it throws after them, if it does. *)
Definition emitting (evs : HttpRequest -> HttpHandlerFn -> list HttpEvent)
    (thrown : HttpRequest -> HttpHandlerFn -> option string)
  : HttpInterceptorFn :=
  EventInterceptor (fun request next K onEvent k =>
    (fold_left (fun k event => onEvent event k) (evs request next) k,
     thrown request next)).

(** [(req, next) => { throw err; }] *)
Definition throwing (err : string) : HttpInterceptorFn :=
  ObservableInterceptorFn (fun req next => Throws err).



End Throwing.

(** ** The single-shot variant: src/interceptor.ts and src/http.ts *)

Module SingleShot.

(** *** Values, errors and the world *)

(** What an [await] can yield and what reaches an [onEvent] callback. *)
Inductive JsVal : Type :=
| Undefined
| Event (e : HttpEvent).

Inductive JsError : Type :=
| TypeError (msg : string)
| Thrown (what : string)
| OutOfFuel.

(** What user code leaves behind: interceptors, backends and callbacks used
    in the statements write here when they run. *)
Inductive Label : Type :=
| Intercepted (who : Ref) (req : HttpRequest)
| BackendCalled (req : HttpRequest) (withCallback : bool)
| Delivered (v : JsVal).

(** A promise made by [new Promise]. *)
Inductive PromiseState : Type :=
| Pending
| Resolved (v : JsVal)
| RejectedWith (e : JsError).

(** [index] is the [let index] of the [handle] call in progress, which the
    closure [next] shares across all its invocations; [promises] holds the
    promises made by [new Promise], by allocation order; [pendingTasks] is
    the registry of the application. *)
Record World : Type := mkWorld
  { index : Z
  ; trace : list Label
  ; promises : list PromiseState
  ; pendingTasks : PendingTasks }.

Definition set_index (i : Z) (w : World) : World :=
  {| index := i; trace := trace w; promises := promises w
   ; pendingTasks := pendingTasks w |}.

Definition add_trace (l : Label) (w : World) : World :=
  {| index := index w; trace := trace w ++ [l]; promises := promises w
   ; pendingTasks := pendingTasks w |}.

Definition set_promises (ps : list PromiseState) (w : World) : World :=
  {| index := index w; trace := trace w; promises := ps
   ; pendingTasks := pendingTasks w |}.

(** *** Async code

    The event loop is single-threaded and the code below awaits every
    promise where it is made, so an async call is run to settlement at its
    call site: a computation takes the world and gives how its promise
    settles and the world then.  Effects made before a rejection stay. *)
Inductive Settled (A : Type) : Type :=
| Fulfilled (a : A)
| Rejected (e : JsError).
Arguments Rejected {A} e.

Definition M (A : Type) : Type := World -> Settled A * World.

Definition ret (A : Type) (a : A) : M A := fun w => (Fulfilled a, w).

Definition bind (A B : Type) (c : M A) (k : A -> M B) : M B :=
  fun w =>
    match c w with
    | (Fulfilled a, w') => k a w'
    | (Rejected e, w') => (Rejected e, w')
    end.

Definition throw (A : Type) (e : JsError) : M A := fun w => (Rejected e, w).

Definition log (l : Label) : M unit := fun w => (Fulfilled tt, add_trace l w).

Notation "x <- c ;; k" := (bind c (fun x => k))
  (at level 61, c at next level, right associativity).
Notation "c ;;; k" := (bind c (fun _ => k))
  (at level 61, right associativity).

(** [(event) => void] *)
Definition Callback : Type := JsVal -> M unit.

(** [onEvent(v)] where [onEvent] may be [undefined]: calling [undefined]
    throws a TypeError. *)
Definition call (onEvent : option Callback) (v : JsVal) : M unit :=
  match onEvent with
  | Some f => f v
  | None => throw unit (TypeError "onEvent is not a function")
  end.

(** [array[i]]: [undefined] outside the array. *)
Definition array_get (A : Type) (l : list A) (i : Z) : option A :=
  if (i <? 0)%Z then None else nth_error l (Z.to_nat i).

(** *** Handlers and interceptors *)

(** [HttpHandlerFn = (req) => ...]: one parameter.  An interceptor gets what
    awaiting the call yields. *)
Definition HttpHandlerFn : Type := HttpRequest -> M JsVal.

(** [HttpInterceptorFn]: [(req, next) => ...], awaited by the dispatcher, or
    an object with [eventInterceptor(request, next, onEvent)].  The method
    is declared to return nothing, but [next] returns what it returns (a
    method written [(req, next, onEvent) => next(req)] returns the promise
    of [next]): the model keeps the value. *)
Inductive HttpInterceptorFn : Type :=
| ObservableInterceptorFn
    (fn : HttpRequest -> HttpHandlerFn -> M JsVal)
| EventInterceptor
    (eventInterceptor :
       HttpRequest -> HttpHandlerFn -> option Callback -> M JsVal).

(** [HttpBackend2.handle(req, onEvent)]: the promise it returns, which
    [next] returns in its turn.  It is declared as a [Promise<void>]; the
    model keeps the value it is fulfilled with.  Its errors reject it. *)
Definition HttpBackend2 : Type := HttpRequest -> option Callback -> M JsVal.

Record HttpInterceptorHandler : Type := mkHandler
  { injector : EnvironmentInjector
  ; backend : HttpBackend2 }.

Section WithHeap.
Variable heap : Ref -> HttpInterceptorFn.

Section Next.
Variable this : HttpInterceptorHandler.
Variable dedupedInterceptorFns : list Ref.

(** The closure [next] of [handle].  It is handed to the interceptors,
    which call it back: [fuel] bounds the nesting of such calls.  As
    every call moves the cursor forward before anything else, the
    nesting never exceeds the number of entries. *)
Fixpoint next (fuel : nat) (req : HttpRequest) (onEvent : option Callback)
  : M JsVal :=
  fun w =>
    let w := set_index (index w + 1) w in
    if (index w <? Z.of_nat (length dedupedInterceptorFns))%Z then
      match fuel with
      | O => (Rejected OutOfFuel, w)
      | S fuel' =>
          (* interceptors call [next(req)]: the second argument is missing *)
          let next' : HttpHandlerFn := fun req => next fuel' req None in
          match array_get dedupedInterceptorFns (index w) with
          | None =>
              (Rejected (TypeError "cannot use 'in' on undefined"), w)
          | Some interceptor =>
              match heap interceptor with
              | ObservableInterceptorFn fn =>
                  (response <- fn req next' ;;
                   call onEvent response ;;;
                   ret Undefined) w
              | EventInterceptor eventInterceptor =>
                  (* [return interceptor.eventInterceptor(req, next, onEvent)] *)
                  eventInterceptor req next' onEvent w
              end
          end
      end
    else
      (* [return this.backend.handle(req, onEvent)] *)
      backend this req onEvent w.
End Next.

(** [HttpInterceptorHandler.handle(request, onEvent)] *)
Definition handle (this : HttpInterceptorHandler) (request : HttpRequest)
    (onEvent : Callback) : M unit :=
  fun w =>
    let dedupedInterceptorFns :=
      Dedupe.dedupedInterceptorFns Nat.eq_dec
        (HTTP_INTERCEPTOR_FNS (injector this))
        (HTTP_ROOT_INTERCEPTOR_FNS (injector this)) in
    let w := set_index (-1) w in
    (next this dedupedInterceptorFns (length dedupedInterceptorFns)
       request (Some (fun event => onEvent event)) ;;;
     ret tt) w.

End WithHeap.

(** *** [Http.request] *)

(** [new Promise((resolve) => ...)]: the promise is settled by the first
    call of [resolve]; an exception thrown by the executor rejects it if it
    is still pending. *)
Definition settle (p : nat) (s : PromiseState) (w : World) : World :=
  match nth_error (promises w) p with
  | Some Pending =>
      set_promises (firstn p (promises w) ++ s :: skipn (S p) (promises w)) w
  | _ => w
  end.

Definition new_Promise (executor : Callback -> M unit) : M nat :=
  fun w =>
    let p := length (promises w) in
    let w := set_promises (promises w ++ [Pending]) w in
    let resolve : Callback := fun v w => (Fulfilled tt, settle p (Resolved v) w) in
    match executor resolve w with
    | (Fulfilled _, w') => (Fulfilled p, w')
    | (Rejected e, w') => (Fulfilled p, settle p (RejectedWith e) w')
    end.

(** A call of an async method from plain code: it returns a promise and
    throws nothing. *)
Definition call_async (A : Type) (body : M A) : M (Settled A) :=
  fun w => let (r, w') := body w in (Fulfilled r, w').

Record Http : Type := mkHttp { Http_backend : HttpBackend2 }.

Record RequestOptions : Type := mkOptions
  { options_headers : list (string * string) }.

(** [Http.request(first, url, options)]: the promise it returns.  [first]
    is a request, used as it is, or a method, from which a request is made
    with the URL and the options; of the options the request model keeps the
    headers. *)
Definition request (this : Http) (first : string + HttpRequest)
    (url : string) (options : RequestOptions) : M nat :=
  let req :=
    match first with
    | inr r => r
    | inl m => {| method := m; url := url; headers := options_headers options |}
    end in
  new_Promise (fun resolve =>
    call_async (Http_backend this req (Some (fun event => resolve event))) ;;;
    ret tt).

(** *** Interceptors, backends and callbacks used in the statements *)

(** [(req, next) => next(f(req))], leaving a mark when it runs. *)
Definition passThrough (who : Ref) (f : HttpRequest -> HttpRequest)
  : HttpInterceptorFn :=
  ObservableInterceptorFn (fun req next =>
    log (Intercepted who req) ;;; next (f req)).

(** [{eventInterceptor: (req, next, onEvent) => next(f(req))}] *)
Definition passThroughEvent (who : Ref) (f : HttpRequest -> HttpRequest)
  : HttpInterceptorFn :=
  EventInterceptor (fun req next onEvent =>
    log (Intercepted who req) ;;; next (f req)).

(** [async (req, next) => { await next(req); return next(req); }] *)
Definition callsNextTwice (who : Ref) : HttpInterceptorFn :=
  ObservableInterceptorFn (fun req next =>
    log (Intercepted who req) ;;; next req ;;; next req).

(** [{eventInterceptor: (req, next, onEvent) => onEvent(event)}]: answers
    by itself and never calls [next]. *)
Definition respondsWith (who : Ref) (event : HttpEvent) : HttpInterceptorFn :=
  EventInterceptor (fun req next onEvent =>
    log (Intercepted who req) ;;; call onEvent (Event event) ;;; ret Undefined).

(** [{eventInterceptor: (req, next, onEvent) => event}]: a callback-based
    entry that returns a value, and calls neither [next] nor [onEvent]. *)
Definition returnsEvent (who : Ref) (event : HttpEvent) : HttpInterceptorFn :=
  EventInterceptor (fun req next onEvent =>
    log (Intercepted who req) ;;; ret (Event event)).

(** [(req, next) => event]: a next-based entry that answers by itself. *)
Definition returns (who : Ref) (event : HttpEvent) : HttpInterceptorFn :=
  ObservableInterceptorFn (fun req next =>
    log (Intercepted who req) ;;; ret (Event event)).

(** What a computation that settles with nothing is fulfilled with. *)
Definition settles (outcome : Settled unit) : M JsVal :=
  fun w =>
    (match outcome with
     | Fulfilled _ => Fulfilled Undefined
     | Rejected e => Rejected e
     end, w).

(** A stage that returns nothing: whenever its promise is fulfilled, it is
    with [undefined]. *)
Definition returns_nothing (stage : M JsVal) : Prop :=
  forall w v w', stage w = (Fulfilled v, w') -> v = Undefined.

(** A backend that delivers the given values to its callback, in order, and
    then settles as given. *)
Fixpoint deliver (onEvent : option Callback) (vs : list JsVal) : M unit :=
  match vs with
  | [] => ret tt
  | v :: vs => call onEvent v ;;; deliver onEvent vs
  end.

Definition scriptedBackend (vs : list JsVal) (outcome : Settled unit)
  : HttpBackend2 :=
  fun req onEvent =>
    log (BackendCalled req (match onEvent with Some _ => true | None => false end)) ;;;
    deliver onEvent vs ;;;
    settles outcome.

(** The marks left by a run through pass-through entries, each seeing the
    request as changed by the ones before it. *)
Fixpoint interceptions (f : Ref -> HttpRequest -> HttpRequest)
    (entries : list Ref) (req : HttpRequest) : list Label :=
  match entries with
  | [] => []
  | r :: rest => Intercepted r req :: interceptions f rest (f r req)
  end.

(** The caller's [onEvent]: it keeps what it is given. *)
Definition recording : Callback := fun v => log (Delivered v).

Definition emptyWorld : World :=
  {| index := 0; trace := []; promises := []
   ; pendingTasks := {| taskId := 0; pending := []; history := [] |} |}.

End SingleShot.

(** ** Sample configurations *)

Module Samples.

Definition GET (u : string) : HttpRequest :=
  {| method := "GET"; url := u; headers := [] |}.

Definition noTasks : PendingTasks :=
  {| taskId := 0; pending := []; history := [] |}.

Module Stream.
Import RxjsInterop.

(** Entry [r] stamps the request with a header on the way in and appends a
    user event to the stream on the way out. *)
Definition stampRequest (r : Ref) : HttpRequest -> HttpRequest :=
  addHeader "X-Seen-By" (String (Ascii.ascii_of_nat (97 + r)) EmptyString).

Definition stampResponse (r : Ref) (o : Observable) : Observable :=
  {| events := events o ++ [User (String (Ascii.ascii_of_nat (97 + r)) EmptyString)]
   ; ending := ending o |}.

Definition stamping (r : Ref) : HttpInterceptorFn :=
  delegating (stampRequest r) (stampResponse r).

(** A backend that answers with the number of headers it was sent. *)
Definition countingBackend : HttpBackend :=
  fun req => of_ [Response (Z.of_nat (length (headers req))) (url req)].

Definition okBackend : HttpBackend :=
  fun req => of_ [Response 200 (url req)].

Definition handler (fns rootFns : list Ref) (b : HttpBackend)
  : HttpInterceptorHandler :=
  {| chain := None
   ; contributeToStability := REQUESTS_CONTRIBUTE_TO_STABILITY
   ; backend := b
   ; injector := {| HTTP_INTERCEPTOR_FNS := fns
                  ; HTTP_ROOT_INTERCEPTOR_FNS := rootFns |} |}.
End Stream.

Module Throws.
Import RxjsInterop Throwing.

Definition okBackend : HttpBackend :=
  fun req => Returns (of_ [Response 200 (url req)]).

Definition handler (fns rootFns : list Ref) (b : HttpBackend)
  : HttpInterceptorHandler :=
  {| chain := None
   ; contributeToStability := REQUESTS_CONTRIBUTE_TO_STABILITY
   ; backend := b
   ; injector := {| HTTP_INTERCEPTOR_FNS := fns
                  ; HTTP_ROOT_INTERCEPTOR_FNS := rootFns |} |}.

(** Entries that throw when they are called. *)
Definition failing (r : Ref) : HttpInterceptorFn := throwing "failed".

(** Entries that emit [Sent] and then throw. *)
Definition sentThenFailing (r : Ref) : HttpInterceptorFn :=
  emitting (fun _ _ => [Sent]) (fun _ _ => Some "failed"%string).
End Throws.

Module Promise.
Import SingleShot.

Definition handler (fns rootFns : list Ref) (b : HttpBackend2)
  : HttpInterceptorHandler :=
  {| injector := {| HTTP_INTERCEPTOR_FNS := fns
                  ; HTTP_ROOT_INTERCEPTOR_FNS := rootFns |}
   ; backend := b |}.

(** A backend that makes its request and delivers nothing. *)
Definition silentBackend : HttpBackend2 := scriptedBackend [] (Fulfilled tt).

(** A backend that delivers one response. *)
Definition okBackend : HttpBackend2 :=
  scriptedBackend [Event (Response 200 "from the backend")] (Fulfilled tt).

(** Entries that pass the request on unchanged. *)
Definition forwarding (r : Ref) : HttpInterceptorFn :=
  passThroughEvent r (fun req => req).

(** Entry 0 calls [next] twice, the others pass the request on. *)
Definition retrying (r : Ref) : HttpInterceptorFn :=
  match r with
  | 0 => callsNextTwice 0
  | _ => passThroughEvent r (fun req => req)
  end.

(** [a; b; c] where [a] delegates, [b] answers by itself through
    [onEvent], and [c] delegates. *)
Definition shortCircuiting (r : Ref) : HttpInterceptorFn :=
  match r with
  | 0 => passThrough 0 (fun req => req)
  | 1 => respondsWith 1 (Response 200 "from b")
  | _ => passThroughEvent r (fun req => req)
  end.

(** [a; b] where [a] delegates and [b] is a next-based entry that answers
    by itself. *)
Definition answering (r : Ref) : HttpInterceptorFn :=
  match r with
  | 0 => passThrough 0 (fun req => req)
  | _ => returns r (Response 200 "from b")
  end.

(** [a; b] where [a] delegates and [b] is a callback-based entry that
    returns its answer. *)
Definition handingBack (r : Ref) : HttpInterceptorFn :=
  match r with
  | 0 => passThrough 0 (fun req => req)
  | _ => returnsEvent r (Response 200 "from b")
  end.
End Promise.

End Samples.

(** ** Class-based interceptors: rxjs-interop/src/interceptor.ts *)

Module Legacy.
Import RxjsInterop.

(** [HttpHandler]: an object with a [handle(req)] method. *)
Record HttpHandler : Type := mkHttpHandler
  { HttpHandler_handle : HttpRequest -> Observable }.

(** [HttpInterceptor]: an object with [intercept(req, next: HttpHandler)]. *)
Record HttpInterceptor : Type := mkHttpInterceptor
  { intercept : HttpRequest -> HttpHandler -> Observable }.

Definition adaptLegacyInterceptorToChain
    (chainTailFn : ChainedInterceptorFn)
    (interceptor : HttpInterceptor) : ChainedInterceptorFn :=
  fun initialRequest finalHandlerFn =>
    intercept interceptor initialRequest
      {| HttpHandler_handle :=
           fun downstreamRequest => chainTailFn downstreamRequest finalHandlerFn |}.

(** What the function made by [legacyInterceptorFnFactory] injects when it
    runs: [inject(HTTP_INTERCEPTORS, {optional: true})], which is [null]
    without a provider, and [inject(REQUESTS_CONTRIBUTE_TO_STABILITY)]. *)
Record InjectionContext : Type := mkInjectionContext
  { HTTP_INTERCEPTORS : option (list HttpInterceptor)
  ; contributeToStability : bool }.

(** The function returned by [legacyInterceptorFnFactory()].  Its closure
    variable [chain] is passed in and handed back. *)
Definition legacyInterceptorFn
    (chain : option ChainedInterceptorFn) (ctx : InjectionContext)
    (req : HttpRequest) (handler : HttpHandlerFn) (pendingTasks : PendingTasks)
  : Stream * option ChainedInterceptorFn * PendingTasks :=
  let chain :=
    match chain with
    | None =>
        let interceptors :=
          match HTTP_INTERCEPTORS ctx with
          | Some l => l
          | None => []
          end in
        fold_right
          (fun interceptor chainTailFn =>
             adaptLegacyInterceptorToChain chainTailFn interceptor)
          interceptorChainEndFn
          interceptors
    | Some c => c
    end in
  if contributeToStability ctx then
    let (taskId, pendingTasks) := PendingTasks_add pendingTasks in
    (pipe_finalize (chain req handler) (PendingTasks_remove taskId),
     Some chain, pendingTasks)
  else
    (unpiped (chain req handler), Some chain, pendingTasks).

(** [legacyInterceptorFnFactory()]: [let chain = null]. *)
Definition legacyInterceptorFnFactory := legacyInterceptorFn None.

(** A class-based interceptor that always delegates:
    [intercept(req, next) { return g(next.handle(f(req))); }] *)
Definition delegatingInterceptor
    (fg : (HttpRequest -> HttpRequest) * (Observable -> Observable))
  : HttpInterceptor :=
  {| intercept := fun req next => snd fg (HttpHandler_handle next (fst fg req)) |}.

End Legacy.

(** ** The server-side warning of the stream dispatcher's constructor *)

Module FetchWarning.

(** What the constructor looks at in its backend:
    [backend instanceof FetchBackend] and [backend.isTestingBackend]. *)
Record BackendInfo : Type := mkBackendInfo
  { isFetchBackend : bool
  ; isTestingBackend : bool }.

(** The module variable [fetchBackendWarningDisplayed] and what has been
    written with [Console.warn]: one entry per warning. *)
Inductive RuntimeErrorCode : Type :=
| NOT_USING_FETCH_BACKEND_IN_SSR.

Record Globals : Type := mkGlobals
  { fetchBackendWarningDisplayed : bool
  ; warnings : list RuntimeErrorCode }.

Definition resetFetchBackendWarningFlag (g : Globals) : Globals :=
  {| fetchBackendWarningDisplayed := false; warnings := warnings g |}.

(** One construction: [ngDevMode] is [None] when the global is not
    defined; [isServer] is [isPlatformServer(injector.get(PLATFORM_ID))]. *)
Record Construction : Type := mkConstruction
  { ngDevMode : option bool
  ; isServer : bool
  ; backendInfo : BackendInfo }.

(** The constructor of [HttpInterceptorHandler], as far as the globals go. *)
Definition constructor (c : Construction) (g : Globals) : Globals :=
  if (match ngDevMode c with None => true | Some b => b end)
     && negb (fetchBackendWarningDisplayed g)
  then
    if isServer c
       && negb (isFetchBackend (backendInfo c))
       && negb (isTestingBackend (backendInfo c))
    then {| fetchBackendWarningDisplayed := true
          ; warnings := warnings g ++ [NOT_USING_FETCH_BACKEND_IN_SSR] |}
    else g
  else g.

(** A construction that asks for the warning. *)
Definition warrants_warning (c : Construction) : bool :=
  (match ngDevMode c with None => true | Some b => b end)
  && isServer c
  && negb (isFetchBackend (backendInfo c))
  && negb (isTestingBackend (backendInfo c)).

(** Handlers constructed one after the other. *)
Definition constructions (cs : list Construction) (g : Globals) : Globals :=
  fold_left (fun g c => constructor c g) cs g.

End FetchWarning.

(** ** Digit information: src/i18n/intl_helpers.ts *)

Module DigitInfo.

(** [\d]: an ASCII digit. *)
Definition isDigit (c : ascii) : bool :=
  (48 <=? nat_of_ascii c) && (nat_of_ascii c <=? 57).

(** The digits at the head of a string, and the rest. *)
Fixpoint span_digits (s : string) : string * string :=
  match s with
  | String c rest =>
      if isDigit c
      then let (ds, r) := span_digits rest in (String c ds, r)
      else (EmptyString, s)
  | EmptyString => (EmptyString, EmptyString)
  end.

(** A group [(\d+)?]: [undefined] when it took no digit. *)
Definition group (ds : string) : option string :=
  match ds with
  | EmptyString => None
  | _ => Some ds
  end.

(** Groups 1, 3 and 5 of a match of
    [NUMBER_FORMAT_REGEXP = /^(\d+)?\.((\d+)(-(\d+))?)?$/]. *)
Record Parts : Type := mkParts
  { minIntPart : option string
  ; minFractionPart : option string
  ; maxFractionPart : option string }.

(** [digitsInfo.match(NUMBER_FORMAT_REGEXP)]: [None] is [null]. *)
Definition match_NUMBER_FORMAT_REGEXP (digitsInfo : string) : option Parts :=
  let (g1, afterInt) := span_digits digitsInfo in
  match afterInt with
  | String "." EmptyString => Some (mkParts (group g1) None None)
  | String "." afterDot =>
      let (g3, afterMin) := span_digits afterDot in
      match g3, afterMin with
      | EmptyString, _ => None
      | _, EmptyString => Some (mkParts (group g1) (Some g3) None)
      | _, String "-" afterDash =>
          let (g5, afterMax) := span_digits afterDash in
          match g5, afterMax with
          | EmptyString, _ => None
          | _, EmptyString => Some (mkParts (group g1) (Some g3) (Some g5))
          | _, _ => None
          end
      | _, _ => None
      end
  | _ => None
  end.

(** *** [parseInt]

    A JavaScript number is a double.  The model keeps the integer a literal
    denotes, which is the double [parseInt] returns as long as it is at
    most 2^53; a larger integer is rounded to a double by [parseInt], and
    what is said below of the value read is said up to 2^53.  [None] is
    [NaN].  Leading white space is skipped (the ASCII white space: a
    string here is a string of ASCII characters), then a sign, then [0x] or
    [0X] for radix 16; the digits of the radix are read as far as they go. *)
Definition isWhiteSpace (c : ascii) : bool :=
  let n := nat_of_ascii c in
  ((9 <=? n) && (n <=? 13)) || (n =? 32).

Fixpoint skipWhiteSpace (s : string) : string :=
  match s with
  | String c rest => if isWhiteSpace c then skipWhiteSpace rest else s
  | EmptyString => s
  end.

Definition digitValue (radix : Z) (c : ascii) : option Z :=
  let n := Z.of_nat (nat_of_ascii c) in
  let v := (if (48 <=? n) && (n <=? 57) then n - 48
            else if (97 <=? n) && (n <=? 122) then n - 87
            else if (65 <=? n) && (n <=? 90) then n - 55
            else radix)%Z in
  if (v <? radix)%Z then Some v else None.

(** The value of the digits at the head of [s], after [acc]; [seen] tells
    whether a digit has been read. *)
Fixpoint readDigits (radix : Z) (s : string) (acc : Z) (seen : bool)
  : option Z :=
  match s with
  | String c rest =>
      match digitValue radix c with
      | Some v => readDigits radix rest (radix * acc + v)%Z true
      | None => if seen then Some acc else None
      end
  | EmptyString => if seen then Some acc else None
  end.

Definition parseInt (text : string) : option Z :=
  let s := skipWhiteSpace text in
  let (sign, s) :=
    match s with
    | String "-" r => ((-1)%Z, r)
    | String "+" r => (1%Z, r)
    | _ => (1%Z, s)
    end in
  let (radix, s) :=
    match s with
    | String "0" (String "x" r) => (16%Z, r)
    | String "0" (String "X" r) => (16%Z, r)
    | _ => (10%Z, s)
    end in
  match readDigits radix s 0%Z false with
  | Some v => Some (sign * v)%Z
  | None => None
  end.

(** *** [parseIntAutoRadix] and [parseDigitInfo] *)

Inductive Error : Type :=
| InvalidIntegerLiteral (text : string)
| NotAValidDigitInfo (digitsInfo : string).

Inductive Result (A : Type) : Type :=
| Ok (a : A)
| Throw (e : Error).
Arguments Throw {A} e.

Definition parseIntAutoRadix (text : string) : Result Z :=
  match parseInt text with
  | None => Throw (InvalidIntegerLiteral text)
  | Some result => Ok result
  end.

(** What [parseDigitInfo] returns; [None] is [undefined]. *)
Record Digits : Type := mkDigits
  { minimumIntegerDigits : option Z
  ; minimumFractionDigits : option Z
  ; maximumFractionDigits : option Z }.

Definition parsePart (part : option string) : Result (option Z) :=
  match part with
  | Some text =>
      match parseIntAutoRadix text with
      | Ok n => Ok (Some n)
      | Throw e => Throw e
      end
  | None => Ok None
  end.

Definition parseDigitInfo (digitsInfo : option string) : Result Digits :=
  let finish (minimumIntegerDigits minimumFractionDigits
              maximumFractionDigits : option Z) :=
    {| minimumIntegerDigits :=
         match minimumIntegerDigits with
         | Some 0%Z => Some 1%Z
         | other => other
         end
     ; minimumFractionDigits := minimumFractionDigits
     ; maximumFractionDigits := maximumFractionDigits |} in
  match digitsInfo with
  | None | Some EmptyString => Ok (finish None None None)
  | Some digitsInfo =>
      match match_NUMBER_FORMAT_REGEXP digitsInfo with
      | None => Throw (NotAValidDigitInfo digitsInfo)
      | Some parts =>
          match parsePart (minIntPart parts) with
          | Throw e => Throw e
          | Ok minimumIntegerDigits =>
          match parsePart (minFractionPart parts) with
          | Throw e => Throw e
          | Ok minimumFractionDigits =>
          match maxFractionPart parts with
          | Some text =>
              match parseIntAutoRadix text with
              | Throw e => Throw e
              | Ok n =>
                  Ok (finish minimumIntegerDigits minimumFractionDigits (Some n))
              end
          | None =>
              (* [maximumFractionDigits] has not been assigned *)
              let maximumFractionDigits : option Z := None in
              let maximumFractionDigits :=
                match minFractionPart parts,
                      minimumFractionDigits, maximumFractionDigits with
                | Some _, Some mn, Some mx =>
                    if (mx <? mn)%Z then Some mn else maximumFractionDigits
                | _, _, _ => maximumFractionDigits
                end in
              Ok (finish minimumIntegerDigits minimumFractionDigits
                    maximumFractionDigits)
          end end end
      end
  end.

(** A string of ASCII digits. *)
Fixpoint allDigits (s : string) : bool :=
  match s with
  | String c rest => isDigit c && allDigits rest
  | EmptyString => true
  end.

Definition nonEmptyDigits (part : option string) : bool :=
  match part with
  | Some EmptyString => false
  | Some ds => allDigits ds
  | None => true
  end.

(** Parts that a match can give: digits where there is a part, and no
    maximum without a minimum. *)
Definition wellFormed (p : Parts) : bool :=
  nonEmptyDigits (minIntPart p)
  && nonEmptyDigits (minFractionPart p)
  && nonEmptyDigits (maxFractionPart p)
  && match minFractionPart p, maxFractionPart p with
     | None, Some _ => false
     | _, _ => true
     end.

(** The digit information the parts are read from:
    [{minIntegerDigits}.{minFractionDigits}-{maxFractionDigits}]. *)
Definition render (p : Parts) : string :=
  (match minIntPart p with Some i => i | None => EmptyString end
   ++ String "." match minFractionPart p with
                 | Some mn =>
                     mn ++ match maxFractionPart p with
                           | Some mx => String "-" mx
                           | None => EmptyString
                           end
                 | None => EmptyString
                 end)%string.

(** What a part and the number read from it have to do with each other. *)
Definition reads (part : option string) (r : option Z) : Prop :=
  match part, r with
  | Some text, Some n => parseInt text = Some n /\ (0 <= n)%Z
  | None, None => True
  | _, _ => False
  end.

(** [n === 0 ? 1 : n] *)
Definition atLeastOne (r : option Z) : option Z :=
  match r with
  | Some 0%Z => Some 1%Z
  | other => other
  end.

(** [String(n)] for a natural number: its decimal digits. *)
Definition decimal (n : nat) : string :=
  DecimalString.NilZero.string_of_uint (Nat.to_uint n).

End DigitInfo.

(** ** Number formatting: src/i18n/intl_helpers.ts and format_number.ts *)

Module NumberFormat.
Import DigitInfo.

Definition NARROW_SYMBOL : string := "narrowSymbol".
Definition SYMBOL : string := "symbol".
Definition CURRENCY : string := "currency".

(** [array.includes(x)] on strings. *)
Definition includes (l : list string) (x : string) : bool :=
  existsb (String.eqb x) l.

(** The options handed to [Intl.NumberFormat]; [None] is [undefined]. *)
Record NumberFormatOptions : Type := mkOptions
  { opt_maximumFractionDigits : option Z
  ; opt_minimumIntegerDigits : option Z
  ; opt_minimumFractionDigits : option Z
  ; opt_style : string
  ; opt_notation : option string
  ; opt_currencyDisplay : option string
  ; opt_currency : option string }.

(** An entry of [formatToParts]. *)
Record Part : Type := mkPart
  { part_type : string
  ; part_value : string }.

Inductive Thrown : Type :=
| DigitInfoError (e : Error)
| RangeError.

Inductive Outcome (A : Type) : Type :=
| Returns (a : A)
| Throws (t : Thrown).
Arguments Throws {A} t.

Section WithIntl.
(** The platform: numbers, [Intl] and [String.prototype.trim]. *)
Variable Num : Type.
(** [num < 1e21] *)
Variable below_scientificNotationLimit : Num -> bool.

Record Formatter : Type := mkFormatter
  { format : Num -> string
  ; formatToParts : Num -> list Part }.

(** [Intl.NumberFormat(locale, options)]; [None] when it throws a
    RangeError. *)
Variable Intl_NumberFormat : string -> NumberFormatOptions -> option Formatter.
(** [Intl.supportedValuesOf], [None] where the platform lacks it. *)
Variable Intl_supportedValuesOf : option (string -> list string).
Variable trim : string -> string.

Definition formatIntlNumber (num : Num) (locale : string)
    (digitsInfo : option string) (asPercent : bool) : Outcome string :=
  match parseDigitInfo digitsInfo with
  | Throw e => Throws (DigitInfoError e)
  | Ok digits =>
      match
        Intl_NumberFormat locale
          {| opt_maximumFractionDigits := maximumFractionDigits digits
           ; opt_minimumIntegerDigits := minimumIntegerDigits digits
           ; opt_minimumFractionDigits := minimumFractionDigits digits
           ; opt_style := if asPercent then "percent" else "decimal"
           ; opt_notation :=
               Some (if below_scientificNotationLimit num
                     then "standard" else "scientific")%string
           ; opt_currencyDisplay := None
           ; opt_currency := None |}
      with
      | None => Throws RangeError
      | Some formatter => Returns (format formatter num)
      end
  end.

Definition formatIntlCurrency (num : Num) (locale : string)
    (displayOrCurrency : string) (currencyCode : option string)
    (forceCurrencyDisplay : bool) (digitsInfo : option string)
  : Outcome string :=
  match parseDigitInfo digitsInfo with
  | Throw e => Throws (DigitInfoError e)
  | Ok digits =>
      let displayOrCurrency :=
        if String.eqb displayOrCurrency "symbol-narrow"
        then NARROW_SYMBOL else displayOrCurrency in
      let isCurrencySupported :=
        match Intl_supportedValuesOf with
        | Some supportedValuesOf =>
            match currencyCode with
            | Some code => includes (supportedValuesOf CURRENCY) code
            | None => false
            end
        | None => true
        end in
      let isValidDisplay :=
        includes ["name"; "code"; SYMBOL; NARROW_SYMBOL]%string displayOrCurrency in
      match
        Intl_NumberFormat locale
          {| opt_maximumFractionDigits :=
               if isCurrencySupported
               then maximumFractionDigits digits
               else Some (Z.max
                            (match maximumFractionDigits digits with
                             | Some m => m
                             | None => 0%Z
                             end) 2)
           ; opt_minimumIntegerDigits := minimumIntegerDigits digits
           ; opt_minimumFractionDigits := minimumFractionDigits digits
           ; opt_style := CURRENCY
           ; opt_notation := None
           ; opt_currencyDisplay :=
               if isValidDisplay then Some displayOrCurrency else None
           ; opt_currency :=
               if isCurrencySupported then currencyCode else Some "USD"%string |}
      with
      | None => Throws RangeError
      | Some formatter =>
          if isValidDisplay && isCurrencySupported && negb forceCurrencyDisplay
          then Returns (format formatter num)
          else
            let parts := formatToParts formatter num in
            Returns
              (trim
                 (String.concat ""
                    (map
                       (fun part =>
                          if String.eqb (part_type part) CURRENCY
                          then if isValidDisplay
                               then match currencyCode with
                                    | Some code => code
                                    | None => ""%string
                                    end
                               else displayOrCurrency
                          else part_value part)
                       parts)))
      end
  end.

(** format_number.ts *)
Definition formatCurrency (value : Num) (locale : string) (display : string)
    (currencyCode : option string) (digitsInfo : option string)
  : Outcome string :=
  let forceCurrencyDisplay :=
    negb (includes ["code"; "symbol"; "symbol-narrow"]%string display) in
  formatIntlCurrency value locale display currencyCode forceCurrencyDisplay
    digitsInfo.

Definition formatPercent (value : Num) (locale : string)
    (digitsInfo : option string) : Outcome string :=
  formatIntlNumber value locale digitsInfo true.

Definition formatNumber (value : Num) (locale : string)
    (digitsInfo : option string) : Outcome string :=
  formatIntlNumber value locale digitsInfo false.

End WithIntl.

(** What stands in for the currency parts when [formatCurrency] takes the
    output of [Intl] apart. *)
Definition currencyText (display : string) (currencyCode : option string)
  : string :=
  if includes ["name"; NARROW_SYMBOL]%string display
  then match currencyCode with Some code => code | None => ""%string end
  else display.

End NumberFormat.

(** ** Day periods: src/i18n/legacy_cldr_data_helpers.ts *)

Module DateTranslation.

Inductive TranslationType : Type := Months | Days | DayPeriods | Eras.
Inductive FormStyle : Type := Format | Standalone.
Inductive TranslationWidth : Type := Narrow | Abbreviated | Wide | Short.

(** A time of day of the locale data: [{hours, minutes}]. *)
Record Time : Type := mkTime
  { hours : Z
  ; minutes : Z }.

(** A rule for an extra day period: an array [[from, to]] (morning,
    afternoon, evening, night) or a single time (noon, midnight). *)
Inductive DayPeriodRule : Type :=
| Span (from to : Time)
| Moment (time : Time).

(** What is read of a [Date]. *)
Record Date : Type := mkDate
  { getFullYear : Z
  ; getMonth : Z
  ; getDay : Z
  ; getHours : Z
  ; getMinutes : Z }.

(** The callback given to [rules.findIndex]. *)
Definition ruleApplies (currentHours currentMinutes : Z) (rule : DayPeriodRule)
  : bool :=
  match rule with
  | Span from to =>
      let afterFrom :=
        (hours from <=? currentHours)%Z && (minutes from <=? currentMinutes)%Z in
      let beforeTo :=
        (currentHours <? hours to)%Z
        || ((currentHours =? hours to)%Z && (currentMinutes <? minutes to)%Z) in
      if (hours from <? hours to)%Z
      then afterFrom && beforeTo
      else afterFrom || beforeTo
  | Moment time =>
      (hours time =? currentHours)%Z && (minutes time =? currentMinutes)%Z
  end.

(** [array.findIndex(f)]: [None] is [-1]. *)
Fixpoint findIndex (A : Type) (f : A -> bool) (l : list A) : option nat :=
  match l with
  | [] => None
  | x :: rest =>
      if f x then Some 0
      else match findIndex f rest with
           | Some i => Some (S i)
           | None => None
           end
  end.

(** [array[i]] for a number [i]: [None] is [undefined]. *)
Definition at_index (A : Type) (l : list A) (i : Z) : option A :=
  if (i <? 0)%Z then None else nth_error l (Z.to_nat i).

Section WithLocaleData.
(** ./locale_data_api is not among the sources: its getters are taken as
    they are. *)
Variable getLocaleMonthNames : string -> FormStyle -> TranslationWidth -> list string.
Variable getLocaleDayNames : string -> FormStyle -> TranslationWidth -> list string.
Variable getLocaleDayPeriods : string -> FormStyle -> TranslationWidth -> list string.
Variable getLocaleExtraDayPeriods : string -> FormStyle -> TranslationWidth -> list string.
Variable getLocaleExtraDayPeriodRules : string -> list DayPeriodRule.
Variable getLocaleEraNames : string -> TranslationWidth -> list string.

Definition getDateTranslation (date : Date) (locale : string)
    (name : TranslationType) (width : TranslationWidth) (form : FormStyle)
    (extended : bool) : option string :=
  match name with
  | Months => at_index (getLocaleMonthNames locale form width) (getMonth date)
  | Days => at_index (getLocaleDayNames locale form width) (getDay date)
  | DayPeriods =>
      let currentHours := getHours date in
      let currentMinutes := getMinutes date in
      let amPm :=
        nth_error (getLocaleDayPeriods locale form width)
          (if (currentHours <? 12)%Z then 0 else 1) in
      if extended then
        let rules := getLocaleExtraDayPeriodRules locale in
        let dayPeriods := getLocaleExtraDayPeriods locale form width in
        match findIndex (ruleApplies currentHours currentMinutes) rules with
        | Some index => nth_error dayPeriods index
        | None => amPm
        end
      else amPm
  | Eras =>
      nth_error (getLocaleEraNames locale width)
        (if (getFullYear date <=? 0)%Z then 0 else 1)
  end.

End WithLocaleData.

(** Minutes since midnight. *)
Definition minuteOfDay (h m : Z) : Z := (60 * h + m)%Z.

End DateTranslation.

(** ** Named date formats: src/i18n/intl_helpers.ts *)

Module NamedDate.

Definition FULL : string := "full".
Definition MEDIUM : string := "medium".
Definition LONG : string := "long".
Definition SHORT : string := "short".

(** The options handed to [Intl.DateTimeFormat]. *)
Record DateTimeFormatOptions : Type := mkDateTimeFormatOptions
  { dateStyle : option string
  ; timeStyle : option string
  ; timeZone : option string }.

(** The [switch (format)]: the styles of a named format. *)
Definition formatObj (format : string) : option (option string * option string) :=
  if String.eqb format "shortDate" then Some (Some SHORT, None)
  else if String.eqb format "mediumDate" then Some (Some MEDIUM, None)
  else if String.eqb format "longDate" then Some (Some LONG, None)
  else if String.eqb format "fullDate" then Some (Some FULL, None)
  else if String.eqb format "shortTime" then Some (None, Some SHORT)
  else if String.eqb format "mediumTime" then Some (None, Some MEDIUM)
  else if String.eqb format "longTime" then Some (None, Some LONG)
  else if String.eqb format "fullTime" then Some (None, Some FULL)
  else if String.eqb format SHORT then Some (Some SHORT, Some SHORT)
  else if String.eqb format MEDIUM then Some (Some MEDIUM, Some MEDIUM)
  else if String.eqb format LONG then Some (Some LONG, Some LONG)
  else if String.eqb format FULL then Some (Some FULL, Some FULL)
  else None.

Section WithIntl.
Variable DateT : Type.
(** What [Intl.DateTimeFormat] throws, on a locale or a time zone it does
    not know. *)
Variable Thrown : Type.
(** [Intl.DateTimeFormat(locale, options).format(date)]: the string
    returned, or what was thrown. *)
Variable Intl_DateTimeFormat_format :
  string -> DateTimeFormatOptions -> DateT -> string + Thrown.

Definition getIntlNamedDate (date : DateT) (locale format : string)
    (timeZone : option string) : string + Thrown :=
  match formatObj format with
  | Some (dateStyle, timeStyle) =>
      (* Intl doesn't support empty string for timeZone *)
      let timeZone :=
        match timeZone with
        | Some EmptyString => None
        | other => other
        end in
      Intl_DateTimeFormat_format locale
        {| dateStyle := dateStyle; timeStyle := timeStyle; timeZone := timeZone |}
        date
  | None => inl EmptyString
  end.

End WithIntl.

(** The names [getIntlNamedDate] knows. *)
Definition namedFormats : list string :=
  ["shortDate"; "mediumDate"; "longDate"; "fullDate";
   "shortTime"; "mediumTime"; "longTime"; "fullTime";
   "short"; "medium"; "long"; "full"]%string.

End NamedDate.

(** ** The instruction for the image directive: unnamed/part_003 *)

Module OptimizedImage.

(** [value ? [name, value] : []]: an absent and an empty string are falsy. *)
Definition optional (name : string) (value : option string) : list string :=
  match value with
  | Some (String c rest) => [name; String c rest]
  | _ => []
  end.

Definition optimizedImage (path : string) (width height : option string)
  : list string :=
  ["ngSrc"%string; path] ++ optional "width" width ++ optional "height" height.

(** An attribute array read as name and value pairs. *)
Fixpoint pairs (l : list string) : list (string * string) :=
  match l with
  | name :: value :: rest => (name, value) :: pairs rest
  | _ => []
  end.

(** A string that is there and not empty. *)
Definition given (value : option string) : option string :=
  match value with
  | Some (String c rest) => Some (String c rest)
  | _ => None
  end.

End OptimizedImage.

(** ** Hydration features: unnamed/part_001 *)

Module Hydration.

Inductive HydrationFeatureKind : Type :=
| NoDomReuseFeature
| NoHttpTransferCache
| HttpTransferCacheOptions.

Definition HydrationFeatureKind_eq_dec (x y : HydrationFeatureKind)
  : {x = y} + {x <> y}.
Proof. decide equality. Defined.

(** A feature object: its kind and, for the transfer cache options, what
    [withHttpTransferCache] copied from its argument. *)
Record HydrationFeature : Type := mkFeature
  { kind : HydrationFeatureKind
  ; exclude : option (HttpRequest -> bool)
  ; disable : option bool }.

Definition withNoDomReuse : HydrationFeature :=
  {| kind := NoDomReuseFeature; exclude := None; disable := None |}.

Definition withNoHttpTransferCache : HydrationFeature :=
  {| kind := NoHttpTransferCache; exclude := None; disable := None |}.

(** [withHttpTransferCache(options)]: [{kind, ...options}]. *)
Definition withHttpTransferCache
    (options : option (option (HttpRequest -> bool) * option bool))
  : HydrationFeature :=
  match options with
  | Some (e, d) => {| kind := HttpTransferCacheOptions; exclude := e; disable := d |}
  | None => {| kind := HttpTransferCacheOptions; exclude := None; disable := None |}
  end.

(** What [makeEnvironmentProviders] is given, by origin:
    [provideZoneJsCompatibilityDetector()], [withDomHydration()] and
    [withHttpTransferCache({exclude})] of @angular/core and
    @angular/common/http. *)
Inductive Provider : Type :=
| ZoneJsCompatibilityDetector
| DomHydration
| HttpTransferCache (exclude : option (HttpRequest -> bool)).

Definition provideClientHydration (ngDevMode : option bool)
    (features : list HydrationFeature) : list Provider :=
  let hydrationCacheFeature :=
    find (fun f => if HydrationFeatureKind_eq_dec (kind f) HttpTransferCacheOptions
                   then true else false) features in
  let featuresKind :=
    Dedupe.new_Set HydrationFeatureKind_eq_dec (map kind features) in
  (match ngDevMode with Some true => [ZoneJsCompatibilityDetector] | _ => [] end)
  ++ (if Dedupe.mem HydrationFeatureKind_eq_dec NoDomReuseFeature featuresKind
      then [] else [DomHydration])
  ++ (if Dedupe.mem HydrationFeatureKind_eq_dec NoHttpTransferCache featuresKind
      then []
      else [HttpTransferCache
              match hydrationCacheFeature with
              | Some f => exclude f
              | None => None
              end]).

(** The same feature with another [disable]. *)
Definition set_disable (d : option bool) (f : HydrationFeature)
  : HydrationFeature :=
  {| kind := kind f; exclude := exclude f; disable := d |}.

Definition isTransferCache (p : Provider) : bool :=
  match p with
  | HttpTransferCache _ => true
  | _ => false
  end.

End Hydration.

(** ** Access to declarations of the file: unnamed/part_000 *)

Module ModuleScope.

(** Of the expressions of the output AST, the lexical reads, the variable
    reads, and all the others. *)
Inductive Expression : Type :=
| LexicalReadExpr (name : string)
| ReadVarExpr (name : string)
| OtherExpr (id : nat).

Record Declaration : Type := mkDeclaration
  { decl_name : string
  ; decl_type : string
  ; decl_module : string }.

Record UsedDeclaration : Type := mkUsed
  { used_name : string
  ; used_moduleName : string }.

(** Of a [ComponentCompilationJob], what [replaceAccess] reads and writes. *)
Record Job : Type := mkJob
  { inFileDeclarations : list Declaration
  ; usedDeclarations : list UsedDeclaration }.

Definition replaceAccess (expr : Expression) (job : Job) : Expression * Job :=
  match expr with
  | LexicalReadExpr name =>
      match find (fun decl => String.eqb (decl_name decl) name)
              (inFileDeclarations job) with
      | Some decl =>
          if String.eqb (decl_type decl) "var"
          then (ReadVarExpr name, job)
          else
            let exprName := ("local_" ++ name)%string in
            (ReadVarExpr exprName,
             {| inFileDeclarations := inFileDeclarations job
              ; usedDeclarations :=
                  usedDeclarations job
                  ++ [{| used_name := name; used_moduleName := decl_module decl |}] |})
      | None => (expr, job)
      end
  | _ => (expr, job)
  end.

Definition replaceGlobalThis (expr : Expression) (symbols : list string)
  : Expression :=
  match expr with
  | LexicalReadExpr name =>
      if existsb (String.eqb name) symbols then ReadVarExpr name else expr
  | _ => expr
  end.

End ModuleScope.

(** ** Names of months, days, day periods and eras: src/i18n/intl_helpers.ts *)

Module IntlDate.
Import DateTranslation.

Definition LONG : string := "long".
Definition SHORT : string := "short".
Definition NARROW : string := "narrow".
Definition NUMERIC : string := "numeric".

(** The options handed to [Intl.DateTimeFormat]; [None] is a property left
    out. *)
Record DateTimeFormatOptions : Type := mkDateTimeFormatOptions
  { month : option string
  ; day : option string
  ; weekday : option string
  ; dayPeriod : option string
  ; hour : option string
  ; hourCycle : option string
  ; era : option string }.

Definition noOptions : DateTimeFormatOptions :=
  {| month := None; day := None; weekday := None; dayPeriod := None
   ; hour := None; hourCycle := None; era := None |}.

Record IntlDateOptions : Type := mkIntlDateOptions
  { options : DateTimeFormatOptions
  ; extract : option string }.

Definition getMonth (width : TranslationWidth) (standalone : bool)
  : IntlDateOptions :=
  let format :=
    match width with
    | Short | Abbreviated => SHORT
    | Wide => LONG
    | Narrow => NARROW
    end in
  if standalone
  then {| options :=
            {| month := Some format; day := Some NUMERIC; weekday := None
             ; dayPeriod := None; hour := None; hourCycle := None; era := None |}
        ; extract := Some "month"%string |}
  else {| options :=
            {| month := Some format; day := None; weekday := None
             ; dayPeriod := None; hour := None; hourCycle := None; era := None |}
        ; extract := None |}.

Definition getWeekDay (width : TranslationWidth) (standalone : bool)
  : IntlDateOptions :=
  let format :=
    match width with
    | Narrow => NARROW
    | Short | Abbreviated => SHORT
    | Wide => LONG
    end in
  if standalone
  then {| options :=
            {| month := None; day := None; weekday := Some format
             ; dayPeriod := None; hour := None; hourCycle := None; era := None |}
        ; extract := None |}
  else {| options :=
            {| month := Some LONG; day := Some NUMERIC; weekday := Some format
             ; dayPeriod := None; hour := None; hourCycle := None; era := None |}
        ; extract := Some "weekday"%string |}.

Definition getDayPeriod (width : TranslationWidth) (extended : bool)
  : IntlDateOptions :=
  let format :=
    match width with
    | Short => SHORT
    | Wide => LONG
    | _ => NARROW
    end in
  if extended
  then {| options :=
            {| month := None; day := None; weekday := None
             ; dayPeriod := Some format; hour := None; hourCycle := None
             ; era := None |}
        ; extract := None |}
  else {| options :=
            {| month := None; day := None; weekday := None
             ; dayPeriod := None; hour := Some NUMERIC
             ; hourCycle := Some "h12"%string; era := None |}
        ; extract := Some "dayPeriod"%string |}.

Definition getEra (width : TranslationWidth) : IntlDateOptions :=
  let format :=
    match width with
    | Narrow | Short => NARROW
    | Abbreviated => SHORT
    | Wide => LONG
    end in
  {| options :=
       {| month := None; day := None; weekday := None
        ; dayPeriod := None; hour := None; hourCycle := None
        ; era := Some format |}
   ; extract := Some "era"%string |}.

(** [parts.find((part) => part.type === extract)!.value]: [None] when no
    part has the type, where reading [value] of [undefined] throws. *)
Definition extractIntlPart (parts : list NumberFormat.Part) (extract : string)
  : option string :=
  option_map NumberFormat.part_value
    (find (fun part => String.eqb (NumberFormat.part_type part) extract) parts).

Inductive Thrown : Type := RangeError | TypeError.

Section WithIntl.
Variable DateT : Type.

Record Formatter : Type := mkFormatter
  { format : DateT -> string
  ; formatToParts : DateT -> list NumberFormat.Part }.

(** [Intl.DateTimeFormat(locale, options)]; [None] when it throws a
    RangeError. *)
Variable Intl_DateTimeFormat : string -> DateTimeFormatOptions -> option Formatter.

Definition isStandalone (form : FormStyle) : bool :=
  match form with
  | Standalone => true
  | Format => false
  end.

Definition intlDateStrGetter (name : TranslationType) (width : TranslationWidth)
    (form : FormStyle) (extended : bool) (date : DateT) (locale : string)
  : string + Thrown :=
  let options :=
    match name with
    | Months => getMonth width (isStandalone form)
    | Days => getWeekDay width (isStandalone form)
    | DayPeriods => getDayPeriod width extended
    | Eras => getEra width
    end in
  match Intl_DateTimeFormat locale (IntlDate.options options) with
  | None => inr RangeError
  | Some formatDefinition =>
      match extract options with
      | Some extract =>
          match extractIntlPart (formatToParts formatDefinition date) extract with
          | Some value => inl value
          | None => inr TypeError
          end
      | None => inl (format formatDefinition date)
      end
  end.

End WithIntl.

End IntlDate.

(** ** The fetch backend: the second part of rxjs-interop/public_api.ts *)

Module PromiseFetchBackend.

(** [request.responseType] *)
Inductive ResponseType : Type := json | text | blob | arraybuffer.

(** Of the request, what [doRequest] reads after the call of [fetch]. *)
Record Request : Type := mkRequest
  { urlWithParams : string
  ; responseType : ResponseType }.

Definition LF : ascii := ascii_of_nat 10.

(** [s] without the prefix [p], if it starts with it. *)
Fixpoint dropPrefix (p s : string) : option string :=
  match p with
  | EmptyString => Some s
  | String c p' =>
      match s with
      | String d s' => if Ascii.eqb c d then dropPrefix p' s' else None
      | EmptyString => None
      end
  end.

(** [text.replace(XSSI_PREFIX, '')] for [/^\)\]\}',?\n/]: the comma is
    tried first, then the prefix without it. *)
Definition replace_XSSI_PREFIX (text : string) : string :=
  match dropPrefix ")]}'" text with
  | Some rest =>
      match dropPrefix (String "," (String LF EmptyString)) rest with
      | Some after => after
      | None =>
          match dropPrefix (String LF EmptyString) rest with
          | Some after => after
          | None => text
          end
      end
  | None => text
  end.

Section WithPlatform.
(** The contents of a [Uint8Array], what [JSON.parse] returns, what the
    platform throws, and the [Headers] of fetch. *)
Variable Bytes : Type.
Variable Json : Type.
Variable Err : Type.
Variable Headers : Type.
(** [new TextDecoder().decode(bytes)] *)
Variable TextDecoder_decode : Bytes -> string.
(** [JSON.parse(text)]: a value, or the SyntaxError thrown. *)
Variable JSON_parse : string -> Json + Err.
(** Whether a parsed value is truthy. *)
Variable truthy : Json -> bool.
(** [headers.get(name)]: [None] is [null]. *)
Variable Headers_get : Headers -> string -> option string.
(** Constants of ./request and ./response, which are not among the
    sources. *)
Variable X_REQUEST_URL_HEADER : string.
Variable CONTENT_TYPE_HEADER : string.
Variable HTTP_STATUS_CODE_OK : Z.
Variable toLocaleLowerCase : string -> string.

(** The [Response] of fetch: [hasBody] is whether [response.body] is a
    stream rather than [null], [arrayBuffer] how the promise of
    [response.arrayBuffer()] settles. *)
Record Response : Type := mkResponse
  { Response_url : string
  ; Response_headers : Headers
  ; Response_status : Z
  ; Response_statusText : string
  ; hasBody : bool
  ; arrayBuffer : Bytes + Err }.

(** What a failed [fetch] throws, with the properties read of it. *)
Record Failure : Type := mkFailure
  { thrown : Err
  ; failure_status : option Z
  ; failure_statusText : option string
  ; failure_headers : option Headers }.

Inductive Body : Type :=
| Null
| Parsed (value : Json)
| Text (s : string)
| BlobOf (binContent : Bytes) (type : string)
| ArrayBuffer (binContent : Bytes).

(** [body ? ... : ...] *)
Definition Body_truthy (body : Body) : bool :=
  match body with
  | Null => false
  | Parsed value => truthy value
  | Text s => negb (String.eqb s "")
  | BlobOf _ _ => true
  | ArrayBuffer _ => true
  end.

(** The argument of [new HttpResponse]. *)
Record HttpResponseInit : Type := mkHttpResponseInit
  { res_body : Body
  ; res_headers : Headers
  ; res_status : Z
  ; res_statusText : string
  ; res_url : string }.

Inductive ErrorCause : Type :=
| FetchFailed (error : Failure)
| BodyFailed (error : Err)
| Unsuccessful (body : Body).

(** The argument of [new HttpErrorResponse]. *)
Record HttpErrorResponseInit : Type := mkHttpErrorResponseInit
  { err_error : ErrorCause
  ; err_headers : option Headers
  ; err_status : Z
  ; err_statusText : option string
  ; err_url : string }.

Definition getResponseUrl (response : Response) : option string :=
  match Response_url response with
  | String c rest => Some (String c rest)
  | EmptyString =>
      let xRequestUrl := toLocaleLowerCase X_REQUEST_URL_HEADER in
      Headers_get (Response_headers response) xRequestUrl
  end.

Definition parseBody (request : Request) (binContent : Bytes)
    (contentType : string) : Body + Err :=
  match responseType request with
  | json =>
      let text := replace_XSSI_PREFIX (TextDecoder_decode binContent) in
      if String.eqb text ""
      then inl Null
      else match JSON_parse text with
           | inl value => inl (Parsed value)
           | inr error => inr error
           end
  | text => inl (Text (TextDecoder_decode binContent))
  | blob => inl (BlobOf binContent contentType)
  | arraybuffer => inl (ArrayBuffer binContent)
  end.

(** [doRequest(request)], given how the promise of [fetch] settles: what
    is returned or what is thrown. *)
Definition doRequest (request : Request) (fetched : Response + Failure)
  : HttpResponseInit + HttpErrorResponseInit :=
  match fetched with
  | inr error =>
      inr {| err_error := FetchFailed error
           ; err_headers := failure_headers error
           ; err_status :=
               match failure_status error with Some s => s | None => 0%Z end
           ; err_statusText := failure_statusText error
           ; err_url := urlWithParams request |}
  | inl response =>
      let headers := Response_headers response in
      let statusText := Response_statusText response in
      let url :=
        match getResponseUrl response with
        | Some u => u
        | None => urlWithParams request
        end in
      let status := Response_status response in
      let loaded : Body + Err :=
        if hasBody response then
          let contentType :=
            match Headers_get (Response_headers response) CONTENT_TYPE_HEADER with
            | Some c => c
            | None => EmptyString
            end in
          match arrayBuffer response with
          | inl responseArrayBuffer =>
              parseBody request responseArrayBuffer contentType
          | inr error => inr error
          end
        else inl Null in
      match loaded with
      | inr error =>
          inr {| err_error := BodyFailed error
               ; err_headers := Some (Response_headers response)
               ; err_status := Response_status response
               ; err_statusText := Some (Response_statusText response)
               ; err_url :=
                   match getResponseUrl response with
                   | Some u => u
                   | None => urlWithParams request
                   end |}
      | inl body =>
          (* Same behavior as the XhrBackend *)
          let status :=
            if (status =? 0)%Z
            then if Body_truthy body then HTTP_STATUS_CODE_OK else 0%Z
            else status in
          let ok := ((200 <=? status) && (status <? 300))%Z in
          if ok
          then inl {| res_body := body; res_headers := headers
                    ; res_status := status; res_statusText := statusText
                    ; res_url := url |}
          else inr {| err_error := Unsuccessful body
                    ; err_headers := Some headers
                    ; err_status := status
                    ; err_statusText := Some statusText
                    ; err_url := url |}
      end
  end.

End WithPlatform.

Arguments Null {Bytes Json}.
Arguments Parsed {Bytes Json} value.
Arguments Text {Bytes Json} s.
Arguments BlobOf {Bytes Json} binContent type.
Arguments ArrayBuffer {Bytes Json} binContent.
Arguments FetchFailed {Bytes Json Err Headers} error.
Arguments BodyFailed {Bytes Json Err Headers} error.
Arguments Unsuccessful {Bytes Json Err Headers} body.

(** [handle(request, onEvent)] as a backend of the dispatcher: [doRequest]
    is awaited and [onEvent] called with the response.  [doRequest] gives,
    for a request, the response it returns or what it throws. *)
Definition handle (doRequest : HttpRequest -> SingleShot.Settled HttpEvent)
  : SingleShot.HttpBackend2 :=
  fun request onEvent =>
    SingleShot.bind (fun w => (doRequest request, w))
      (fun response =>
         SingleShot.bind (SingleShot.call onEvent (SingleShot.Event response))
           (fun _ => SingleShot.ret SingleShot.Undefined)).

End PromiseFetchBackend.

(** ** A platform for the examples *)

Module IntlSamples.
Import NumberFormat.

(** A formatter that prints every amount as US$ 1.00. *)
Definition dollar : Formatter Z :=
  {| format := fun _ => "$1.00"%string
   ; formatToParts := fun _ =>
       [mkPart "currency" "$"; mkPart "integer" "1";
        mkPart "decimal" "."; mkPart "fraction" "00"]%string |}.

Definition Intl_NumberFormat (locale : string) (options : NumberFormatOptions)
  : option (Formatter Z) := Some dollar.

Definition Intl_supportedValuesOf : option (string -> list string) :=
  Some (fun _ => ["EUR"; "USD"]%string).

Definition below_1e21 (n : Z) : bool := (n <? 10 ^ 21)%Z.

Definition noTrim (s : string) : string := s.

(** A platform for the fetch backend: bytes are the text they decode to,
    every text parses as itself, and headers are a list of pairs. *)
Definition headerOf (headers : list (string * string)) (name : string)
  : option string :=
  option_map snd (find (fun h => String.eqb (fst h) name) headers).

Definition parseAsText (s : string) : string + string := inl s.

Definition nonEmpty (s : string) : bool := negb (String.eqb s "").

End IntlSamples.

(** * Properties *)

(** ** Insertion order of a [Set] *)

Section DedupeFacts.
Import Dedupe.
Variable A : Type.
Variable eq_dec : forall x y : A, {x = y} + {x <> y}.

Local Abbreviation mem := (mem eq_dec).
Local Abbreviation set_add := (set_add eq_dec).
Local Abbreviation new_Set := (new_Set eq_dec).

Lemma mem_true_iff x s : mem x s = true <-> In x s.
Proof. unfold mem. destruct (in_dec eq_dec x s); split; intros; congruence || auto. Qed.

Lemma mem_false_iff x s : mem x s = false <-> ~ In x s.
Proof. unfold mem. destruct (in_dec eq_dec x s); split; intros; congruence || auto. Qed.

Lemma set_add_In s x y : In y (set_add s x) <-> In y s \/ y = x.
Proof.
  unfold set_add. destruct (mem x s) eqn:E.
  - apply mem_true_iff in E. split; [auto|]. intros [H| ->]; assumption.
  - rewrite in_app_iff. simpl. intuition congruence.
Qed.

Lemma set_add_NoDup s x : NoDup s -> NoDup (set_add s x).
Proof.
  intros Hs. unfold set_add. destruct (mem x s) eqn:E; [assumption|].
  apply mem_false_iff in E.
  apply NoDup_app; [assumption| repeat constructor; simpl; tauto |].
  intros y Hy [<-|[]]. exact (E Hy).
Qed.

Lemma fold_set_add_In l : forall s y,
  In y (fold_left set_add l s) <-> In y s \/ In y l.
Proof.
  induction l as [|x l IH]; intros s y; simpl.
  - tauto.
  - rewrite IH, set_add_In. intuition congruence.
Qed.

Lemma fold_set_add_NoDup l : forall s, NoDup s -> NoDup (fold_left set_add l s).
Proof.
  induction l as [|x l IH]; intros s Hs; simpl; [assumption|].
  apply IH, set_add_NoDup, Hs.
Qed.

(** Values already in the set stay where they are: insertion only appends. *)
Lemma fold_set_add_prefix l : forall s,
  exists t, fold_left set_add l s = s ++ t.
Proof.
  induction l as [|x l IH]; intros s; simpl.
  - exists []. now rewrite app_nil_r.
  - destruct (IH (set_add s x)) as [t Ht]. rewrite Ht. unfold set_add.
    destruct (mem x s); [now exists t|].
    exists ([x] ++ t). now rewrite app_assoc.
Qed.

(** Insertion into a non-empty set, in terms of insertion into the empty
    one: what is already there is filtered out of the rest. *)
Lemma fold_set_add_filter l : forall s,
  fold_left set_add l s = s ++ filter (fun y => negb (mem y s)) (new_Set l).
Proof.
  unfold new_Set.
  induction l as [|x l IH] using rev_ind; intros s.
  - simpl. now rewrite app_nil_r.
  - rewrite !fold_left_app. simpl. rewrite (IH s).
    set (d := fold_left set_add l []).
    unfold set_add.
    destruct (mem x d) eqn:Ed.
    + assert (Hx : mem x (s ++ filter (fun y => negb (mem y s)) d) = true).
      { apply mem_true_iff. apply mem_true_iff in Ed.
        destruct (mem x s) eqn:Es.
        - apply in_or_app. left. now apply mem_true_iff.
        - apply in_or_app. right. apply filter_In. split; [assumption|].
          now rewrite Es. }
      now rewrite Hx.
    + rewrite filter_app. simpl.
      destruct (mem x s) eqn:Es; simpl.
      * assert (Hx : mem x (s ++ filter (fun y => negb (mem y s)) d) = true).
        { apply mem_true_iff, in_or_app. left. now apply mem_true_iff. }
        rewrite Hx. now rewrite app_nil_r.
      * assert (Hx : mem x (s ++ filter (fun y => negb (mem y s)) d) = false).
        { apply mem_false_iff. intros H. apply in_app_or in H as [H|H].
          - apply mem_false_iff in Es. auto.
          - apply filter_In in H as [H _]. apply mem_false_iff in Ed. auto. }
        rewrite Hx. now rewrite app_assoc.
Qed.

Lemma new_Set_In l y : In y (new_Set l) <-> In y l.
Proof. unfold new_Set. rewrite fold_set_add_In. simpl. tauto. Qed.

Lemma new_Set_NoDup l : NoDup (new_Set l).
Proof. apply fold_set_add_NoDup. constructor. Qed.

Lemma new_Set_cons x l :
  new_Set (x :: l) = x :: filter (fun y => negb (mem y [x])) (new_Set l).
Proof.
  unfold new_Set at 1. simpl. unfold set_add at 2. simpl.
  now rewrite fold_set_add_filter.
Qed.

Lemma new_Set_app l1 l2 :
  new_Set (l1 ++ l2)
  = new_Set l1 ++ filter (fun y => negb (mem y (new_Set l1))) (new_Set l2).
Proof.
  unfold new_Set at 1. rewrite fold_left_app.
  now rewrite fold_set_add_filter.
Qed.

Lemma new_Set_NoDup_id l : NoDup l -> new_Set l = l.
Proof.
  induction 1 as [|x l Hx Hl IH].
  - reflexivity.
  - rewrite new_Set_cons, IH. f_equal.
    apply forallb_filter_id. apply forallb_forall. intros y Hy.
    apply negb_true_iff, mem_false_iff. simpl. intros [->|[]]. auto.
Qed.

Lemma NoDup_count_occ_1 (l : list A) x :
  NoDup l -> In x l -> count_occ eq_dec l x = 1.
Proof.
  intros Hnd Hin.
  pose proof (proj1 (NoDup_count_occ eq_dec l) Hnd x) as Hle.
  pose proof (proj1 (count_occ_In eq_dec l x) Hin) as Hgt. lia.
Qed.

(** Where a value lands: right after the distinct values that came before
    its first occurrence. *)
Lemma new_Set_first_occurrence p e q :
  ~ In e p ->
  new_Set (p ++ e :: q)
  = new_Set p ++ e ::
      filter (fun y => negb (mem y (new_Set p)))
        (filter (fun y => negb (mem y [e])) (new_Set q)).
Proof.
  intros He. rewrite new_Set_app, new_Set_cons. simpl.
  assert (H : mem e (new_Set p) = false).
  { apply mem_false_iff. rewrite new_Set_In. exact He. }
  now rewrite H.
Qed.

End DedupeFacts.

(** ** The stream variant *)

Section StreamFacts.
Import RxjsInterop.
Variable heap : Ref -> HttpInterceptorFn.

(** The chain of [r :: rest] runs [r] with the chain of [rest] as its
    continuation: entry 0 is outermost. *)
Lemma reduceRight_chain_cons injector r rest :
  reduceRight_chain heap injector (r :: rest)
  = chainedInterceptorFn (reduceRight_chain heap injector rest) (heap r) injector.
Proof. reflexivity. Qed.

Lemma reduceRight_chain_nil injector req finalHandlerFn :
  reduceRight_chain heap injector [] req finalHandlerFn = finalHandlerFn req.
Proof. reflexivity. Qed.

(** What [handle] returns is the chain applied to the request and the
    backend; the chain is the cached one, or the one built from the lists. *)
Lemma handle_source this req tasks :
  source (fst (fst (handle heap this req tasks)))
  = match chain this with
    | Some c => c
    | None =>
        reduceRight_chain heap (injector this)
          (Dedupe.dedupedInterceptorFns Nat.eq_dec
             (HTTP_INTERCEPTOR_FNS (injector this))
             (HTTP_ROOT_INTERCEPTOR_FNS (injector this)))
    end req (backend this).
Proof.
  unfold handle.
  destruct (chain this) eqn:Hc; simpl;
    destruct (contributeToStability this); reflexivity.
Qed.

Lemma handle_chain this req tasks :
  chain (snd (fst (handle heap this req tasks)))
  = Some match chain this with
         | Some c => c
         | None =>
             reduceRight_chain heap (injector this)
               (Dedupe.dedupedInterceptorFns Nat.eq_dec
                  (HTTP_INTERCEPTOR_FNS (injector this))
                  (HTTP_ROOT_INTERCEPTOR_FNS (injector this)))
         end.
Proof.
  unfold handle.
  destruct (chain this) eqn:Hc; simpl;
    destruct (contributeToStability this); simpl; auto.
Qed.

Lemma handle_keeps this req tasks :
  let this' := snd (fst (handle heap this req tasks)) in
  backend this' = backend this
  /\ injector this' = injector this
  /\ contributeToStability this' = contributeToStability this.
Proof.
  unfold handle.
  destruct (chain this) eqn:Hc; simpl;
    destruct (contributeToStability this) eqn:Hf; simpl; rewrite ?Hc, ?Hf; auto.
Qed.

(** A stopped subscriber ignores whatever the entry emits afterwards. *)
Lemma eventInterceptor_callback_stopped evs : forall s,
  state s <> Open ->
  fold_left
    (fun k event =>
       let subscriber := Subscriber_next event k in
       if isHttpResponse event then Subscriber_complete subscriber else subscriber)
    evs s
  = s.
Proof.
  induction evs as [|e evs IH]; intros s Hs; simpl; [reflexivity|].
  assert (Hn : Subscriber_next e s = s).
  { unfold Subscriber_next. destruct (state s); congruence. }
  assert (Hc : Subscriber_complete s = s).
  { unfold Subscriber_complete. destruct (state s); congruence. }
  rewrite Hn, Hc. destruct (isHttpResponse e); now apply IH.
Qed.

(** The callback handed to a callback-based entry, run over the events the
    entry emits. *)
Lemma eventInterceptor_callback_fold evs : forall d,
  fold_left
    (fun k event =>
       let subscriber := Subscriber_next event k in
       if isHttpResponse event then Subscriber_complete subscriber else subscriber)
    evs {| delivered := d; state := Open |}
  = {| delivered := d ++ upToResponse evs
     ; state := if existsb isHttpResponse evs then Completed else Open |}.
Proof.
  induction evs as [|e evs IH]; intros d.
  - simpl. now rewrite app_nil_r.
  - cbn [fold_left upToResponse existsb].
    destruct (isHttpResponse e) eqn:He.
    + cbn. rewrite eventInterceptor_callback_stopped; [reflexivity|].
      cbn. discriminate.
    + cbn. rewrite IH. now rewrite <- app_assoc.
Qed.

Lemma chainedInterceptorFn_emitting chainTailFn evs injector req finalHandlerFn :
  chainedInterceptorFn chainTailFn (emitting evs) injector req finalHandlerFn
  = let emitted := evs req (fun downstreamRequest =>
                              chainTailFn downstreamRequest finalHandlerFn) in
    {| events := upToResponse emitted
     ; ending := if existsb isHttpResponse emitted then Completed else Open |}.
Proof.
  unfold chainedInterceptorFn, emitting, new_Observable, runInInjectionContext.
  cbv zeta. now rewrite eventInterceptor_callback_fold.
Qed.

(** An entry that always delegates is a request transformer on the way in
    and a stream transformer on the way out. *)
Lemma chainedInterceptorFn_delegates interceptorFn onRequest onResponse
    chainTailFn injector req finalHandlerFn :
  always_delegates interceptorFn onRequest onResponse ->
  chainedInterceptorFn chainTailFn interceptorFn injector req finalHandlerFn
  = onResponse (chainTailFn (onRequest req) finalHandlerFn).
Proof.
  intros [-> | (onEvents & -> & Hresp)].
  - reflexivity.
  - unfold delegatingEvent. rewrite chainedInterceptorFn_emitting.
    cbv zeta. now rewrite Hresp.
Qed.

(** Delegating entries: the request is transformed left to right on the way
    in, the stream right to left on the way out. *)
Lemma reduceRight_chain_delegating injector onRequest onResponse
    (Hheap : forall r, always_delegates (heap r) (onRequest r) (onResponse r)) :
  forall d req finalHandlerFn,
    reduceRight_chain heap injector d req finalHandlerFn
    = fold_right (fun r o => onResponse r o)
        (finalHandlerFn (fold_left (fun q r => onRequest r q) d req)) d.
Proof.
  induction d as [|r d IH]; intros req finalHandlerFn.
  - reflexivity.
  - rewrite reduceRight_chain_cons.
    rewrite (chainedInterceptorFn_delegates _ _ _ _ (Hheap r)).
    cbn [fold_right fold_left]. now rewrite IH.
Qed.

(** An entry that never calls [next]: the chain does not depend on what
    comes after it. *)
Lemma chainedInterceptorFn_never_calls_next interceptorFn tail1 tail2 injector
    req final1 final2 :
  never_calls_next interceptorFn ->
  chainedInterceptorFn tail1 interceptorFn injector req final1
  = chainedInterceptorFn tail2 interceptorFn injector req final2.
Proof.
  destruct interceptorFn as [fn|ei]; simpl; intros H.
  - unfold runInInjectionContext. apply H.
  - unfold new_Observable, runInInjectionContext.
    now rewrite (H req _ (fun downstreamRequest => tail2 downstreamRequest final2)).
Qed.

End StreamFacts.

Section StreamClaims.
Import RxjsInterop.
Variable heap : Ref -> HttpInterceptorFn.

(** C1. A chain built from the entries [a; b; c], each of which always calls
    its continuation, whether it is a function of [(req, next)] or an object
    with an [eventInterceptor]: the backend is handed the request as changed
    by [a], then [b], then [c], and what it returns goes back through [c],
    then [b], then [a].  More generally the fold makes the first entry the
    outermost: for any entry list the request is folded left to right and
    the stream right to left. *)
Theorem C1_order_of_interception
    (onRequest : Ref -> HttpRequest -> HttpRequest)
    (onResponse : Ref -> Observable -> Observable)
    (this : HttpInterceptorHandler) (req : HttpRequest) (tasks : PendingTasks)
    (a b c : Ref)
    (Hheap : forall r, always_delegates (heap r) (onRequest r) (onResponse r))
    (Hunbuilt : chain this = None)
    (Hentries : HTTP_INTERCEPTOR_FNS (injector this)
                ++ HTTP_ROOT_INTERCEPTOR_FNS (injector this) = [a; b; c])
    (Hdistinct : NoDup [a; b; c]) :
  source (fst (fst (handle heap this req tasks)))
  = onResponse a (onResponse b (onResponse c
      (backend this (onRequest c (onRequest b (onRequest a req))))))
  /\ forall d r finalHandlerFn,
       reduceRight_chain heap (injector this) d r finalHandlerFn
       = fold_right (fun x o => onResponse x o)
           (finalHandlerFn (fold_left (fun q x => onRequest x q) d r)) d.
Proof.
  split.
  - rewrite handle_source, Hunbuilt.
    unfold Dedupe.dedupedInterceptorFns. unfold Ref in *.
    rewrite Hentries, (new_Set_NoDup_id Nat.eq_dec Hdistinct).
    now rewrite (@reduceRight_chain_delegating heap (injector this)
                   onRequest onResponse Hheap).
  - intros d r finalHandlerFn.
    now apply reduceRight_chain_delegating.
Qed.

(** C8. A single callback-based entry that emits [Sent] and then forwards
    what its continuation produces, over a backend that answers with one
    response: the caller is given [Sent], then the response, and the stream
    is complete.  For any callback-based entry, the events it emits are
    passed on in order up to the first response, which closes the stream. *)
Theorem C8_sent_then_response
    (this : HttpInterceptorHandler) (req : HttpRequest) (tasks : PendingTasks)
    (r : Ref) (status : Z) (body : string)
    (Hunbuilt : chain this = None)
    (Hentries : Dedupe.dedupedInterceptorFns Nat.eq_dec
                  (HTTP_INTERCEPTOR_FNS (injector this))
                  (HTTP_ROOT_INTERCEPTOR_FNS (injector this)) = [r])
    (Hentry : heap r = sentThenForward)
    (Hbackend : backend this req = of_ [Response status body]) :
  source (fst (fst (handle heap this req tasks)))
  = {| events := [Sent; Response status body]; ending := Completed |}
  /\ forall chainTailFn evs injector req' finalHandlerFn,
       chainedInterceptorFn chainTailFn (emitting evs) injector req' finalHandlerFn
       = let emitted := evs req' (fun downstreamRequest =>
                                    chainTailFn downstreamRequest finalHandlerFn) in
         {| events := upToResponse emitted
          ; ending := if existsb isHttpResponse emitted then Completed else Open |}.
Proof.
  split.
  - rewrite handle_source, Hunbuilt, Hentries, reduceRight_chain_cons, Hentry.
    unfold chainedInterceptorFn, sentThenForward, new_Observable,
      runInInjectionContext, subscribe_with.
    rewrite reduceRight_chain_nil, Hbackend. reflexivity.
  - intros. apply chainedInterceptorFn_emitting.
Qed.

(** The short circuit in the stream variant.  The chain [a; b; c] runs [a]
    with the chain of [b; c] as its continuation; when [b] never calls its
    own continuation, what that continuation returns for any request is
    what [b] produces by itself, whatever [c] and the backend are. *)
Lemma stream_short_circuit injector (a b c : Ref) req finalHandlerFn :
  never_calls_next (heap b) ->
  let chainOfBC :=
    chainedInterceptorFn (reduceRight_chain heap injector [c]) (heap b) injector in
  reduceRight_chain heap injector [a; b; c] req finalHandlerFn
  = chainedInterceptorFn chainOfBC (heap a) injector req finalHandlerFn
  /\ forall downstreamRequest anyTail anyHandler,
       chainOfBC downstreamRequest finalHandlerFn
       = chainedInterceptorFn anyTail (heap b) injector downstreamRequest anyHandler.
Proof.
  intros Hb chainOfBC. split; [reflexivity|].
  intros. now apply chainedInterceptorFn_never_calls_next.
Qed.

(** Every call an entry makes to its continuation runs the same rest of the
    chain: the continuation of the entry at the head of [r :: rest] is the
    chain of [rest], a function of the request alone. *)
Lemma stream_continuation_is_suffix injector (r : Ref) rest req finalHandlerFn :
  reduceRight_chain heap injector (r :: rest) req finalHandlerFn
  = match heap r with
    | ObservableInterceptorFn fn =>
        fn req (fun downstreamRequest =>
                  reduceRight_chain heap injector rest downstreamRequest finalHandlerFn)
    | EventInterceptor eventInterceptor =>
        new_Observable
          (eventInterceptor req
             (fun downstreamRequest =>
                reduceRight_chain heap injector rest downstreamRequest finalHandlerFn)
             Subscriber
             (fun event subscriber =>
                let subscriber := Subscriber_next event subscriber in
                if isHttpResponse event
                then Subscriber_complete subscriber
                else subscriber))
    end.
Proof.
  rewrite reduceRight_chain_cons. unfold chainedInterceptorFn.
  destruct (heap r); reflexivity.
Qed.

End StreamClaims.

(** C1 on three entries that stamp the request and the stream: the backend
    counts three headers, the stamps on the stream read c, b, a. *)
Lemma C1_order_of_interception_witness :
  RxjsInterop.source
    (fst (fst (RxjsInterop.handle Samples.Stream.stamping
                 (Samples.Stream.handler [0; 1] [2] Samples.Stream.countingBackend)
                 (Samples.GET "/api") Samples.noTasks)))
  = {| RxjsInterop.events := [Response 3 "/api"; User "c"; User "b"; User "a"]
     ; RxjsInterop.ending := RxjsInterop.Completed |}.
Proof.
  assert (Hdistinct : NoDup [0; 1; 2]).
  { repeat constructor; simpl; intuition discriminate. }
  destruct (@C1_order_of_interception Samples.Stream.stamping
              Samples.Stream.stampRequest Samples.Stream.stampResponse
              (Samples.Stream.handler [0; 1] [2] Samples.Stream.countingBackend)
              (Samples.GET "/api") Samples.noTasks 0 1 2
              (fun r => or_introl eq_refl) eq_refl eq_refl Hdistinct) as [H _].
  rewrite H. reflexivity.
Defined.

(** C8 with the entry registered in both lists. *)
Lemma C8_sent_then_response_witness :
  RxjsInterop.source
    (fst (fst (RxjsInterop.handle (fun _ => RxjsInterop.sentThenForward)
                 (Samples.Stream.handler [5] [5] Samples.Stream.okBackend)
                 (Samples.GET "/api") Samples.noTasks)))
  = {| RxjsInterop.events := [Sent; Response 200 "/api"]
     ; RxjsInterop.ending := RxjsInterop.Completed |}.
Proof.
  destruct (@C8_sent_then_response (fun _ => RxjsInterop.sentThenForward)
              (Samples.Stream.handler [5] [5] Samples.Stream.okBackend)
              (Samples.GET "/api") Samples.noTasks 5 200 "/api"
              eq_refl eq_refl eq_refl eq_refl) as [H _].
  exact H.
Defined.

(** ** The single-shot variant *)

Section SingleShotFacts.
Import SingleShot.
Variable heap : Ref -> HttpInterceptorFn.
Variable this : HttpInterceptorHandler.
Variable d : list Ref.

Lemma array_get_Some (A : Type) (l : list A) i x :
  array_get l i = Some x ->
  (0 <= i < Z.of_nat (length l))%Z /\ nth_error l (Z.to_nat i) = Some x.
Proof.
  unfold array_get. destruct (i <? 0)%Z eqn:E; [discriminate|].
  intros H. apply Z.ltb_ge in E. split; [|exact H].
  assert (Hlt : Z.to_nat i < length l).
  { apply nth_error_Some. congruence. }
  lia.
Qed.

Lemma array_get_app (A : Type) (pre suf : list A) x :
  array_get (pre ++ x :: suf) (Z.of_nat (length pre)) = Some x.
Proof.
  unfold array_get.
  destruct (Z.of_nat (length pre) <? 0)%Z eqn:E; [apply Z.ltb_lt in E; lia|].
  rewrite Nat2Z.id, nth_error_app2, Nat.sub_diag; [reflexivity|lia].
Qed.

(** The cursor is below the entry count: the entry at the cursor is run,
    with [next] as its continuation and the caller's [onEvent]. *)
Lemma next_dispatches_entry fuel req onEvent w r :
  array_get d (index w + 1) = Some r ->
  next heap this d (S fuel) req onEvent w
  = match heap r with
    | ObservableInterceptorFn fn =>
        (response <- fn req (fun q => next heap this d fuel q None) ;;
         call onEvent response ;;;
         ret Undefined) (set_index (index w + 1) w)
    | EventInterceptor eventInterceptor =>
        eventInterceptor req (fun q => next heap this d fuel q None) onEvent
          (set_index (index w + 1) w)
    end.
Proof.
  intros Hr. pose proof (array_get_Some _ _ Hr) as [Hi _].
  cbn [next]. cbn [index set_index].
  destruct (index w + 1 <? Z.of_nat (length d))%Z eqn:E;
    [|apply Z.ltb_ge in E; lia].
  rewrite Hr. destruct (heap r); reflexivity.
Qed.

(** The cursor has reached the entry count: the backend is called with the
    request and callback at hand. *)
Lemma next_reaches_backend fuel req onEvent w :
  (Z.of_nat (length d) <= index w + 1)%Z ->
  next heap this d fuel req onEvent w
  = backend this req onEvent (set_index (index w + 1) w).
Proof.
  intros Hi.
  destruct fuel; cbn [next]; cbn [index set_index];
    (destruct (index w + 1 <? Z.of_nat (length d))%Z eqn:E;
     [apply Z.ltb_lt in E; lia | reflexivity]).
Qed.

(** The promise returned by [next] is fulfilled with [undefined] when the
    stage reached is a next-based entry, and with what the stage returned
    when it is a callback-based entry or the backend.  When the backend
    returns nothing, and every callback-based entry returns nothing as long
    as its continuation does, so does [next]. *)
Lemma next_returns_nothing
    (Hentries : forall r eventInterceptor next' q oe,
       In r d -> heap r = EventInterceptor eventInterceptor ->
       (forall q', returns_nothing (next' q')) ->
       returns_nothing (eventInterceptor q next' oe))
    (Hbackend : forall q oe, returns_nothing (backend this q oe)) :
  forall fuel req onEvent, returns_nothing (next heap this d fuel req onEvent).
Proof.
  induction fuel as [|fuel IH]; intros req onEvent w v w';
    cbn [next]; cbn [index set_index];
    destruct (index w + 1 <? Z.of_nat (length d))%Z.
  - discriminate.
  - apply Hbackend.
  - destruct (array_get d (index w + 1)) as [r|] eqn:Hr; [|discriminate].
    apply array_get_Some in Hr as [_ Hr]. apply nth_error_In in Hr.
    destruct (heap r) as [fn|ei] eqn:Hheap.
    + unfold bind, ret.
      destruct (fn req _ _) as [[x|?] w1]; [|discriminate].
      destruct (call onEvent x w1) as [[?|?] ?]; [|discriminate].
      intros H. now inversion H.
    + apply (Hentries r ei _ req onEvent Hr Hheap).
      intros q'. apply IH.
  - apply Hbackend.
Qed.

(** Reached without a callback, a next-based entry makes the promise
    reject: either the entry fails, or its result is passed to [undefined]. *)
Lemma next_without_callback_rejects fuel req w r fn :
  array_get d (index w + 1) = Some r ->
  heap r = ObservableInterceptorFn fn ->
  exists e, fst (next heap this d (S fuel) req None w) = Rejected e.
Proof.
  intros Hr Hfn. rewrite (next_dispatches_entry _ _ _ _ Hr), Hfn.
  unfold bind, ret, call, throw.
  destruct (fn req _ _) as [[v|e] w1]; cbn; eauto.
Qed.

(** A run through pass-through entries: from the cursor on, each entry is
    run in turn on the request as changed so far, then the backend. *)
Lemma next_passThroughEvent_run (f : Ref -> HttpRequest -> HttpRequest)
    (Hheap : forall r, In r d -> heap r = passThroughEvent r (f r)) :
  forall suf pre req onEvent w fuel,
    d = pre ++ suf ->
    (index w + 1 = Z.of_nat (length pre))%Z ->
    length suf <= fuel ->
    next heap this d fuel req onEvent w
    = backend this (fold_left (fun q r => f r q) suf req)
        (match suf with [] => onEvent | _ => None end)
        {| index := Z.of_nat (length d)
         ; trace := trace w ++ interceptions f suf req
         ; promises := promises w
         ; pendingTasks := pendingTasks w |}.
Proof.
  induction suf as [|r suf IH]; intros pre req onEvent w fuel Hd Hi Hfuel.
  - rewrite app_nil_r in Hd. subst pre.
    rewrite next_reaches_backend by lia.
    cbn [fold_left interceptions]. rewrite app_nil_r.
    unfold set_index. now rewrite Hi.
  - destruct fuel as [|fuel]; [simpl in Hfuel; lia|].
    assert (Hr : array_get d (index w + 1) = Some r).
    { rewrite Hi, Hd. apply array_get_app. }
    rewrite (next_dispatches_entry _ _ _ _ Hr).
    rewrite Hheap by (rewrite Hd; apply in_or_app; right; now left).
    unfold passThroughEvent. cbn [fold_left interceptions].
    unfold bind at 1. unfold log at 1.
    rewrite (IH (pre ++ [r]) (f r req) None _ fuel).
    + cbn [index trace promises pendingTasks add_trace set_index].
      rewrite <- app_assoc. cbn [app].
      assert (Hnone : match suf with [] => @None Callback | _ :: _ => None end = None)
        by (destruct suf; reflexivity).
      now rewrite Hnone.
    + rewrite Hd, <- app_assoc. reflexivity.
    + cbn [index add_trace set_index]. rewrite length_app. cbn [length]. lia.
    + simpl in Hfuel. lia.
Qed.

End SingleShotFacts.

Section SingleShotClaims.
Import SingleShot.
Variable heap : Ref -> HttpInterceptorFn.
Variable this : HttpInterceptorHandler.

(** C6. [handle] starts the cursor at -1 and runs [next]; every call of
    [next] first moves the cursor forward; if the cursor is then below the
    entry count the entry at the cursor is run, otherwise the backend is
    called with the request at hand.  Over entries that pass the request on,
    this is a fold: the entries run in list order, each on the request as
    changed so far, and the backend gets the last request when the cursor
    equals the entry count. *)
Theorem C6_cursor_fold (request : HttpRequest) (onEvent : Callback) (w : World) :
  let d := Dedupe.dedupedInterceptorFns Nat.eq_dec
             (HTTP_INTERCEPTOR_FNS (injector this))
             (HTTP_ROOT_INTERCEPTOR_FNS (injector this)) in
  handle heap this request onEvent w
  = (next heap this d (length d) request (Some (fun event => onEvent event)) ;;;
     ret tt) (set_index (-1) w)
  /\ (forall fuel req oe w' r,
        array_get d (index w' + 1) = Some r ->
        next heap this d (S fuel) req oe w'
        = match heap r with
          | ObservableInterceptorFn fn =>
              (response <- fn req (fun q => next heap this d fuel q None) ;;
               call oe response ;;;
               ret Undefined) (set_index (index w' + 1) w')
          | EventInterceptor eventInterceptor =>
              eventInterceptor req (fun q => next heap this d fuel q None) oe
                (set_index (index w' + 1) w')
          end)
  /\ (forall fuel req oe w',
        (Z.of_nat (length d) <= index w' + 1)%Z ->
        next heap this d fuel req oe w'
        = backend this req oe (set_index (index w' + 1) w'))
  /\ (forall f : Ref -> HttpRequest -> HttpRequest,
        (forall r, In r d -> heap r = passThroughEvent r (f r)) ->
        handle heap this request onEvent w
        = (backend this (fold_left (fun q r => f r q) d request)
             (match d with
              | [] => Some (fun event => onEvent event)
              | _ => None
              end) ;;;
           ret tt)
            {| index := Z.of_nat (length d)
             ; trace := trace w ++ interceptions f d request
             ; promises := promises w
             ; pendingTasks := pendingTasks w |}).
Proof.
  intros d. split; [reflexivity|]. split; [|split].
  - intros. now apply next_dispatches_entry.
  - intros. now apply next_reaches_backend.
  - intros f Hheap. unfold handle. fold d.
    unfold bind at 1.
    rewrite (@next_passThroughEvent_run heap this d f Hheap d [] request _
               (set_index (-1) w) (length d) eq_refl eq_refl (le_n _)).
    cbn [index trace promises pendingTasks set_index].
    unfold bind, ret. reflexivity.
Qed.

(** C9, as the code has it. A stage reached through the continuation, an
    entry or the backend, is given no callback, and hands the same
    continuation on.  The promise the continuation returns is settled by
    what the stage reached returns, not by what it delivers.  When the stage
    is a next-based entry the promise is rejected.  When it is a
    callback-based entry or the backend, the promise is the one the stage
    returned: fulfilled with [undefined] for stages that return nothing,
    and rejected with a TypeError as soon as the backend has an event to
    deliver. *)
Theorem C9_continuation_without_callback (d : list Ref) (fuel : nat)
    (req : HttpRequest) (w : World) :
  (forall r,
     array_get d (index w + 1) = Some r ->
     next heap this d (S fuel) req None w
     = match heap r with
       | ObservableInterceptorFn fn =>
           (response <- fn req (fun q => next heap this d fuel q None) ;;
            call None response ;;;
            ret Undefined) (set_index (index w + 1) w)
       | EventInterceptor eventInterceptor =>
           eventInterceptor req (fun q => next heap this d fuel q None) None
             (set_index (index w + 1) w)
       end)
  /\ ((Z.of_nat (length d) <= index w + 1)%Z ->
      next heap this d fuel req None w
      = backend this req None (set_index (index w + 1) w))
  /\ (forall r fn,
        array_get d (index w + 1) = Some r ->
        heap r = ObservableInterceptorFn fn ->
        exists e, fst (next heap this d (S fuel) req None w) = Rejected e)
  /\ ((forall r eventInterceptor next' q oe,
         In r d -> heap r = EventInterceptor eventInterceptor ->
         (forall q', returns_nothing (next' q')) ->
         returns_nothing (eventInterceptor q next' oe)) ->
      (forall q oe, returns_nothing (backend this q oe)) ->
      forall v w',
        next heap this d fuel req None w = (Fulfilled v, w') -> v = Undefined)
  /\ (forall v vs outcome,
        (Z.of_nat (length d) <= index w + 1)%Z ->
        backend this = scriptedBackend (v :: vs) outcome ->
        fst (next heap this d fuel req None w)
        = Rejected (TypeError "onEvent is not a function")).
Proof.
  split; [|split; [|split; [|split]]].
  - intros. now apply next_dispatches_entry.
  - intros. now apply next_reaches_backend.
  - intros r fn Hr Hfn. exact (next_without_callback_rejects _ _ _ _ _ _ Hr Hfn).
  - intros Hentries Hbackend v w'.
    now apply next_returns_nothing.
  - intros v vs outcome Hi Hbackend.
    rewrite next_reaches_backend by exact Hi.
    rewrite Hbackend. reflexivity.
Qed.

End SingleShotClaims.

(** C6 on three forwarding entries, one of them registered twice: the
    cursor ends at 3, the entries ran in order, then the backend. *)
Lemma C6_cursor_fold_witness :
  let this := Samples.Promise.handler [0; 1] [1; 2] Samples.Promise.silentBackend in
  let rq := Samples.GET "/a" in
  SingleShot.handle Samples.Promise.forwarding this rq
    SingleShot.recording SingleShot.emptyWorld
  = (SingleShot.Fulfilled tt,
     {| SingleShot.index := 3
      ; SingleShot.trace :=
          [SingleShot.Intercepted 0 rq; SingleShot.Intercepted 1 rq;
           SingleShot.Intercepted 2 rq; SingleShot.BackendCalled rq false]
      ; SingleShot.promises := []
      ; SingleShot.pendingTasks := Samples.noTasks |})
  /\ fst (SingleShot.next Samples.Promise.forwarding this [0; 1; 2] 1 rq None
            (SingleShot.set_index 1 SingleShot.emptyWorld))
     = SingleShot.Fulfilled SingleShot.Undefined
  /\ fst (SingleShot.next Samples.Promise.forwarding this [0; 1; 2] 0 rq None
            (SingleShot.set_index 2 SingleShot.emptyWorld))
     = SingleShot.Fulfilled SingleShot.Undefined.
Proof.
  intros this rq.
  destruct (@C6_cursor_fold Samples.Promise.forwarding this rq
              SingleShot.recording SingleShot.emptyWorld)
    as (_ & Hentry & Hbackend & Hfold).
  split; [|split].
  - rewrite (Hfold (fun _ req => req) (fun r _ => eq_refl)). reflexivity.
  - change (Dedupe.dedupedInterceptorFns Nat.eq_dec
              (HTTP_INTERCEPTOR_FNS (SingleShot.injector this))
              (HTTP_ROOT_INTERCEPTOR_FNS (SingleShot.injector this)))
      with [0; 1; 2] in Hentry.
    rewrite (Hentry 0 rq None (SingleShot.set_index 1 SingleShot.emptyWorld) 2 eq_refl).
    reflexivity.
  - change (Dedupe.dedupedInterceptorFns Nat.eq_dec
              (HTTP_INTERCEPTOR_FNS (SingleShot.injector this))
              (HTTP_ROOT_INTERCEPTOR_FNS (SingleShot.injector this)))
      with [0; 1; 2] in Hbackend.
    rewrite (Hbackend 0 rq None (SingleShot.set_index 2 SingleShot.emptyWorld));
      [reflexivity | simpl; lia].
Defined.

(** C9 on the chain [a; b] of two next-based entries: [b], reached through
    [a]'s call of the continuation, has no callback to pass its answer to;
    and on the backend reached in the same way: the one that delivers a
    response is rejected, the one that delivers nothing gives
    [undefined]. *)
Lemma C9_continuation_without_callback_witness :
  let this := Samples.Promise.handler [0; 1] [] Samples.Promise.okBackend in
  let silent := Samples.Promise.handler [0; 1] [] Samples.Promise.silentBackend in
  let rq := Samples.GET "/a" in
  (exists e,
     fst (SingleShot.next Samples.Promise.answering this [0; 1] 1 rq None
            (SingleShot.set_index 0 SingleShot.emptyWorld))
     = SingleShot.Rejected e)
  /\ fst (SingleShot.next Samples.Promise.answering this [0; 1] 0 rq None
            (SingleShot.set_index 1 SingleShot.emptyWorld))
     = SingleShot.Rejected (SingleShot.TypeError "onEvent is not a function")
  /\ forall v w',
       SingleShot.next Samples.Promise.forwarding silent [0; 1] 0 rq None
         (SingleShot.set_index 1 SingleShot.emptyWorld)
       = (SingleShot.Fulfilled v, w') ->
       v = SingleShot.Undefined.
Proof.
  intros this silent rq. split; [|split].
  - destruct (@C9_continuation_without_callback Samples.Promise.answering this
                [0; 1] 0 rq (SingleShot.set_index 0 SingleShot.emptyWorld))
      as (_ & _ & Hrej & _).
    exact (Hrej 1 _ eq_refl eq_refl).
  - destruct (@C9_continuation_without_callback Samples.Promise.answering this
                [0; 1] 0 rq (SingleShot.set_index 1 SingleShot.emptyWorld))
      as (_ & _ & _ & _ & Hdeliver).
    apply (Hdeliver (SingleShot.Event (Response 200 "from the backend")) []
             (SingleShot.Fulfilled tt)); [simpl; lia | reflexivity].
  - destruct (@C9_continuation_without_callback Samples.Promise.forwarding silent
                [0; 1] 0 rq (SingleShot.set_index 1 SingleShot.emptyWorld))
      as (_ & _ & _ & Hnothing & _).
    apply Hnothing.
    + intros r ei next' q oe _ Hr Hnext u x u' Hrun.
      unfold Samples.Promise.forwarding, SingleShot.passThroughEvent in Hr.
      inversion Hr; subst ei. clear Hr.
      unfold SingleShot.bind, SingleShot.log in Hrun.
      exact (Hnext _ _ _ _ Hrun).
    + intros q oe u x u' Hrun.
      unfold Samples.Promise.silentBackend, SingleShot.scriptedBackend,
        SingleShot.bind, SingleShot.log, SingleShot.deliver, SingleShot.ret,
        SingleShot.settles in Hrun.
      now inversion Hrun.
Defined.

(** C9 as stated does not hold.  In the chain [a; b] of two next-based
    entries, where [b] answers by itself, the promise [a] awaits from its
    continuation is rejected with a TypeError, and so is [handle].  In the
    chain [a; b] where [b] is a callback-based entry that returns its
    answer, the promise [a] awaits is fulfilled with that answer, which
    [a] returns and [handle] delivers to the caller. *)
Lemma C9_continuation_promise_rejects :
  let this := Samples.Promise.handler [0; 1] [] Samples.Promise.okBackend in
  let rq := Samples.GET "/a" in
  fst (SingleShot.next Samples.Promise.answering this [0; 1] 1 rq None
         (SingleShot.set_index 0 SingleShot.emptyWorld))
  = SingleShot.Rejected (SingleShot.TypeError "onEvent is not a function")
  /\ fst (SingleShot.next Samples.Promise.answering this [0; 1] 1 rq None
            (SingleShot.set_index 0 SingleShot.emptyWorld))
     <> SingleShot.Fulfilled SingleShot.Undefined
  /\ SingleShot.handle Samples.Promise.answering this rq
       SingleShot.recording SingleShot.emptyWorld
     = (SingleShot.Rejected (SingleShot.TypeError "onEvent is not a function"),
        {| SingleShot.index := 1
         ; SingleShot.trace :=
             [SingleShot.Intercepted 0 rq; SingleShot.Intercepted 1 rq]
         ; SingleShot.promises := []
         ; SingleShot.pendingTasks := Samples.noTasks |})
  /\ fst (SingleShot.next Samples.Promise.handingBack this [0; 1] 1 rq None
            (SingleShot.set_index 0 SingleShot.emptyWorld))
     = SingleShot.Fulfilled (SingleShot.Event (Response 200 "from b"))
  /\ fst (SingleShot.next Samples.Promise.handingBack this [0; 1] 1 rq None
            (SingleShot.set_index 0 SingleShot.emptyWorld))
     <> SingleShot.Fulfilled SingleShot.Undefined
  /\ SingleShot.handle Samples.Promise.handingBack this rq
       SingleShot.recording SingleShot.emptyWorld
     = (SingleShot.Fulfilled tt,
        {| SingleShot.index := 1
         ; SingleShot.trace :=
             [SingleShot.Intercepted 0 rq; SingleShot.Intercepted 1 rq;
              SingleShot.Delivered (SingleShot.Event (Response 200 "from b"))]
         ; SingleShot.promises := []
         ; SingleShot.pendingTasks := Samples.noTasks |}).
Proof.
  cbv zeta. split; [reflexivity|]. split; [|split; [reflexivity|]].
  - intros H. vm_compute in H. discriminate H.
  - split; [reflexivity|]. split; [|reflexivity].
    intros H. vm_compute in H. discriminate H.
Qed.

(** C5 at the failing input. Entry 0 of [0; 1] calls its continuation
    twice.  The first call runs entry 1 and then the backend; the second
    call finds the cursor past the end and goes to the backend at once:
    entry 1 is run once, the backend twice. *)
Theorem C5_single_shot_second_call_skips_entry :
  let rq := Samples.GET "/a" in
  SingleShot.handle Samples.Promise.retrying
    (Samples.Promise.handler [0; 1] [] Samples.Promise.silentBackend) rq
    SingleShot.recording SingleShot.emptyWorld
  = (SingleShot.Fulfilled tt,
     {| SingleShot.index := 3
      ; SingleShot.trace :=
          [SingleShot.Intercepted 0 rq;
           SingleShot.Intercepted 1 rq; SingleShot.BackendCalled rq false;
           SingleShot.BackendCalled rq false;
           SingleShot.Delivered SingleShot.Undefined]
      ; SingleShot.promises := []
      ; SingleShot.pendingTasks := Samples.noTasks |}).
Proof. reflexivity. Qed.

(** C7 at the failing input. In the chain [a; b; c], [b] answers through
    [onEvent] and never calls its continuation.  Neither [c] nor the backend
    runs, but [b] was reached through [a]'s one-argument call and has no
    callback: its answer is lost, [handle] is rejected with a TypeError and
    the caller is given nothing. *)
Theorem C7_single_shot_short_circuit_rejects :
  let rq := Samples.GET "/a" in
  SingleShot.handle Samples.Promise.shortCircuiting
    (Samples.Promise.handler [0; 1; 2] [] Samples.Promise.okBackend) rq
    SingleShot.recording SingleShot.emptyWorld
  = (SingleShot.Rejected (SingleShot.TypeError "onEvent is not a function"),
     {| SingleShot.index := 1
      ; SingleShot.trace :=
          [SingleShot.Intercepted 0 rq; SingleShot.Intercepted 1 rq]
      ; SingleShot.promises := []
      ; SingleShot.pendingTasks := Samples.noTasks |}).
Proof. reflexivity. Qed.

(** C2 as stated does not hold for the single-shot variant: after a first
    call with the list [0], the list is changed to [1]; the second call runs
    entry 1, which the first call never saw, and not entry 0. *)
Lemma C2_single_shot_rereads_the_lists :
  let first := Samples.Promise.handler [0] [] Samples.Promise.silentBackend in
  let mutated := Samples.Promise.handler [1] [] Samples.Promise.silentBackend in
  let w1 := snd (SingleShot.handle Samples.Promise.forwarding first
                   (Samples.GET "/a") SingleShot.recording SingleShot.emptyWorld) in
  SingleShot.trace
    (snd (SingleShot.handle Samples.Promise.forwarding mutated
            (Samples.GET "/b") SingleShot.recording w1))
  = [SingleShot.Intercepted 0 (Samples.GET "/a");
     SingleShot.BackendCalled (Samples.GET "/a") false;
     SingleShot.Intercepted 1 (Samples.GET "/b");
     SingleShot.BackendCalled (Samples.GET "/b") false]
  /\ SingleShot.handle Samples.Promise.forwarding mutated
       (Samples.GET "/b") SingleShot.recording w1
     <> SingleShot.handle Samples.Promise.forwarding first
          (Samples.GET "/b") SingleShot.recording w1.
Proof.
  cbv zeta. split; [reflexivity|].
  intros H. vm_compute in H. discriminate H.
Qed.

(** ** The merged entry list *)

Section MergedList.

(** The marks of one entry among those of a run through pass-through
    entries: as many as the entry has places in the list. *)
Lemma interceptions_count f (e : Ref) (d : list Ref) : forall req,
  length (filter (fun l => match l with
                           | SingleShot.Intercepted r _ => Nat.eqb r e
                           | _ => false
                           end)
            (SingleShot.interceptions f d req))
  = count_occ Nat.eq_dec d e.
Proof.
  induction d as [|r d IH]; intros req; [reflexivity|].
  cbn [SingleShot.interceptions filter count_occ].
  destruct (Nat.eq_dec r e) as [->|Hne].
  - rewrite Nat.eqb_refl. cbn [length]. now rewrite IH.
  - apply Nat.eqb_neq in Hne. rewrite Hne. apply IH.
Qed.

(** C4. The list both dispatchers run is the one merged from
    [HTTP_INTERCEPTOR_FNS] and [HTTP_ROOT_INTERCEPTOR_FNS]: it holds every
    registered entry and holds it once.  An entry [e] whose first
    registration comes after the entries [p] stands right after the distinct
    entries of [p], however often it is registered again in [q], in the same
    source or in the other one.  The stream dispatcher builds its chain by
    folding that list, so that over delegating entries each distinct entry
    transforms the request once and the stream once, in that order; the
    single-shot dispatcher runs [next] over that list, so that over
    pass-through entries each distinct entry intercepts once, in that
    order. *)
Theorem C4_dedupe_first_seen (fns rootFns p q : list Ref) (e : Ref)
    (Hmerged : fns ++ rootFns = p ++ e :: q)
    (Hfirst : ~ In e p) :
  let d := Dedupe.dedupedInterceptorFns Nat.eq_dec fns rootFns in
  let registered :=
    {| HTTP_INTERCEPTOR_FNS := fns; HTTP_ROOT_INTERCEPTOR_FNS := rootFns |} in
  NoDup d
  /\ (forall x, In x d <-> In x fns \/ In x rootFns)
  /\ count_occ Nat.eq_dec d e = 1
  /\ d = Dedupe.new_Set Nat.eq_dec p ++ e ::
         filter (fun y => negb (Dedupe.mem Nat.eq_dec y (Dedupe.new_Set Nat.eq_dec p)))
           (filter (fun y => negb (Dedupe.mem Nat.eq_dec y [e]))
              (Dedupe.new_Set Nat.eq_dec q))
  /\ d = Dedupe.new_Set Nat.eq_dec fns ++
         filter (fun y => negb (Dedupe.mem Nat.eq_dec y (Dedupe.new_Set Nat.eq_dec fns)))
           (Dedupe.new_Set Nat.eq_dec rootFns)
  /\ (forall (heap : Ref -> RxjsInterop.HttpInterceptorFn) flag backend req tasks,
        let this :=
          {| RxjsInterop.chain := None
           ; RxjsInterop.contributeToStability := flag
           ; RxjsInterop.backend := backend
           ; RxjsInterop.injector := registered |} in
        RxjsInterop.chain (snd (fst (RxjsInterop.handle heap this req tasks)))
        = Some (RxjsInterop.reduceRight_chain heap registered d)
        /\ RxjsInterop.source (fst (fst (RxjsInterop.handle heap this req tasks)))
           = RxjsInterop.reduceRight_chain heap registered d req backend
        /\ forall onRequest onResponse,
             (forall r, RxjsInterop.always_delegates (heap r)
                          (onRequest r) (onResponse r)) ->
             RxjsInterop.source (fst (fst (RxjsInterop.handle heap this req tasks)))
             = fold_right (fun r o => onResponse r o)
                 (backend (fold_left (fun x r => onRequest r x) d req)) d)
  /\ (forall (heap : Ref -> SingleShot.HttpInterceptorFn) backend req onEvent w,
        let this :=
          {| SingleShot.injector := registered; SingleShot.backend := backend |} in
        SingleShot.handle heap this req onEvent w
        = SingleShot.bind
            (SingleShot.next heap this d (length d) req
               (Some (fun event => onEvent event)))
            (fun _ => SingleShot.ret tt)
            (SingleShot.set_index (-1) w)
        /\ forall f,
             (forall r, In r d -> heap r = SingleShot.passThroughEvent r (f r)) ->
             SingleShot.handle heap this req onEvent w
             = SingleShot.bind
                 (backend (fold_left (fun x r => f r x) d req)
                    (match d with
                     | [] => Some (fun event => onEvent event)
                     | _ => None
                     end))
                 (fun _ => SingleShot.ret tt)
                 {| SingleShot.index := Z.of_nat (length d)
                  ; SingleShot.trace :=
                      SingleShot.trace w ++ SingleShot.interceptions f d req
                  ; SingleShot.promises := SingleShot.promises w
                  ; SingleShot.pendingTasks := SingleShot.pendingTasks w |}
             /\ length (filter (fun l => match l with
                                         | SingleShot.Intercepted r _ => Nat.eqb r e
                                         | _ => false
                                         end)
                          (SingleShot.interceptions f d req)) = 1).
Proof.
  intros d registered.
  assert (Hnd : NoDup d) by apply new_Set_NoDup.
  assert (Hone : count_occ Nat.eq_dec d e = 1).
  { apply NoDup_count_occ_1; [exact Hnd|].
    apply (proj2 (new_Set_In Nat.eq_dec _ _)). unfold Ref in *.
    rewrite Hmerged. apply in_or_app. right. now left. }
  split; [exact Hnd|]. split; [|split; [exact Hone|]].
  { intros x. unfold d, Dedupe.dedupedInterceptorFns. split.
    - intros H. apply (proj1 (new_Set_In Nat.eq_dec _ _)) in H. now apply in_app_or.
    - intros H. apply (proj2 (new_Set_In Nat.eq_dec _ _)). now apply in_or_app. }
  split.
  { unfold d, Dedupe.dedupedInterceptorFns. unfold Ref in *.
    rewrite Hmerged. now apply new_Set_first_occurrence. }
  split; [apply new_Set_app|]. split.
  - intros heap flag backend req tasks this.
    split; [|split].
    + now rewrite handle_chain.
    + now rewrite handle_source.
    + intros onRequest onResponse Hheap. rewrite handle_source.
      cbn [RxjsInterop.chain this RxjsInterop.injector RxjsInterop.backend].
      now apply reduceRight_chain_delegating.
  - intros heap backend req onEvent w this. split; [reflexivity|].
    intros f Hheap. split; [|now rewrite interceptions_count].
    unfold SingleShot.handle.
    cbn [SingleShot.injector this registered HTTP_INTERCEPTOR_FNS
           HTTP_ROOT_INTERCEPTOR_FNS].
    fold d. unfold SingleShot.bind at 1.
    rewrite (@next_passThroughEvent_run heap this d f Hheap d [] req _
               (SingleShot.set_index (-1) w) (length d) eq_refl eq_refl (le_n _)).
    reflexivity.
Qed.

End MergedList.

(** The same entry registered module-locally and at root level: one
    occurrence, where the module-local registration put it, in the list, in
    the run of the single-shot dispatcher and in the chain of the stream
    dispatcher. *)
Lemma C4_dedupe_first_seen_witness :
  Dedupe.dedupedInterceptorFns Nat.eq_dec [7; 3] [3; 9; 7] = [7; 3; 9]
  /\ SingleShot.trace
       (snd (SingleShot.handle Samples.Promise.forwarding
               (Samples.Promise.handler [7; 3] [3; 9; 7] Samples.Promise.silentBackend)
               (Samples.GET "/a") SingleShot.recording SingleShot.emptyWorld))
     = [SingleShot.Intercepted 7 (Samples.GET "/a");
        SingleShot.Intercepted 3 (Samples.GET "/a");
        SingleShot.Intercepted 9 (Samples.GET "/a");
        SingleShot.BackendCalled (Samples.GET "/a") false]
  /\ RxjsInterop.source
       (fst (fst (RxjsInterop.handle Samples.Stream.stamping
                    (Samples.Stream.handler [7; 3] [3; 9; 7]
                       Samples.Stream.countingBackend)
                    (Samples.GET "/api") Samples.noTasks)))
     = {| RxjsInterop.events :=
            [Response 3 "/api"; User "j"; User "d"; User "h"]
        ; RxjsInterop.ending := RxjsInterop.Completed |}.
Proof.
  assert (Hfirst : ~ In 3 [7]) by (simpl; intros [H|[]]; discriminate H).
  destruct (@C4_dedupe_first_seen [7; 3] [3; 9; 7] [7] [3; 9; 7] 3 eq_refl Hfirst)
    as (_ & _ & _ & Hpos & _ & Hstream & Hsingle).
  split; [rewrite Hpos; reflexivity|]. split.
  - destruct (Hsingle Samples.Promise.forwarding Samples.Promise.silentBackend
                (Samples.GET "/a") SingleShot.recording SingleShot.emptyWorld)
      as (_ & Hrun).
    destruct (Hrun (fun _ req => req) (fun r _ => eq_refl)) as (Hhandle & _).
    unfold Samples.Promise.handler. rewrite Hhandle. reflexivity.
  - destruct (Hstream Samples.Stream.stamping REQUESTS_CONTRIBUTE_TO_STABILITY
                Samples.Stream.countingBackend (Samples.GET "/api") Samples.noTasks)
      as (_ & _ & Hfold).
    unfold Samples.Stream.handler.
    rewrite (Hfold Samples.Stream.stampRequest Samples.Stream.stampResponse
               (fun r => or_introl eq_refl)).
    reflexivity.
Defined.

(** ** Pending tasks *)

Section StabilityClaims.
Import RxjsInterop Throwing.
Variable heap : Ref -> HttpInterceptorFn.






End StabilityClaims.



(** ** Caching of the chain *)

(** C2, as the code has it. The stream dispatcher builds its chain at the
    first call of [handle], from the lists as they are then, and keeps it:
    after the lists have been changed, a second call leaves the chain as it
    was and runs that same chain.  The single-shot dispatcher has no chain
    to keep: every call of [handle] runs [next] over the lists as they are
    at that call. *)
Theorem C2_chain_built_once
    (heap : Ref -> RxjsInterop.HttpInterceptorFn)
    (this : RxjsInterop.HttpInterceptorHandler)
    (req1 req2 : HttpRequest) (tasks1 tasks2 : PendingTasks)
    (mutated : EnvironmentInjector)
    (Hunbuilt : RxjsInterop.chain this = None) :
  let built :=
    RxjsInterop.reduceRight_chain heap (RxjsInterop.injector this)
      (Dedupe.dedupedInterceptorFns Nat.eq_dec
         (HTTP_INTERCEPTOR_FNS (RxjsInterop.injector this))
         (HTTP_ROOT_INTERCEPTOR_FNS (RxjsInterop.injector this))) in
  let first := RxjsInterop.handle heap this req1 tasks1 in
  let second :=
    RxjsInterop.handle heap
      (RxjsInterop.set_injector mutated (snd (fst first))) req2 tasks2 in
  RxjsInterop.chain (snd (fst first)) = Some built
  /\ RxjsInterop.source (fst (fst first)) = built req1 (RxjsInterop.backend this)
  /\ RxjsInterop.chain (snd (fst second)) = Some built
  /\ RxjsInterop.source (fst (fst second)) = built req2 (RxjsInterop.backend this)
  /\ forall (heap' : Ref -> SingleShot.HttpInterceptorFn) backend' req onEvent w,
       SingleShot.handle heap'
         {| SingleShot.injector := mutated; SingleShot.backend := backend' |}
         req onEvent w
       = SingleShot.bind
           (SingleShot.next heap'
              {| SingleShot.injector := mutated; SingleShot.backend := backend' |}
              (Dedupe.dedupedInterceptorFns Nat.eq_dec
                 (HTTP_INTERCEPTOR_FNS mutated)
                 (HTTP_ROOT_INTERCEPTOR_FNS mutated))
              (length (Dedupe.dedupedInterceptorFns Nat.eq_dec
                         (HTTP_INTERCEPTOR_FNS mutated)
                         (HTTP_ROOT_INTERCEPTOR_FNS mutated)))
              req (Some (fun event => onEvent event)))
           (fun _ => SingleShot.ret tt)
           (SingleShot.set_index (-1) w).
Proof.
  intros built first second.
  pose proof (handle_chain heap this req1 tasks1) as Hc1.
  pose proof (handle_keeps heap this req1 tasks1) as (Hb1 & _ & _).
  rewrite Hunbuilt in Hc1. fold built first in Hc1. fold first in Hb1.
  assert (Hc1' : RxjsInterop.chain
                   (RxjsInterop.set_injector mutated (snd (fst first)))
                 = Some built) by exact Hc1.
  repeat split.
  - exact Hc1.
  - unfold first. now rewrite handle_source, Hunbuilt.
  - unfold second. now rewrite handle_chain, Hc1'.
  - unfold second. rewrite handle_source, Hc1'. cbn [RxjsInterop.backend RxjsInterop.set_injector].
    now rewrite Hb1.
Qed.

(** C2 on a stream dispatcher whose list [0; 1] is emptied after the first
    call: the second call still goes through both entries. *)
Lemma C2_chain_built_once_witness :
  let this := Samples.Stream.handler [0; 1] [] Samples.Stream.countingBackend in
  let first :=
    RxjsInterop.handle Samples.Stream.stamping this (Samples.GET "/a") Samples.noTasks in
  let second :=
    RxjsInterop.handle Samples.Stream.stamping
      (RxjsInterop.set_injector
         {| HTTP_INTERCEPTOR_FNS := []; HTTP_ROOT_INTERCEPTOR_FNS := [] |}
         (snd (fst first)))
      (Samples.GET "/b") (snd first) in
  RxjsInterop.source (fst (fst second))
  = {| RxjsInterop.events := [Response 2 "/b"; User "b"; User "a"]
     ; RxjsInterop.ending := RxjsInterop.Completed |}.
Proof.
  intros this first second.
  destruct (@C2_chain_built_once Samples.Stream.stamping this
              (Samples.GET "/a") (Samples.GET "/b") Samples.noTasks (snd first)
              {| HTTP_INTERCEPTOR_FNS := []; HTTP_ROOT_INTERCEPTOR_FNS := [] |}
              eq_refl) as (_ & _ & _ & H & _).
  fold first second in H. rewrite H. reflexivity.
Defined.

(** ** [Http.request] *)

Section RequestFacts.
Import SingleShot.

Lemma settle_settled p s w st :
  nth_error (promises w) p = Some st -> st <> Pending -> settle p s w = w.
Proof.
  intros H Hst. unfold settle. rewrite H. destruct st; congruence.
Qed.

Lemma settle_last p s w ps :
  promises w = ps ++ [Pending] -> p = length ps ->
  settle p s w = set_promises (ps ++ [s]) w.
Proof.
  intros Hps ->. unfold settle. rewrite Hps.
  rewrite nth_error_app2, Nat.sub_diag by lia. cbn [nth_error].
  rewrite firstn_app, Nat.sub_diag, firstn_all. cbn [firstn]. rewrite app_nil_r.
  rewrite skipn_all2 by (rewrite length_app; simpl; lia).
  reflexivity.
Qed.

(** Delivering values to [resolve] once the promise is settled changes
    nothing. *)
Lemma deliver_to_settled p st vs : forall w,
  nth_error (promises w) p = Some st -> st <> Pending ->
  deliver (Some (fun event w => (Fulfilled tt, settle p (Resolved event) w))) vs w
  = (Fulfilled tt, w).
Proof.
  induction vs as [|v vs IH]; intros w Hw Hst; [reflexivity|].
  cbn [deliver call]. unfold bind.
  rewrite (settle_settled _ _ _ Hw Hst). now apply IH.
Qed.

(** Delivering values to [resolve]: the first one settles the promise, the
    others are dropped. *)
Lemma deliver_to_resolve p vs w ps :
  promises w = ps ++ [Pending] -> p = length ps ->
  deliver (Some (fun event w => (Fulfilled tt, settle p (Resolved event) w))) vs w
  = (Fulfilled tt,
     set_promises
       (ps ++ [match vs with [] => Pending | v :: _ => Resolved v end]) w).
Proof.
  intros Hps Hp. destruct vs as [|v vs].
  - cbn. unfold ret. rewrite <- Hps. now destruct w.
  - cbn [deliver call]. unfold bind.
    rewrite (settle_last _ _ _ Hps Hp).
    apply deliver_to_settled with (st := Resolved v); [|discriminate].
    cbn [promises set_promises].
    rewrite Hp, nth_error_app2, Nat.sub_diag by lia. reflexivity.
Qed.

(** C10. Whatever the backend delivers to its callback and however the
    promise it returns settles, the promise returned by [Http.request] is
    fulfilled with the first value delivered, if any, and pending
    otherwise: later values are dropped and a rejection of the backend is
    not passed on. *)
Theorem C10_request_resolves_with_first_event
    (vs : list JsVal) (outcome : Settled unit)
    (first : string + HttpRequest) (u : string) (options : RequestOptions)
    (w : World) :
  let req :=
    match first with
    | inr r => r
    | inl m => {| method := m; url := u; headers := options_headers options |}
    end in
  request (mkHttp (scriptedBackend vs outcome)) first u options w
  = (Fulfilled (length (promises w)),
     {| index := index w
      ; trace := trace w ++ [BackendCalled req true]
      ; promises :=
          promises w ++ [match vs with [] => Pending | v :: _ => Resolved v end]
      ; pendingTasks := pendingTasks w |}).
Proof.
  intros req. unfold request. fold req.
  unfold new_Promise, call_async, scriptedBackend, Http_backend.
  unfold bind at 1 2 3. unfold log at 1. unfold ret at 1.
  rewrite (@deliver_to_resolve (length (promises w)) vs _ (promises w));
    [|reflexivity|reflexivity].
  cbn [add_trace set_promises index trace promises pendingTasks].
  destruct outcome; reflexivity.
Qed.

End RequestFacts.

(** * Further properties *)

(** ** Class-based interceptors *)

Section LegacyFacts.
Import RxjsInterop Legacy.

Lemma legacy_fold_delegating fgs : forall req handler,
  fold_right
    (fun interceptor chainTailFn =>
       adaptLegacyInterceptorToChain chainTailFn interceptor)
    interceptorChainEndFn (map delegatingInterceptor fgs) req handler
  = fold_right (fun fg o => snd fg o)
      (handler (fold_left (fun q fg => fst fg q) fgs req)) fgs.
Proof.
  induction fgs as [|fg fgs IH]; intros req handler.
  - reflexivity.
  - cbn [map fold_right fold_left].
    unfold adaptLegacyInterceptorToChain at 1. cbn [intercept delegatingInterceptor
      HttpHandler_handle]. now rewrite IH.
Qed.

Lemma legacyInterceptorFn_source chain ctx req handler tasks :
  source (fst (fst (legacyInterceptorFn chain ctx req handler tasks)))
  = match chain with
    | Some c => c
    | None =>
        fold_right
          (fun interceptor chainTailFn =>
             adaptLegacyInterceptorToChain chainTailFn interceptor)
          interceptorChainEndFn
          (match HTTP_INTERCEPTORS ctx with Some l => l | None => [] end)
    end req handler.
Proof.
  unfold legacyInterceptorFn.
  destruct chain; destruct (contributeToStability ctx); reflexivity.
Qed.

Lemma legacyInterceptorFn_chain chain ctx req handler tasks :
  snd (fst (legacyInterceptorFn chain ctx req handler tasks))
  = Some match chain with
         | Some c => c
         | None =>
             fold_right
               (fun interceptor chainTailFn =>
                  adaptLegacyInterceptorToChain chainTailFn interceptor)
               interceptorChainEndFn
               (match HTTP_INTERCEPTORS ctx with Some l => l | None => [] end)
         end.
Proof.
  unfold legacyInterceptorFn.
  destruct chain; destruct (contributeToStability ctx); reflexivity.
Qed.

(** X1. The chain of class-based interceptors runs them in list order on
    the way in and in reverse order on the way out, and it runs the list as
    it is registered: there is no deduplication on this path, an interceptor
    listed twice intercepts twice. *)
Theorem X1_legacy_chain_order
    (fgs : list ((HttpRequest -> HttpRequest) * (Observable -> Observable)))
    (ctx : InjectionContext) (req : HttpRequest) (handler : HttpHandlerFn)
    (tasks : PendingTasks)
    (Hlist : HTTP_INTERCEPTORS ctx = Some (map delegatingInterceptor fgs)) :
  source (fst (fst (legacyInterceptorFnFactory ctx req handler tasks)))
  = fold_right (fun fg o => snd fg o)
      (handler (fold_left (fun q fg => fst fg q) fgs req)) fgs.
Proof.
  unfold legacyInterceptorFnFactory.
  rewrite legacyInterceptorFn_source, Hlist. apply legacy_fold_delegating.
Qed.

(** X2. The function made by [legacyInterceptorFnFactory] builds its chain
    at its first call and keeps it: a later call runs the same chain
    whatever [HTTP_INTERCEPTORS] holds by then.  Without a provider for
    [HTTP_INTERCEPTORS] the chain is empty and the request goes straight to
    the handler.  The stability flag, unlike the chain, is read at every
    call. *)
Theorem X2_legacy_chain_cached
    (ctx1 ctx2 : InjectionContext) (req1 req2 : HttpRequest)
    (handler1 handler2 : HttpHandlerFn) (tasks1 tasks2 : PendingTasks) :
  let built :=
    fold_right
      (fun interceptor chainTailFn =>
         adaptLegacyInterceptorToChain chainTailFn interceptor)
      interceptorChainEndFn
      (match HTTP_INTERCEPTORS ctx1 with Some l => l | None => [] end) in
  let first := legacyInterceptorFnFactory ctx1 req1 handler1 tasks1 in
  let second := legacyInterceptorFn (snd (fst first)) ctx2 req2 handler2 tasks2 in
  snd (fst first) = Some built
  /\ source (fst (fst second)) = built req2 handler2
  /\ snd (fst second) = Some built
  /\ length (teardown (fst (fst second)))
     = (if contributeToStability ctx2 then 1 else 0)
  /\ (HTTP_INTERCEPTORS ctx1 = None ->
      source (fst (fst first)) = handler1 req1).
Proof.
  intros built first second.
  assert (H1 : snd (fst first) = Some built).
  { unfold first, legacyInterceptorFnFactory. now rewrite legacyInterceptorFn_chain. }
  repeat split.
  - exact H1.
  - unfold second. now rewrite legacyInterceptorFn_source, H1.
  - unfold second. now rewrite legacyInterceptorFn_chain, H1.
  - unfold second. rewrite H1. unfold legacyInterceptorFn.
    destruct (contributeToStability ctx2); reflexivity.
  - intros Hnone. unfold first, legacyInterceptorFnFactory.
    rewrite legacyInterceptorFn_source, Hnone. reflexivity.
Qed.

End LegacyFacts.

(** X1 on one interceptor listed twice: two headers reach the handler and
    the stream is stamped twice. *)
Lemma X1_legacy_chain_order_witness :
  let a := (Samples.Stream.stampRequest 0, Samples.Stream.stampResponse 0) in
  RxjsInterop.source
    (fst (fst (Legacy.legacyInterceptorFnFactory
                 {| Legacy.HTTP_INTERCEPTORS :=
                      Some (map Legacy.delegatingInterceptor [a; a])
                  ; Legacy.contributeToStability := true |}
                 (Samples.GET "/api") Samples.Stream.countingBackend
                 Samples.noTasks)))
  = {| RxjsInterop.events := [Response 2 "/api"; User "a"; User "a"]
     ; RxjsInterop.ending := RxjsInterop.Completed |}.
Proof.
  intros a.
  rewrite (@X1_legacy_chain_order [a; a]
             {| Legacy.HTTP_INTERCEPTORS :=
                  Some (map Legacy.delegatingInterceptor [a; a])
              ; Legacy.contributeToStability := true |}
             (Samples.GET "/api")
             Samples.Stream.countingBackend Samples.noTasks eq_refl).
  reflexivity.
Defined.

(** X2 on a function first called without a provider: the handler's stream
    is returned as it is, also after interceptors have been provided. *)
Lemma X2_legacy_chain_cached_witness :
  let none := {| Legacy.HTTP_INTERCEPTORS := None
               ; Legacy.contributeToStability := false |} in
  RxjsInterop.source
    (fst (fst (Legacy.legacyInterceptorFnFactory none (Samples.GET "/api")
                 Samples.Stream.okBackend Samples.noTasks)))
  = {| RxjsInterop.events := [Response 200 "/api"]
     ; RxjsInterop.ending := RxjsInterop.Completed |}.
Proof.
  intros none.
  destruct (@X2_legacy_chain_cached none none (Samples.GET "/api")
              (Samples.GET "/api") Samples.Stream.okBackend
              Samples.Stream.okBackend Samples.noTasks Samples.noTasks)
    as (_ & _ & _ & _ & H).
  rewrite (H eq_refl). reflexivity.
Defined.

(** ** The stream dispatcher with the stability flag off *)

Section StabilityOff.
Import RxjsInterop.

(** X3. With the stability flag off, neither the dispatcher nor the
    function for class-based interceptors touches the pending-task
    registry: not at the call, and not when a subscription closes,
    whatever the subscriber does. *)
Theorem X3_stability_off_registry_untouched
    (heap : Ref -> HttpInterceptorFn) (this : HttpInterceptorHandler)
    (chain : option ChainedInterceptorFn) (ctx : Legacy.InjectionContext)
    (req : HttpRequest) (handler : HttpHandlerFn)
    (tasks : PendingTasks) (consumer : Consumer)
    (Hflag : contributeToStability this = false)
    (Hctx : Legacy.contributeToStability ctx = false) :
  (let '(stream, _, tasks1) := handle heap this req tasks in
   tasks1 = tasks /\ snd (subscribe stream consumer tasks1) = tasks)
  /\ (let '(stream, _, tasks1) :=
        Legacy.legacyInterceptorFn chain ctx req handler tasks in
      tasks1 = tasks /\ snd (subscribe stream consumer tasks1) = tasks).
Proof.
  assert (Hsub : forall o, snd (subscribe (unpiped o) consumer tasks) = tasks).
  { intros o. unfold subscribe, unpiped. cbn [source teardown run_teardown fold_left].
    destruct consumer as [|n]; destruct (ending o);
      try destruct (n <? length (events o)); reflexivity. }
  split.
  - pose proof (handle_keeps heap this req tasks) as (_ & _ & Hf).
    unfold handle in *.
    destruct (RxjsInterop.chain this); cbn [contributeToStability set_chain] in *;
      rewrite Hflag; (split; [reflexivity | apply Hsub]).
  - unfold Legacy.legacyInterceptorFn. rewrite Hctx.
    split; [reflexivity | apply Hsub].
Qed.

End StabilityOff.

(** X3 on a subscriber that cancels at once. *)
Lemma X3_stability_off_registry_untouched_witness :
  let this :=
    {| RxjsInterop.chain := None
     ; RxjsInterop.contributeToStability := false
     ; RxjsInterop.backend := Samples.Stream.okBackend
     ; RxjsInterop.injector :=
         {| HTTP_INTERCEPTOR_FNS := [0]; HTTP_ROOT_INTERCEPTOR_FNS := [] |} |} in
  let '(stream, _, tasks1) :=
    RxjsInterop.handle Samples.Stream.stamping this (Samples.GET "/a")
      Samples.noTasks in
  snd (RxjsInterop.subscribe stream (RxjsInterop.UnsubscribeAfter 0) tasks1)
  = Samples.noTasks.
Proof.
  intros this.
  destruct (@X3_stability_off_registry_untouched Samples.Stream.stamping this None
              {| Legacy.HTTP_INTERCEPTORS := None
               ; Legacy.contributeToStability := false |}
              (Samples.GET "/a") Samples.Stream.okBackend Samples.noTasks
              (RxjsInterop.UnsubscribeAfter 0) eq_refl eq_refl) as [H _].
  vm_compute in H. vm_compute. exact (proj2 H).
Defined.

(** ** Streams made by callback-based entries *)

Section EventStreamFacts.
Import RxjsInterop.

Lemma upToResponse_without_response l :
  existsb isHttpResponse l = false -> upToResponse l = l.
Proof.
  induction l as [|e l IH]; [reflexivity|]. cbn [existsb upToResponse].
  destruct (isHttpResponse e); [discriminate|]. cbn. intros H. now rewrite IH.
Qed.

Lemma upToResponse_with_response l :
  existsb isHttpResponse l = true ->
  exists pre resp post,
    l = pre ++ resp :: post
    /\ existsb isHttpResponse pre = false
    /\ isHttpResponse resp = true
    /\ upToResponse l = pre ++ [resp].
Proof.
  induction l as [|e l IH]; [discriminate|]. cbn [existsb upToResponse].
  destruct (isHttpResponse e) eqn:He.
  - intros _. exists [], e, l. auto.
  - cbn. intros H. destruct (IH H) as (pre & resp & post & -> & Hpre & Hresp & Hup).
    exists (e :: pre), resp, post. cbn. rewrite He, Hpre, Hup. auto.
Qed.

(** What a callback-based entry that may throw leaves in the subscriber. *)
Lemma chainedInterceptorFn_emitting_throwing chainTailFn evs thrown injector req
    finalHandlerFn :
  Throwing.chainedInterceptorFn chainTailFn (Throwing.emitting evs thrown)
    injector req finalHandlerFn
  = let next := fun downstreamRequest =>
                  chainTailFn downstreamRequest finalHandlerFn in
    Throwing.Returns
      {| events := upToResponse (evs req next)
       ; ending := if existsb isHttpResponse (evs req next) then Completed
                   else match thrown req next with
                        | Some err => Errored err
                        | None => Open
                        end |}.
Proof.
  unfold Throwing.chainedInterceptorFn, Throwing.emitting, new_Observable,
    runInInjectionContext.
  cbv zeta. rewrite eventInterceptor_callback_fold.
  destruct (existsb isHttpResponse _); destruct (thrown req _); reflexivity.
Qed.

(** X4. Making the stream for a callback-based entry never throws: the
    entry is run when the stream is subscribed.  The events the entry emits
    are passed on up to the first [HttpResponse], which is the last event
    and completes the stream, whatever the entry emits or throws after it.
    Without a response all events are passed on; the stream then errors
    when the entry throws, with what it threw, and stays open when the
    entry returns: what the entry was pushed by its continuation, an error
    or a completion, ends the stream only if the entry throws or emits a
    response. *)
Theorem X4_event_entry_stream_shape
    (chainTailFn : Throwing.ChainedInterceptorFn)
    (evs : HttpRequest -> Throwing.HttpHandlerFn -> list HttpEvent)
    (thrown : HttpRequest -> Throwing.HttpHandlerFn -> option string)
    (injector : EnvironmentInjector) (req : HttpRequest)
    (finalHandlerFn : Throwing.HttpHandlerFn) :
  let next := fun downstreamRequest =>
                chainTailFn downstreamRequest finalHandlerFn in
  let emitted := evs req next in
  exists o,
    Throwing.chainedInterceptorFn chainTailFn (Throwing.emitting evs thrown)
      injector req finalHandlerFn = Throwing.Returns o
    /\ (existsb isHttpResponse emitted = false ->
        events o = emitted
        /\ ending o = match thrown req next with
                      | Some err => Errored err
                      | None => Open
                      end)
    /\ (existsb isHttpResponse emitted = true ->
        exists pre resp post,
          emitted = pre ++ resp :: post
          /\ existsb isHttpResponse pre = false
          /\ isHttpResponse resp = true
          /\ events o = pre ++ [resp]
          /\ ending o = Completed).
Proof.
  intros next emitted. rewrite chainedInterceptorFn_emitting_throwing.
  cbv zeta. fold next. fold emitted. eexists. split; [reflexivity|].
  cbn [events ending]. split.
  - intros H. rewrite H. split; [now apply upToResponse_without_response | reflexivity].
  - intros H. rewrite H.
    destruct (upToResponse_with_response _ H) as (pre & resp & post & E & Hpre & Hresp & Hup).
    exists pre, resp, post. auto.
Qed.

End EventStreamFacts.

(** X4 on an entry that forwards a downstream stream which errors after a
    progress event and returns: the error is not passed on and the stream
    stays open; and on an entry that emits [Sent] and throws. *)
Lemma X4_event_entry_stream_shape_witness :
  let failing : Throwing.HttpHandlerFn :=
    fun _ => Throwing.Returns
               {| RxjsInterop.events := [DownloadProgress 10]
                ; RxjsInterop.ending := RxjsInterop.Errored "offline" |} in
  let forwarded (request : HttpRequest) (next : Throwing.HttpHandlerFn) :=
    match next request with
    | Throwing.Returns o => RxjsInterop.events o
    | Throwing.Throws _ => []
    end in
  let inj := {| HTTP_INTERCEPTOR_FNS := []; HTTP_ROOT_INTERCEPTOR_FNS := [] |} in
  Throwing.chainedInterceptorFn Throwing.interceptorChainEndFn
    (Throwing.emitting forwarded (fun _ _ => None)) inj (Samples.GET "/a") failing
  = Throwing.Returns
      {| RxjsInterop.events := [DownloadProgress 10]
       ; RxjsInterop.ending := RxjsInterop.Open |}
  /\ Throwing.chainedInterceptorFn Throwing.interceptorChainEndFn
       (Samples.Throws.sentThenFailing 0) inj (Samples.GET "/a") failing
     = Throwing.Returns
         {| RxjsInterop.events := [Sent]
          ; RxjsInterop.ending := RxjsInterop.Errored "failed" |}.
Proof.
  intros failing forwarded inj. split.
  - destruct (@X4_event_entry_stream_shape Throwing.interceptorChainEndFn
                forwarded (fun _ _ => None) inj (Samples.GET "/a") failing)
      as (o & Ho & H & _).
    destruct (H eq_refl) as [He Hend].
    rewrite Ho. destruct o as [evs e]. cbn in He, Hend. now rewrite He, Hend.
  - destruct (@X4_event_entry_stream_shape Throwing.interceptorChainEndFn
                (fun _ _ => [Sent]) (fun _ _ => Some "failed"%string)
                inj (Samples.GET "/a") failing)
      as (o & Ho & H & _).
    destruct (H eq_refl) as [He Hend].
    unfold Samples.Throws.sentThenFailing.
    rewrite Ho. destruct o as [evs e]. cbn in He, Hend. now rewrite He, Hend.
Defined.

(** ** The warning of the constructor *)

Section FetchWarningFacts.
Import FetchWarning.

Lemma constructor_displayed c g :
  fetchBackendWarningDisplayed g = true -> constructor c g = g.
Proof.
  intros H. unfold constructor. rewrite H.
  now rewrite andb_false_r.
Qed.

Lemma constructions_displayed cs : forall g,
  fetchBackendWarningDisplayed g = true -> constructions cs g = g.
Proof.
  induction cs as [|c cs IH]; intros g H; [reflexivity|].
  unfold constructions in *. cbn [fold_left].
  rewrite constructor_displayed by exact H. now apply IH.
Qed.

Lemma constructor_fresh c g :
  fetchBackendWarningDisplayed g = false ->
  constructor c g
  = if warrants_warning c
    then {| fetchBackendWarningDisplayed := true
          ; warnings := warnings g ++ [NOT_USING_FETCH_BACKEND_IN_SSR] |}
    else g.
Proof.
  intros H. unfold constructor, warrants_warning. rewrite H.
  destruct (ngDevMode c) as [[|]|]; cbn;
    destruct (isServer c), (isFetchBackend (backendInfo c)),
      (isTestingBackend (backendInfo c)); reflexivity.
Qed.

(** X5. However many dispatchers are constructed, the warning about a
    backend other than fetch on the server is written at most once: it is
    written by the first construction that is in dev mode, on the server,
    with a backend that is neither a [FetchBackend] nor a testing backend,
    and by no later one; if it has been written before, none writes it.
    [resetFetchBackendWarningFlag] makes the next such construction write
    it again. *)
Theorem X5_fetch_warning_at_most_once (cs : list Construction) (g : Globals) :
  constructions cs g
  = (if negb (fetchBackendWarningDisplayed g) && existsb warrants_warning cs
     then {| fetchBackendWarningDisplayed := true
           ; warnings := warnings g ++ [NOT_USING_FETCH_BACKEND_IN_SSR] |}
     else g)
  /\ length (warnings (constructions cs g)) <= S (length (warnings g))
  /\ warnings (constructions cs (resetFetchBackendWarningFlag (constructions cs g)))
     = warnings (constructions cs g)
       ++ (if existsb warrants_warning cs then [NOT_USING_FETCH_BACKEND_IN_SSR] else []).
Proof.
  assert (Hmain : forall cs g,
            constructions cs g
            = if negb (fetchBackendWarningDisplayed g) && existsb warrants_warning cs
              then {| fetchBackendWarningDisplayed := true
                    ; warnings := warnings g ++ [NOT_USING_FETCH_BACKEND_IN_SSR] |}
              else g).
  { clear. induction cs as [|c cs IH]; intros g.
    - cbn. now rewrite andb_false_r.
    - destruct (fetchBackendWarningDisplayed g) eqn:Hg.
      + cbn [negb andb]. now apply constructions_displayed.
      + unfold constructions in *. cbn [fold_left existsb negb andb].
        rewrite constructor_fresh by exact Hg.
        destruct (warrants_warning c); cbn [orb].
        * now apply (constructions_displayed cs).
        * rewrite IH, Hg. reflexivity. }
  split; [apply Hmain|]. split.
  - rewrite Hmain.
    destruct (negb (fetchBackendWarningDisplayed g) && existsb warrants_warning cs);
      cbn [warnings]; [rewrite length_app; cbn; lia | lia].
  - rewrite (Hmain cs (resetFetchBackendWarningFlag _)).
    cbn [resetFetchBackendWarningFlag fetchBackendWarningDisplayed negb andb warnings].
    destruct (existsb warrants_warning cs); [reflexivity|].
    cbn [resetFetchBackendWarningFlag warnings]. now rewrite app_nil_r.
Qed.

End FetchWarningFacts.

(** ** The single-shot dispatcher: who receives the events *)

Section SingleShotDelivery.
Import SingleShot.
Variable heap : Ref -> HttpInterceptorFn.

(** Values delivered to the recording callback are kept in order. *)
Lemma deliver_recording vs : forall w,
  deliver (Some (fun event => recording event)) vs w
  = (Fulfilled tt,
     {| index := index w
      ; trace := trace w ++ map Delivered vs
      ; promises := promises w
      ; pendingTasks := pendingTasks w |}).
Proof.
  induction vs as [|v vs IH]; intros w.
  - cbn. unfold ret. rewrite app_nil_r. now destruct w.
  - cbn [deliver call map]. unfold bind, recording, log at 1.
    rewrite IH. cbn [index trace promises pendingTasks add_trace].
    now rewrite <- app_assoc.
Qed.

(** A backend that has something to deliver and no callback. *)
Lemma deliver_without_callback v vs w :
  deliver None (v :: vs) w
  = (Rejected (TypeError "onEvent is not a function"), w).
Proof. reflexivity. Qed.

(** The run through pass-through entries, asking only the entries still to
    come to be pass-through entries. *)
Lemma next_passThroughEvent_run_from (this : HttpInterceptorHandler)
    (d : list Ref) (f : Ref -> HttpRequest -> HttpRequest) :
  forall suf pre req onEvent w fuel,
    (forall r, In r suf -> heap r = passThroughEvent r (f r)) ->
    d = pre ++ suf ->
    (index w + 1 = Z.of_nat (length pre))%Z ->
    length suf <= fuel ->
    next heap this d fuel req onEvent w
    = backend this (fold_left (fun q r => f r q) suf req)
        (match suf with [] => onEvent | _ => None end)
        {| index := Z.of_nat (length d)
         ; trace := trace w ++ interceptions f suf req
         ; promises := promises w
         ; pendingTasks := pendingTasks w |}.
Proof.
  induction suf as [|r suf IH]; intros pre req onEvent w fuel Hheap Hd Hi Hfuel.
  - rewrite app_nil_r in Hd. subst pre.
    rewrite next_reaches_backend by lia.
    cbn [fold_left interceptions]. rewrite app_nil_r.
    unfold set_index. now rewrite Hi.
  - destruct fuel as [|fuel]; [simpl in Hfuel; lia|].
    assert (Hr : array_get d (index w + 1) = Some r).
    { rewrite Hi, Hd. apply array_get_app. }
    rewrite (next_dispatches_entry _ _ _ _ _ _ _ Hr).
    rewrite Hheap by now left.
    unfold passThroughEvent. cbn [fold_left interceptions].
    unfold bind at 1. unfold log at 1.
    rewrite (IH (pre ++ [r]) (f r req) None _ fuel).
    + cbn [index trace promises pendingTasks add_trace set_index].
      rewrite <- app_assoc. cbn [app].
      assert (Hnone : match suf with [] => @None Callback | _ :: _ => None end = None)
        by (destruct suf; reflexivity).
      now rewrite Hnone.
    + intros r' Hr'. apply Hheap. now right.
    + rewrite Hd, <- app_assoc. reflexivity.
    + cbn [index add_trace set_index]. rewrite length_app. cbn [length]. lia.
    + simpl in Hfuel. lia.
Qed.

(** X6. Without interceptors, [handle] calls the backend with the request
    and the caller's callback: the caller is given every value the backend
    delivers, in order, and [handle] settles as the backend does. *)
Theorem X6_no_interceptors_passes_events
    (vs : list JsVal) (outcome : Settled unit)
    (req : HttpRequest) (w : World) :
  handle heap
    {| injector := {| HTTP_INTERCEPTOR_FNS := []; HTTP_ROOT_INTERCEPTOR_FNS := [] |}
     ; backend := scriptedBackend vs outcome |}
    req recording w
  = (outcome,
     {| index := 0
      ; trace := trace w ++ BackendCalled req true :: map Delivered vs
      ; promises := promises w
      ; pendingTasks := pendingTasks w |}).
Proof.
  unfold handle. cbn [injector HTTP_INTERCEPTOR_FNS HTTP_ROOT_INTERCEPTOR_FNS app].
  change (Dedupe.dedupedInterceptorFns Nat.eq_dec [] []) with (@nil nat).
  cbn [length next]. cbn [index set_index Z.add Z.ltb Z.of_nat Z.compare Pos.add Z.pos_sub].
  unfold bind at 1. cbn [backend]. unfold scriptedBackend.
  unfold bind at 1 2. unfold log at 1.
  rewrite deliver_recording.
  cbn [index trace promises pendingTasks add_trace set_index].
  rewrite <- app_assoc. cbn [app].
  unfold settles, ret. destruct outcome as [[]|e]; reflexivity.
Qed.

(** X7. With at least one interceptor, all of them entries that pass the
    request on, and a backend that has a value to deliver, nothing reaches
    the caller: the entries run in order, the backend is called once on the
    request as changed by all of them, and without a callback; [handle] is
    rejected with a TypeError. *)
Theorem X7_events_lost_behind_interceptors
    (this : HttpInterceptorHandler) (f : Ref -> HttpRequest -> HttpRequest)
    (r0 : Ref) (rest : list Ref) (v : JsVal) (vs : list JsVal)
    (outcome : Settled unit) (req : HttpRequest) (w : World)
    (Hentries : Dedupe.dedupedInterceptorFns Nat.eq_dec
                  (HTTP_INTERCEPTOR_FNS (injector this))
                  (HTTP_ROOT_INTERCEPTOR_FNS (injector this)) = r0 :: rest)
    (Hheap : forall r, In r (r0 :: rest) -> heap r = passThroughEvent r (f r))
    (Hbackend : backend this = scriptedBackend (v :: vs) outcome) :
  handle heap this req recording w
  = (Rejected (TypeError "onEvent is not a function"),
     {| index := Z.of_nat (length (r0 :: rest))
      ; trace := trace w ++ interceptions f (r0 :: rest) req
                 ++ [BackendCalled (fold_left (fun q r => f r q) (r0 :: rest) req) false]
      ; promises := promises w
      ; pendingTasks := pendingTasks w |}).
Proof.
  unfold handle. rewrite Hentries. unfold bind at 1.
  rewrite (@next_passThroughEvent_run_from this (r0 :: rest) f (r0 :: rest) []
             req _ (set_index (-1) w) (length (r0 :: rest)) Hheap eq_refl eq_refl (le_n _)).
  rewrite Hbackend. unfold scriptedBackend.
  unfold bind at 1 2. unfold log at 1.
  rewrite deliver_without_callback.
  unfold add_trace. cbn [index trace promises pendingTasks].
  now rewrite <- app_assoc.
Qed.

(** X8. When the first entry is a function [(req, next) => next(f(req))],
    the entries after it pass the request on and the backend delivers
    nothing, the caller's callback is called once, at the end, with what
    awaiting the first entry gave: [undefined]. *)
Theorem X8_first_entry_result_is_delivered
    (this : HttpInterceptorHandler) (f : Ref -> HttpRequest -> HttpRequest)
    (r0 : Ref) (rest : list Ref) (req : HttpRequest) (w : World)
    (Hentries : Dedupe.dedupedInterceptorFns Nat.eq_dec
                  (HTTP_INTERCEPTOR_FNS (injector this))
                  (HTTP_ROOT_INTERCEPTOR_FNS (injector this)) = r0 :: rest)
    (Hfirst : heap r0 = passThrough r0 (f r0))
    (Hrest : forall r, In r rest -> heap r = passThroughEvent r (f r))
    (Hbackend : backend this = scriptedBackend [] (Fulfilled tt)) :
  handle heap this req recording w
  = (Fulfilled tt,
     {| index := Z.of_nat (length (r0 :: rest))
      ; trace := trace w ++ interceptions f (r0 :: rest) req
                 ++ [BackendCalled (fold_left (fun q r => f r q) (r0 :: rest) req) false;
                     Delivered Undefined]
      ; promises := promises w
      ; pendingTasks := pendingTasks w |}).
Proof.
  unfold handle. rewrite Hentries. unfold bind at 1.
  assert (Hr : array_get (r0 :: rest) (index (set_index (-1) w) + 1) = Some r0)
    by reflexivity.
  cbn [length].
  rewrite (next_dispatches_entry _ _ _ _ _ _ _ Hr), Hfirst.
  unfold passThrough. unfold bind at 1 2 3. unfold log at 1.
  unfold Ref in *.
  rewrite (@next_passThroughEvent_run_from this (r0 :: rest) f rest [r0]
             (f r0 req) None
             (add_trace (Intercepted r0 req)
                (set_index (index (set_index (-1) w) + 1) (set_index (-1) w)))
             (length rest) Hrest eq_refl eq_refl (le_n _)).
  rewrite Hbackend. unfold scriptedBackend.
  clear Hrest Hentries Hr.
  destruct rest as [|r1 rest];
    unfold bind, log, ret, call, recording; cbn [deliver];
    unfold ret, log, settles, add_trace, set_index;
    cbn [index trace promises pendingTasks interceptions fold_left];
    rewrite <- !app_assoc; reflexivity.
Qed.

End SingleShotDelivery.

(** X7 on two forwarding entries, one registered twice, over a backend that
    answers. *)
Lemma X7_events_lost_behind_interceptors_witness :
  let rq := Samples.GET "/a" in
  SingleShot.handle Samples.Promise.forwarding
    (Samples.Promise.handler [0; 1] [1] Samples.Promise.okBackend) rq
    SingleShot.recording SingleShot.emptyWorld
  = (SingleShot.Rejected (SingleShot.TypeError "onEvent is not a function"),
     {| SingleShot.index := 2
      ; SingleShot.trace :=
          [SingleShot.Intercepted 0 rq; SingleShot.Intercepted 1 rq;
           SingleShot.BackendCalled rq false]
      ; SingleShot.promises := []
      ; SingleShot.pendingTasks := Samples.noTasks |}).
Proof.
  intros rq.
  rewrite (@X7_events_lost_behind_interceptors Samples.Promise.forwarding
             (Samples.Promise.handler [0; 1] [1] Samples.Promise.okBackend)
             (fun _ req => req) 0 [1]
             (SingleShot.Event (Response 200 "from the backend")) []
             (SingleShot.Fulfilled tt) rq SingleShot.emptyWorld
             eq_refl (fun r _ => eq_refl) eq_refl).
  reflexivity.
Defined.

(** X8 on a delegating function followed by two forwarding entries. *)
Lemma X8_first_entry_result_is_delivered_witness :
  let rq := Samples.GET "/a" in
  SingleShot.handle Samples.Promise.shortCircuiting
    (Samples.Promise.handler [0; 2] [3] Samples.Promise.silentBackend) rq
    SingleShot.recording SingleShot.emptyWorld
  = (SingleShot.Fulfilled tt,
     {| SingleShot.index := 3
      ; SingleShot.trace :=
          [SingleShot.Intercepted 0 rq; SingleShot.Intercepted 2 rq;
           SingleShot.Intercepted 3 rq; SingleShot.BackendCalled rq false;
           SingleShot.Delivered SingleShot.Undefined]
      ; SingleShot.promises := []
      ; SingleShot.pendingTasks := Samples.noTasks |}).
Proof.
  intros rq.
  assert (Hrest : forall r, In r [2; 3] ->
            Samples.Promise.shortCircuiting r
            = SingleShot.passThroughEvent r ((fun _ req => req) r)).
  { intros r [<-|[<-|[]]]; reflexivity. }
  rewrite (@X8_first_entry_result_is_delivered Samples.Promise.shortCircuiting
             (Samples.Promise.handler [0; 2] [3] Samples.Promise.silentBackend)
             (fun _ req => req) 0 [2; 3] rq SingleShot.emptyWorld
             eq_refl eq_refl Hrest eq_refl).
  reflexivity.
Defined.

(** ** Digit information *)

Section DigitInfoFacts.
Import DigitInfo.
Local Open Scope string_scope.

Lemma isDigit_cases c :
  isDigit c = true ->
  In c ["0"; "1"; "2"; "3"; "4"; "5"; "6"; "7"; "8"; "9"]%char.
Proof.
  destruct c as [[] [] [] [] [] [] [] []]; vm_compute; intros H;
    try discriminate H; tauto.
Qed.

Lemma span_digits_spec s : forall ds r,
  span_digits s = (ds, r) ->
  s = ds ++ r
  /\ allDigits ds = true
  /\ match r with String c _ => isDigit c = false | EmptyString => True end.
Proof.
  induction s as [|c s IH]; intros ds r H; cbn [span_digits] in H.
  - inversion H. auto.
  - destruct (isDigit c) eqn:Hc.
    + destruct (span_digits s) as [ds' r'] eqn:Hs. inversion H; subst.
      destruct (IH _ _ eq_refl) as (-> & Hd & Hr).
      cbn [allDigits append]. rewrite Hc, Hd. auto.
    + inversion H; subst. cbn. auto.
Qed.

Lemma span_digits_app ds : forall r,
  allDigits ds = true ->
  match r with String c _ => isDigit c = false | EmptyString => True end ->
  span_digits (ds ++ r) = (ds, r).
Proof.
  induction ds as [|c ds IH]; intros r Hd Hr.
  - cbn [append]. destruct r as [|c r]; [reflexivity|].
    cbn [span_digits]. now rewrite Hr.
  - cbn [allDigits] in Hd. apply andb_true_iff in Hd as [Hc Hd].
    cbn [append span_digits]. rewrite Hc, (IH r Hd Hr). reflexivity.
Qed.

Lemma group_spec ds :
  allDigits ds = true ->
  nonEmptyDigits (group ds) = true
  /\ match group ds with Some i => i | None => "" end = ds.
Proof. destruct ds; cbn; auto. Qed.

Lemma append_empty_r s : s ++ "" = s.
Proof. induction s as [|c s IH]; cbn; [reflexivity | now rewrite IH]. Qed.

(** The regular expression and [render] are inverse to each other. *)
Lemma match_NUMBER_FORMAT_REGEXP_sound s p :
  match_NUMBER_FORMAT_REGEXP s = Some p -> wellFormed p = true /\ s = render p.
Proof.
  unfold match_NUMBER_FORMAT_REGEXP.
  destruct (span_digits s) as [g1 r1] eqn:H1.
  destruct (span_digits_spec _ H1) as (-> & Hg1 & _).
  destruct (group_spec _ Hg1) as [Hn1 Hr1].
  destruct r1 as [|c r1]; [discriminate|].
  destruct (Ascii.eqb c ".") eqn:Hc;
    [apply Ascii.eqb_eq in Hc; subst c
    |destruct c as [[] [] [] [] [] [] [] []]; try discriminate; discriminate Hc].
  destruct r1 as [|c2 r2].
  - intros H. inversion H; subst. unfold wellFormed, render. cbn.
    rewrite Hn1, Hr1. auto.
  - destruct (span_digits (String c2 r2)) as [g3 r3] eqn:H3.
    destruct (span_digits_spec _ H3) as (E3 & Hg3 & _). rewrite E3.
    destruct g3 as [|c3 g3]; [discriminate|].
    destruct r3 as [|c4 r4].
    + intros H. inversion H; subst. unfold wellFormed, render.
      cbn [minIntPart minFractionPart maxFractionPart nonEmptyDigits].
      rewrite Hn1, Hr1, Hg3, append_empty_r. auto.
    + destruct (Ascii.eqb c4 "-") eqn:Hc4;
        [apply Ascii.eqb_eq in Hc4; subst c4
        |destruct c4 as [[] [] [] [] [] [] [] []]; try discriminate; discriminate Hc4].
      destruct (span_digits r4) as [g5 r5] eqn:H5.
      destruct (span_digits_spec _ H5) as (-> & Hg5 & _).
      destruct g5 as [|c5 g5]; [discriminate|].
      destruct r5; [|discriminate].
      intros H. inversion H; subst. unfold wellFormed, render.
      cbn [minIntPart minFractionPart maxFractionPart nonEmptyDigits].
      rewrite Hn1, Hr1, Hg3, Hg5, append_empty_r. auto.
Qed.

Lemma match_NUMBER_FORMAT_REGEXP_complete p :
  wellFormed p = true -> match_NUMBER_FORMAT_REGEXP (render p) = Some p.
Proof.
  destruct p as [i mn mx]. unfold wellFormed, render, match_NUMBER_FORMAT_REGEXP.
  cbn [minIntPart minFractionPart maxFractionPart].
  intros H. apply andb_true_iff in H as [H Hmx'].
  apply andb_true_iff in H as [H Hmx]. apply andb_true_iff in H as [Hi Hmn].
  assert (Hspan : forall rest,
            span_digits (match i with Some i => i | None => "" end ++ String "." rest)
            = (match i with Some i => i | None => "" end, String "." rest)
            /\ group (match i with Some i => i | None => "" end) = i).
  { intros rest. destruct i as [[|c i]|]; cbn [nonEmptyDigits] in Hi;
      try discriminate; (split; [|reflexivity]).
    - apply span_digits_app; [exact Hi | reflexivity].
    - reflexivity. }
  destruct mn as [[|c mn]|]; cbn [nonEmptyDigits] in Hmn; try discriminate.
  - destruct (Hspan (String c mn ++ match mx with
                                     | Some mx => String "-" mx
                                     | None => ""
                                     end)) as [-> ->].
    cbn [append].
    destruct mx as [[|c' mx]|]; cbn [nonEmptyDigits] in Hmx; try discriminate.
    + change (String c (mn ++ String "-" (String c' mx)))
        with (String c mn ++ String "-" (String c' mx)).
      rewrite (span_digits_app (String c mn) (String "-" (String c' mx)) Hmn eq_refl).
      rewrite <- (append_empty_r (String c' mx)) at 1.
      rewrite (span_digits_app (String c' mx) "" Hmx I). reflexivity.
    + rewrite append_empty_r.
      rewrite <- (append_empty_r (String c mn)) at 1.
      rewrite (span_digits_app (String c mn) "" Hmn I). reflexivity.
  - destruct mx; [discriminate|].
    destruct (Hspan "") as [-> ->]. reflexivity.
Qed.

Lemma digitValue_digit c :
  isDigit c = true -> exists k, digitValue 10 c = Some k /\ (0 <= k < 10)%Z.
Proof.
  intros H. apply isDigit_cases in H.
  repeat (destruct H as [<-|H]; [eexists; split; [vm_compute; reflexivity|lia]|]).
  destruct H.
Qed.

Lemma readDigits_allDigits s : forall acc seen,
  allDigits s = true -> (0 <= acc)%Z -> seen = true \/ s <> "" ->
  exists v, readDigits 10 s acc seen = Some v /\ (0 <= v)%Z.
Proof.
  induction s as [|c s IH]; intros acc seen Hd Hacc Hs.
  - destruct Hs as [->|Hs]; [|congruence]. exists acc. auto.
  - cbn [allDigits] in Hd. apply andb_true_iff in Hd as [Hc Hd].
    destruct (digitValue_digit _ Hc) as (k & Hk & Hrange).
    cbn [readDigits]. rewrite Hk. apply IH; [exact Hd | lia | now left].
Qed.

Lemma plus_sign (o : option Z) :
  match o with Some v => Some (1 * v)%Z | None => None end = o.
Proof. destruct o as [v|]; [now destruct v | reflexivity]. Qed.

Lemma parseInt_allDigits s :
  allDigits s = true -> s <> "" -> parseInt s = readDigits 10 s 0 false.
Proof.
  destruct s as [|c s]; [congruence|]. intros Hd _.
  cbn [allDigits] in Hd. apply andb_true_iff in Hd as [Hc Hd].
  apply isDigit_cases in Hc.
  destruct Hc as [<-|Hc].
  - destruct s as [|c2 s]; [reflexivity|].
    cbn [allDigits] in Hd. apply andb_true_iff in Hd as [Hc2 _].
    apply isDigit_cases in Hc2.
    repeat (destruct Hc2 as [<-|Hc2]; [exact (plus_sign _)|]). destruct Hc2.
  - repeat (destruct Hc as [<-|Hc]; [exact (plus_sign _)|]). destruct Hc.
Qed.

Lemma parsePart_digits part :
  nonEmptyDigits part = true ->
  exists r, parsePart part = Ok r
            /\ match part, r with
               | Some text, Some n => parseInt text = Some n /\ (0 <= n)%Z
               | None, None => True
               | _, _ => False
               end.
Proof.
  destruct part as [text|]; [|exists None; auto].
  intros H. assert (Hne : text <> "") by (destruct text; [discriminate|congruence]).
  assert (Hd : allDigits text = true) by (destruct text; [discriminate|exact H]).
  destruct (@readDigits_allDigits text 0%Z false Hd (Z.le_refl 0) (or_intror Hne))
    as (v & Hv & Hpos).
  exists (Some v). unfold parsePart, parseIntAutoRadix.
  rewrite (parseInt_allDigits Hd Hne), Hv. auto.
Qed.

(** The two ways [parseDigitInfo] goes on a non-empty string. *)
Lemma parseDigitInfo_cases s :
  s <> "" ->
  (match_NUMBER_FORMAT_REGEXP s = None
   /\ parseDigitInfo (Some s) = Throw (NotAValidDigitInfo s))
  \/ exists p mi mf mx,
       match_NUMBER_FORMAT_REGEXP s = Some p
       /\ wellFormed p = true /\ s = render p
       /\ reads (minIntPart p) mi
       /\ reads (minFractionPart p) mf
       /\ reads (maxFractionPart p) mx
       /\ parseDigitInfo (Some s)
          = Ok {| minimumIntegerDigits := atLeastOne mi
                ; minimumFractionDigits := mf
                ; maximumFractionDigits := mx |}.
Proof.
  intros Hs. unfold parseDigitInfo.
  destruct s as [|c0 s0]; [congruence|]. set (s := String c0 s0) in *.
  destruct (match_NUMBER_FORMAT_REGEXP s) as [p|] eqn:Hm; [right|left; auto].
  destruct (match_NUMBER_FORMAT_REGEXP_sound _ Hm) as [Hwf Hrender].
  pose proof Hwf as Hwf'. unfold wellFormed in Hwf'.
  apply andb_true_iff in Hwf' as [H Hboth].
  apply andb_true_iff in H as [H Hmx]. apply andb_true_iff in H as [Hi Hmn].
  destruct (parsePart_digits _ Hi) as (mi & Emi & Rmi).
  destruct (parsePart_digits _ Hmn) as (mf & Emf & Rmf).
  destruct (parsePart_digits _ Hmx) as (mx & Emx & Rmx).
  exists p, mi, mf, mx. rewrite Emi, Emf.
  split; [reflexivity|]. split; [exact Hwf|]. split; [exact Hrender|].
  split; [exact Rmi|]. split; [exact Rmf|]. split; [exact Rmx|].
  destruct (maxFractionPart p) as [text|] eqn:Ep.
  - unfold parsePart in Emx. destruct (parseIntAutoRadix text); [|discriminate].
    inversion Emx; subst. reflexivity.
  - destruct mx; [destruct Rmx|].
    destruct (minFractionPart p), mf; reflexivity.
Qed.

Lemma allDigits_string_of_uint d :
  allDigits (DecimalString.NilEmpty.string_of_uint d) = true.
Proof. induction d; cbn; auto. Qed.

Lemma decimal_digits n :
  allDigits (decimal n) = true /\ decimal n <> "".
Proof.
  unfold decimal, DecimalString.NilZero.string_of_uint.
  destruct (Nat.to_uint n) eqn:E;
    (split; [try reflexivity; apply (allDigits_string_of_uint) | cbn; discriminate]).
Qed.

Lemma readDigits_string_of_uint d : forall acc seen,
  readDigits 10 (DecimalString.NilEmpty.string_of_uint d) (Z.of_nat acc) seen
  = match d with
    | Decimal.Nil => if seen then Some (Z.of_nat acc) else None
    | _ => Some (Z.of_nat (Nat.of_uint_acc d acc))
    end.
Proof.
  induction d as [|d IH|d IH|d IH|d IH|d IH|d IH|d IH|d IH|d IH|d IH];
    intros acc seen; [reflexivity|..];
    cbn [DecimalString.NilEmpty.string_of_uint readDigits Nat.of_uint_acc];
    match goal with |- context [digitValue 10 ?c] =>
      change (digitValue 10 c) with (Some (Z.of_nat (nat_of_ascii c) - 48)%Z) end;
    cbv iota;
    match goal with |- readDigits 10 _ ?a true = _ =>
      match goal with |- context [Nat.of_uint_acc d ?n] =>
        replace a with (Z.of_nat n)
          by (rewrite Nat.tail_mul_spec; cbn [nat_of_ascii]; vm_compute nat_of_ascii; lia)
      end
    end;
    rewrite IH; destruct d; reflexivity.
Qed.

Lemma parseInt_decimal n : parseInt (decimal n) = Some (Z.of_nat n).
Proof.
  destruct (decimal_digits n) as [Hd Hne].
  rewrite (parseInt_allDigits Hd Hne).
  unfold decimal, DecimalString.NilZero.string_of_uint.
  pose proof (DecimalNat.Unsigned.of_to n) as Hn. unfold Nat.of_uint in Hn.
  destruct (Nat.to_uint n) eqn:E;
    [cbn in Hn; subst n; reflexivity|..];
    change 0%Z with (Z.of_nat 0); rewrite readDigits_string_of_uint;
    now rewrite Hn.
Qed.

(** X9. [parseDigitInfo] throws on exactly the non-empty strings that are
    not of the form [{digits}.{digits}-{digits}] with the integer part, the
    fraction parts, or the maximum left out: every such string makes it
    throw, and nothing else does.  What it throws is always "is not a valid
    digit info", never "Invalid integer literal".  An absent or empty digit
    information is accepted and gives no digits at all. *)
Theorem X9_parseDigitInfo_accepts (digitsInfo : option string) :
  (forall e,
     parseDigitInfo digitsInfo = Throw e ->
     exists s,
       digitsInfo = Some s /\ s <> "" /\ e = NotAValidDigitInfo s
       /\ forall p, wellFormed p = true -> render p <> s)
  /\ (forall s,
        digitsInfo = Some s -> s <> "" ->
        (forall p, wellFormed p = true -> render p <> s) ->
        parseDigitInfo digitsInfo = Throw (NotAValidDigitInfo s))
  /\ (forall p,
        wellFormed p = true ->
        exists d, parseDigitInfo (Some (render p)) = Ok d)
  /\ parseDigitInfo None = parseDigitInfo (Some "")
  /\ parseDigitInfo None = Ok (mkDigits None None None).
Proof.
  split; [|split; [|split; [|split; reflexivity]]].
  - intros e He. destruct digitsInfo as [s|]; [|discriminate].
    destruct (string_dec s "") as [->|Hs]; [discriminate|].
    exists s. destruct (parseDigitInfo_cases Hs) as [[Hm Ht]|H].
    + rewrite Ht in He. inversion He; subst.
      repeat split; auto.
      intros p Hp Hr. rewrite <- Hr, (match_NUMBER_FORMAT_REGEXP_complete _ Hp) in Hm.
      discriminate.
    + destruct H as (p & mi & mf & mx & _ & _ & _ & _ & _ & _ & Hok).
      rewrite Hok in He. discriminate.
  - intros s -> Hs Hmalformed.
    destruct (parseDigitInfo_cases Hs) as [[_ Ht]|H]; [exact Ht|].
    destruct H as (p & mi & mf & mx & _ & Hwf & Hrender & _).
    exfalso. apply (Hmalformed p Hwf). now symmetry.
  - intros p Hp.
    assert (Hs : render p <> "").
    { unfold render. destruct (minIntPart p) as [[|]|]; cbn; discriminate. }
    destruct (parseDigitInfo_cases Hs) as [[Hm _]|H].
    + rewrite (match_NUMBER_FORMAT_REGEXP_complete _ Hp) in Hm. discriminate.
    + destruct H as (p' & mi & mf & mx & _ & _ & _ & _ & _ & _ & Hok). eauto.
Qed.

(** X10. Digit information written from three numbers of at most 2^53,
    which a double holds exactly, reads back as those numbers, except that
    a minimum of 0 integer digits becomes 1.  The minimum number of
    fraction digits may exceed the maximum: both are handed on as written.
    Without a maximum none is given, whatever the minimum is. *)
Theorem X10_parseDigitInfo_reads_back (a b c : nat)
    (Ha : (Z.of_nat a <= 2 ^ 53)%Z)
    (Hb : (Z.of_nat b <= 2 ^ 53)%Z)
    (Hc : (Z.of_nat c <= 2 ^ 53)%Z) :
  let i := Some (if (a =? 0)%nat then 1%Z else Z.of_nat a) in
  parseDigitInfo (Some (decimal a ++ "." ++ decimal b ++ "-" ++ decimal c))
  = Ok (mkDigits i (Some (Z.of_nat b)) (Some (Z.of_nat c)))
  /\ parseDigitInfo (Some (decimal a ++ "." ++ decimal b))
     = Ok (mkDigits i (Some (Z.of_nat b)) None)
  /\ parseDigitInfo (Some (decimal a ++ "."))
     = Ok (mkDigits i None None)
  /\ parseDigitInfo (Some ("." ++ decimal b ++ "-" ++ decimal c))
     = Ok (mkDigits None (Some (Z.of_nat b)) (Some (Z.of_nat c))).
Proof.
  intros i.
  assert (Hpart : forall n, nonEmptyDigits (Some (decimal n)) = true).
  { intros n. destruct (decimal_digits n) as [Hd Hne]. cbn.
    destruct (decimal n); [congruence | exact Hd]. }
  assert (Hgo : forall p mi mf mx,
            wellFormed p = true ->
            reads (minIntPart p) mi -> reads (minFractionPart p) mf ->
            reads (maxFractionPart p) mx ->
            parseDigitInfo (Some (render p))
            = Ok (mkDigits (atLeastOne mi) mf mx)).
  { intros p mi mf mx Hp Rmi Rmf Rmx.
    assert (Hs : render p <> "").
    { unfold render. destruct (minIntPart p) as [[|]|]; cbn; discriminate. }
    destruct (parseDigitInfo_cases Hs) as [[Hm _]|H].
    - rewrite (match_NUMBER_FORMAT_REGEXP_complete _ Hp) in Hm. discriminate.
    - destruct H as (p' & mi' & mf' & mx' & Hm & _ & _ & Rmi' & Rmf' & Rmx' & Hok).
      rewrite (match_NUMBER_FORMAT_REGEXP_complete _ Hp) in Hm.
      inversion Hm; subst p'. rewrite Hok.
      assert (Hsame : forall part r r', reads part r -> reads part r' -> r = r').
      { intros [t|] [n|] [n'|]; cbn; try tauto.
        intros [E _] [E' _]. congruence. }
      now rewrite (Hsame _ _ _ Rmi Rmi'), (Hsame _ _ _ Rmf Rmf'),
        (Hsame _ _ _ Rmx Rmx'). }
  assert (Hread : forall n, reads (Some (decimal n)) (Some (Z.of_nat n))).
  { intros n. cbn. split; [apply parseInt_decimal | lia]. }
  assert (Hi : atLeastOne (Some (Z.of_nat a)) = i).
  { unfold i. destruct a; reflexivity. }
  assert (Hwf : forall x y z,
            match y, z with None, Some _ => False | _, _ => True end ->
            wellFormed
              (mkParts (option_map decimal x) (option_map decimal y)
                 (option_map decimal z)) = true).
  { intros x y z Hyz. unfold wellFormed.
    cbn [minIntPart minFractionPart maxFractionPart].
    destruct x, y, z; cbn [option_map]; rewrite ?Hpart; try reflexivity;
      destruct Hyz. }
  repeat split.
  - rewrite <- Hi.
    apply (Hgo (mkParts (Some (decimal a)) (Some (decimal b)) (Some (decimal c))));
      [apply (Hwf (Some a) (Some b) (Some c) I) | apply Hread ..].
  - rewrite <- Hi.
    replace (decimal a ++ "." ++ decimal b)
      with (render (mkParts (Some (decimal a)) (Some (decimal b)) None))
      by (unfold render; cbn; now rewrite append_empty_r).
    apply Hgo; [apply (Hwf (Some a) (Some b) None I) | apply Hread .. | exact I].
  - rewrite <- Hi.
    apply (Hgo (mkParts (Some (decimal a)) None None));
      [apply (Hwf (Some a) None None I) | apply Hread | exact I ..].
  - apply (Hgo (mkParts None (Some (decimal b)) (Some (decimal c))) None);
      [apply (Hwf None (Some b) (Some c) I) | exact I | apply Hread ..].
Qed.

(** X11. Whatever [parseDigitInfo] returns, no number in it is negative,
    the minimum number of integer digits is not 0, and there is a maximum
    number of fraction digits only where there is a minimum. *)
Theorem X11_parseDigitInfo_result (digitsInfo : option string) (d : Digits)
    (Hok : parseDigitInfo digitsInfo = Ok d) :
  minimumIntegerDigits d <> Some 0%Z
  /\ (forall n,
        In (Some n) [minimumIntegerDigits d; minimumFractionDigits d;
                     maximumFractionDigits d] -> (0 <= n)%Z)
  /\ (maximumFractionDigits d <> None -> minimumFractionDigits d <> None).
Proof.
  assert (Hnone : forall d', Ok (mkDigits None None None) = Ok d' ->
            minimumIntegerDigits d' <> Some 0%Z
            /\ (forall n,
                  In (Some n) [minimumIntegerDigits d'; minimumFractionDigits d';
                               maximumFractionDigits d'] -> (0 <= n)%Z)
            /\ (maximumFractionDigits d' <> None -> minimumFractionDigits d' <> None)).
  { intros d' H. inversion H; subst. cbn. repeat split; try discriminate.
    - intros n [H'|[H'|[H'|[]]]]; discriminate.
    - congruence. }
  destruct digitsInfo as [s|]; [|now apply Hnone].
  destruct (string_dec s "") as [->|Hs]; [now apply Hnone|].
  destruct (parseDigitInfo_cases Hs) as [[_ Ht]|H]; [congruence|].
  destruct H as (p & mi & mf & mx & _ & Hwf & _ & Rmi & Rmf & Rmx & Hd).
  rewrite Hd in Hok. inversion Hok; subst d.
  cbn [minimumIntegerDigits minimumFractionDigits maximumFractionDigits].
  assert (Hpos : forall part r n, reads part r -> r = Some n -> (0 <= n)%Z).
  { intros [t|] [m|] n; cbn; try tauto; try discriminate.
    intros [_ H] E. inversion E; subst. exact H. }
  split; [|split].
  - destruct mi as [[| |]|]; cbn; discriminate.
  - intros n [H|[H|[H|[]]]].
    + destruct mi as [[| |]|]; cbn in H; inversion H; subst;
        try lia; eapply Hpos; [exact Rmi | reflexivity].
    + eapply Hpos; [exact Rmf | exact H].
    + eapply Hpos; [exact Rmx | exact H].
  - intros Hmx Hmf. subst mf.
    destruct mx as [n|]; [|congruence].
    unfold wellFormed in Hwf.
    destruct (minFractionPart p), (maxFractionPart p); cbn in Rmf, Rmx;
      try tauto.
    rewrite !andb_false_r in Hwf. discriminate.
Qed.

End DigitInfoFacts.

(** X11 on ["0.2-1"]: the minimum of integer digits is 1, the fraction
    digits stay as written. *)
Lemma X11_parseDigitInfo_result_witness :
  DigitInfo.parseDigitInfo (Some "0.2-1"%string)
  = DigitInfo.Ok (DigitInfo.mkDigits (Some 1%Z) (Some 2%Z) (Some 1%Z))
  /\ DigitInfo.minimumIntegerDigits
       (DigitInfo.mkDigits (Some 1%Z) (Some 2%Z) (Some 1%Z)) <> Some 0%Z.
Proof.
  split; [reflexivity|].
  exact (proj1 (@X11_parseDigitInfo_result (Some "0.2-1"%string) _ eq_refl)).
Defined.

(** X9 on ["1,2"], which has no dot, and on the parts of ["3.1-2"]. *)
Lemma X9_parseDigitInfo_accepts_witness :
  DigitInfo.parseDigitInfo (Some "1,2"%string)
  = DigitInfo.Throw (DigitInfo.NotAValidDigitInfo "1,2")
  /\ exists d,
       DigitInfo.parseDigitInfo
         (Some (DigitInfo.render
                  (DigitInfo.mkParts (Some "3") (Some "1") (Some "2"))%string))
       = DigitInfo.Ok d.
Proof.
  split.
  - destruct (@X9_parseDigitInfo_accepts (Some "1,2"%string)) as (_ & H & _).
    apply (H "1,2"%string eq_refl); [discriminate|].
    intros p Hp Hr.
    pose proof (match_NUMBER_FORMAT_REGEXP_complete p Hp) as Hm.
    rewrite Hr in Hm. discriminate Hm.
  - destruct (@X9_parseDigitInfo_accepts None) as (_ & _ & H & _).
    exact (H (DigitInfo.mkParts (Some "3") (Some "1") (Some "2"))%string eq_refl).
Defined.

(** X10 on ["0.2-1"]. *)
Lemma X10_parseDigitInfo_reads_back_witness :
  DigitInfo.parseDigitInfo (Some "0.2-1"%string)
  = DigitInfo.Ok (DigitInfo.mkDigits (Some 1%Z) (Some 2%Z) (Some 1%Z)).
Proof.
  assert (Hle : forall n, (n <= 2)%nat -> (Z.of_nat n <= 2 ^ 53)%Z).
  { intros n Hn. apply Z.le_trans with 2%Z; [lia | discriminate]. }
  exact (proj1 (@X10_parseDigitInfo_reads_back 0 2 1
                  (Hle 0 (le_S _ _ (le_S _ _ (le_n 0))))
                  (Hle 2 (le_n 2))
                  (Hle 1 (le_S _ _ (le_n 1))))).
Defined.

(** ** Currency display *)

Section NumberFormatFacts.
Import DigitInfo NumberFormat.
Local Open Scope string_scope.
Variable Num : Type.
Variable below_scientificNotationLimit : Num -> bool.
Variable Intl_NumberFormat : string -> NumberFormatOptions -> option (Formatter Num).
Variable Intl_supportedValuesOf : option (string -> list string).
Variable trim : string -> string.

(** X12. [formatCurrency] prints what [Intl] prints only for the displays
    [code], [symbol] and [symbol-narrow] (asked for as [narrowSymbol]) of a
    supported currency.  In every other case it takes the output of [Intl]
    apart and puts a text of its own in place of every currency part, the
    other parts being kept as they are: for these three displays of a
    currency that is not supported, the currency code (or nothing, without
    a code); for any other display, the display string itself when that is
    a label, and the currency code (or nothing) when the display is [name]
    or [narrowSymbol].  A currency that is not supported is formatted as
    US dollars with at least 2 as the maximum of fraction digits. *)
Theorem X12_formatCurrency_display
    (value : Num) (locale display : string) (currencyCode : option string)
    (digitsInfo : option string) (digits : Digits)
    (Hdigits : parseDigitInfo digitsInfo = Ok digits) :
  let supported :=
    match Intl_supportedValuesOf with
    | Some supportedValuesOf =>
        match currencyCode with
        | Some code => includes (supportedValuesOf CURRENCY) code
        | None => false
        end
    | None => true
    end in
  let options (currencyDisplay : option string) :=
    {| opt_maximumFractionDigits :=
         if supported then maximumFractionDigits digits
         else Some (Z.max (match maximumFractionDigits digits with
                           | Some m => m
                           | None => 0%Z
                           end) 2)
     ; opt_minimumIntegerDigits := minimumIntegerDigits digits
     ; opt_minimumFractionDigits := minimumFractionDigits digits
     ; opt_style := CURRENCY
     ; opt_notation := None
     ; opt_currencyDisplay := currencyDisplay
     ; opt_currency := if supported then currencyCode else Some "USD" |} in
  (includes ["code"; "symbol"; "symbol-narrow"] display = true ->
   supported = true ->
   formatCurrency Intl_NumberFormat Intl_supportedValuesOf trim
     value locale display currencyCode digitsInfo
   = match Intl_NumberFormat locale
             (options (Some (if String.eqb display "symbol-narrow"
                             then NARROW_SYMBOL else display))) with
     | None => Throws RangeError
     | Some formatter => Returns (format formatter value)
     end)
  /\ (includes ["code"; "symbol"; "symbol-narrow"] display = true ->
      supported = false ->
      formatCurrency Intl_NumberFormat Intl_supportedValuesOf trim
        value locale display currencyCode digitsInfo
      = match Intl_NumberFormat locale
                {| opt_maximumFractionDigits :=
                     Some (Z.max (match maximumFractionDigits digits with
                                  | Some m => m
                                  | None => 0%Z
                                  end) 2)
                 ; opt_minimumIntegerDigits := minimumIntegerDigits digits
                 ; opt_minimumFractionDigits := minimumFractionDigits digits
                 ; opt_style := CURRENCY
                 ; opt_notation := None
                 ; opt_currencyDisplay :=
                     Some (if String.eqb display "symbol-narrow"
                           then NARROW_SYMBOL else display)
                 ; opt_currency := Some "USD" |} with
        | None => Throws RangeError
        | Some formatter =>
            Returns
              (trim
                 (String.concat ""
                    (map (fun part =>
                            if String.eqb (part_type part) CURRENCY
                            then match currencyCode with
                                 | Some code => code
                                 | None => ""
                                 end
                            else part_value part)
                       (formatToParts formatter value))))
        end)
  /\ (includes ["code"; "symbol"; "symbol-narrow"] display = false ->
      formatCurrency Intl_NumberFormat Intl_supportedValuesOf trim
        value locale display currencyCode digitsInfo
      = match Intl_NumberFormat locale
                (options (if includes ["name"; NARROW_SYMBOL] display
                          then Some display else None)) with
        | None => Throws RangeError
        | Some formatter =>
            Returns
              (trim
                 (String.concat ""
                    (map (fun part =>
                            if String.eqb (part_type part) CURRENCY
                            then currencyText display currencyCode
                            else part_value part)
                       (formatToParts formatter value))))
        end).
Proof.
  intros supported options. unfold formatCurrency, formatIntlCurrency.
  rewrite Hdigits. fold supported. split; [|split].
  - intros Hin Hsup. unfold includes in Hin. cbn [existsb] in Hin.
    rewrite orb_false_r in Hin. rewrite Hsup.
    destruct (String.eqb display "symbol-narrow") eqn:E3.
    + unfold options. rewrite Hsup.
      change (includes ["name"; "code"; SYMBOL; NARROW_SYMBOL] NARROW_SYMBOL)
        with true. cbn [andb].
      apply String.eqb_eq in E3. subst display.
      destruct (Intl_NumberFormat _ _); reflexivity.
    + rewrite orb_false_r in Hin.
      assert (Hvalid : includes ["name"; "code"; SYMBOL; NARROW_SYMBOL] display = true).
      { unfold includes. cbn [existsb]. unfold SYMBOL.
        apply orb_true_iff in Hin as [->| ->];
          rewrite ?orb_true_r; reflexivity. }
      rewrite Hvalid. unfold options. rewrite Hsup.
      unfold includes. cbn [existsb]. rewrite E3, !orb_false_r, Hin. cbn [negb andb].
      destruct (Intl_NumberFormat _ _); reflexivity.
  - intros Hin Hsup. unfold includes in Hin. cbn [existsb] in Hin.
    rewrite orb_false_r in Hin. rewrite Hsup.
    destruct (String.eqb display "symbol-narrow") eqn:E3.
    + change (includes ["name"; "code"; SYMBOL; NARROW_SYMBOL] NARROW_SYMBOL)
        with true. cbn [andb].
      destruct (Intl_NumberFormat _ _); reflexivity.
    + rewrite orb_false_r in Hin.
      assert (Hvalid : includes ["name"; "code"; SYMBOL; NARROW_SYMBOL] display = true).
      { unfold includes. cbn [existsb]. unfold SYMBOL.
        apply orb_true_iff in Hin as [->| ->];
          rewrite ?orb_true_r; reflexivity. }
      rewrite Hvalid. cbn [andb].
      destruct (Intl_NumberFormat _ _); reflexivity.
  - intros Hout. unfold includes in Hout. cbn [existsb] in Hout.
    rewrite orb_false_r in Hout.
    apply orb_false_iff in Hout as [Hcode Hout].
    apply orb_false_iff in Hout as [Hsym Hnarrow].
    rewrite Hnarrow.
    assert (Hvalid : includes ["name"; "code"; SYMBOL; NARROW_SYMBOL] display
                     = includes ["name"; NARROW_SYMBOL] display).
    { unfold includes, SYMBOL. cbn [existsb]. now rewrite Hcode, Hsym. }
    rewrite Hvalid. unfold options, currencyText.
    unfold includes at 3. cbn [existsb]. rewrite Hcode, Hsym, Hnarrow.
    cbn [orb negb]. rewrite andb_false_r.
    destruct (includes ["name"; NARROW_SYMBOL] display);
      destruct (Intl_NumberFormat _ _); reflexivity.
Qed.

(** X13. A digit information that [parseDigitInfo] rejects makes
    [formatNumber], [formatPercent] and [formatCurrency] throw that same
    error, whatever the number, the locale and the currency are and
    whatever [Intl] would have said. *)
Theorem X13_formatters_reject_digit_info
    (value : Num) (locale display : string) (currencyCode : option string)
    (digitsInfo : option string) (e : Error)
    (Hthrow : parseDigitInfo digitsInfo = Throw e) :
  formatNumber below_scientificNotationLimit Intl_NumberFormat
    value locale digitsInfo = Throws (DigitInfoError e)
  /\ formatPercent below_scientificNotationLimit Intl_NumberFormat
       value locale digitsInfo = Throws (DigitInfoError e)
  /\ formatCurrency Intl_NumberFormat Intl_supportedValuesOf trim
       value locale display currencyCode digitsInfo = Throws (DigitInfoError e)
  /\ exists s, digitsInfo = Some s /\ e = NotAValidDigitInfo s.
Proof.
  unfold formatNumber, formatPercent, formatIntlNumber,
    formatCurrency, formatIntlCurrency.
  rewrite Hthrow. repeat split.
  destruct digitsInfo as [s|]; [|discriminate].
  destruct (string_dec s "") as [->|Hs]; [discriminate|].
  exists s. split; [reflexivity|].
  destruct (parseDigitInfo_cases Hs) as [[_ Ht]|H].
  - congruence.
  - destruct H as (p & mi & mf & mx & _ & _ & _ & _ & _ & _ & Hok). congruence.
Qed.

End NumberFormatFacts.

(** X12 on the label [dollars], on the display [code] of US$ and on the
    display [code] of a currency the platform does not know, and X13 on the
    digit information ["1,2"], with a platform that prints $1.00. *)
Lemma X12_formatCurrency_display_witness :
  NumberFormat.formatCurrency IntlSamples.Intl_NumberFormat
    IntlSamples.Intl_supportedValuesOf IntlSamples.noTrim
    5%Z "en"%string "dollars "%string (Some "USD"%string) None
  = NumberFormat.Returns "dollars 1.00"%string
  /\ NumberFormat.formatCurrency IntlSamples.Intl_NumberFormat
       IntlSamples.Intl_supportedValuesOf IntlSamples.noTrim
       5%Z "en"%string "code"%string (Some "USD"%string) None
     = NumberFormat.Returns "$1.00"%string
  /\ NumberFormat.formatCurrency IntlSamples.Intl_NumberFormat
       IntlSamples.Intl_supportedValuesOf IntlSamples.noTrim
       5%Z "en"%string "code"%string (Some "XYZ"%string) None
     = NumberFormat.Returns "XYZ1.00"%string.
Proof.
  destruct (@X12_formatCurrency_display Z IntlSamples.Intl_NumberFormat
              IntlSamples.Intl_supportedValuesOf IntlSamples.noTrim
              5%Z "en"%string "dollars "%string (Some "USD"%string) None _ eq_refl)
    as (_ & _ & Hlabel).
  destruct (@X12_formatCurrency_display Z IntlSamples.Intl_NumberFormat
              IntlSamples.Intl_supportedValuesOf IntlSamples.noTrim
              5%Z "en"%string "code"%string (Some "USD"%string) None _ eq_refl)
    as (Hcode & _).
  destruct (@X12_formatCurrency_display Z IntlSamples.Intl_NumberFormat
              IntlSamples.Intl_supportedValuesOf IntlSamples.noTrim
              5%Z "en"%string "code"%string (Some "XYZ"%string) None _ eq_refl)
    as (_ & Hunsupported & _).
  split; [|split].
  - rewrite (Hlabel eq_refl). reflexivity.
  - rewrite (Hcode eq_refl eq_refl). reflexivity.
  - rewrite (Hunsupported eq_refl eq_refl). reflexivity.
Defined.

Lemma X13_formatters_reject_digit_info_witness :
  NumberFormat.formatNumber IntlSamples.below_1e21 IntlSamples.Intl_NumberFormat
    5%Z "en"%string (Some "1,2"%string)
  = NumberFormat.Throws
      (NumberFormat.DigitInfoError (DigitInfo.NotAValidDigitInfo "1,2")).
Proof.
  exact (proj1 (@X13_formatters_reject_digit_info Z IntlSamples.below_1e21
                  IntlSamples.Intl_NumberFormat IntlSamples.Intl_supportedValuesOf
                  IntlSamples.noTrim 5%Z "en"%string "code"%string
                  (Some "USD"%string) (Some "1,2"%string) _ eq_refl)).
Defined.

(** ** Day periods *)

Section DateTranslationFacts.
Import DateTranslation.
Local Open Scope Z_scope.

Lemma findIndex_first (A : Type) (f : A -> bool) pre r post :
  forallb (fun x => negb (f x)) pre = true ->
  f r = true ->
  findIndex f (pre ++ r :: post) = Some (length pre).
Proof.
  intros Hpre Hr. induction pre as [|x pre IH]; cbn.
  - now rewrite Hr.
  - cbn in Hpre. apply andb_true_iff in Hpre as [Hx Hpre].
    apply negb_true_iff in Hx. rewrite Hx, (IH Hpre). reflexivity.
Qed.

Lemma findIndex_none (A : Type) (f : A -> bool) l :
  forallb (fun x => negb (f x)) l = true -> findIndex f l = None.
Proof.
  induction l as [|x l IH]; cbn; [reflexivity|].
  intros H. apply andb_true_iff in H as [Hx Hl].
  apply negb_true_iff in Hx. now rewrite Hx, (IH Hl).
Qed.

(** X14. A rule [[from, to]] of the extra day periods is applied only to
    times of the span it names: from [from] to before [to] when [from] is
    the earlier hour, and from [from] on or before [to] when the span goes
    over midnight.  It is applied to all of them when [from] is on the
    hour.  When it is not, the minute of the time is compared with the
    minute of [from] whatever the hour is: within a span of one day, no
    time with a smaller minute is matched. *)
Theorem X14_day_period_span (h m : Z) (from to : Time)
    (Hm : 0 <= m < 60)
    (Hfrom : 0 <= minutes from < 60)
    (Hto : 0 <= minutes to < 60) :
  let now := minuteOfDay h m in
  let start := minuteOfDay (hours from) (minutes from) in
  let stop := minuteOfDay (hours to) (minutes to) in
  let within :=
    if hours from <? hours to
    then start <= now < stop
    else start <= now \/ now < stop in
  (ruleApplies h m (Span from to) = true -> within)
  /\ (minutes from = 0 -> within -> ruleApplies h m (Span from to) = true)
  /\ (hours from < hours to -> m < minutes from ->
      ruleApplies h m (Span from to) = false).
Proof.
  intros now start stop within. unfold within, now, start, stop, minuteOfDay.
  unfold ruleApplies.
  destruct (Z.leb_spec (hours from) h), (Z.leb_spec (minutes from) m),
    (Z.ltb_spec h (hours to)), (Z.eqb_spec h (hours to)),
    (Z.ltb_spec m (minutes to)), (Z.ltb_spec (hours from) (hours to));
    cbn [andb orb]; repeat split; intros;
    try discriminate; try reflexivity; try lia.
Qed.

Variable getLocaleMonthNames : string -> FormStyle -> TranslationWidth -> list string.
Variable getLocaleDayNames : string -> FormStyle -> TranslationWidth -> list string.
Variable getLocaleDayPeriods : string -> FormStyle -> TranslationWidth -> list string.
Variable getLocaleExtraDayPeriods : string -> FormStyle -> TranslationWidth -> list string.
Variable getLocaleExtraDayPeriodRules : string -> list DayPeriodRule.
Variable getLocaleEraNames : string -> TranslationWidth -> list string.

Local Abbreviation getDateTranslation :=
  (getDateTranslation getLocaleMonthNames getLocaleDayNames getLocaleDayPeriods
     getLocaleExtraDayPeriods getLocaleExtraDayPeriodRules getLocaleEraNames).

(** X15. The extended day period of a date is the name at the position of
    the first rule of the locale that applies to its time, or nothing when
    the locale has fewer names than that: am/pm is not tried then.  When no
    rule applies, the answer is the one given without [extended]: the first
    of the two day periods before 12 o'clock, the second from then on. *)
Theorem X15_day_period_choice
    (date : Date) (locale : string) (width : TranslationWidth) (form : FormStyle) :
  let applies := ruleApplies (getHours date) (getMinutes date) in
  let rules := getLocaleExtraDayPeriodRules locale in
  (forall pre r post,
     rules = pre ++ r :: post ->
     forallb (fun x => negb (applies x)) pre = true ->
     applies r = true ->
     getDateTranslation date locale DayPeriods width form true
     = nth_error (getLocaleExtraDayPeriods locale form width) (length pre))
  /\ (forallb (fun x => negb (applies x)) rules = true ->
      getDateTranslation date locale DayPeriods width form true
      = getDateTranslation date locale DayPeriods width form false)
  /\ getDateTranslation date locale DayPeriods width form false
     = nth_error (getLocaleDayPeriods locale form width)
         (if getHours date <? 12 then 0%nat else 1%nat).
Proof.
  intros applies rules. unfold DateTranslation.getDateTranslation.
  fold applies. fold rules. repeat split.
  - intros pre r post -> Hpre Hr. rewrite findIndex_first; auto.
  - intros Hnone. rewrite findIndex_none; auto.
Qed.

End DateTranslationFacts.

(** X14 at 7:15 with the span from 6:30 to 12:00: the time is in the span
    and the rule is not applied to it. *)
Lemma X14_day_period_span_witness :
  DateTranslation.ruleApplies 7 15
    (DateTranslation.Span (DateTranslation.mkTime 6 30) (DateTranslation.mkTime 12 0))
  = false
  /\ (DateTranslation.minuteOfDay 6 30 <= DateTranslation.minuteOfDay 7 15
      < DateTranslation.minuteOfDay 12 0)%Z.
Proof.
  split; [|vm_compute; split; [discriminate | reflexivity]].
  destruct (@X14_day_period_span 7 15 (DateTranslation.mkTime 6 30)
              (DateTranslation.mkTime 12 0)) as (_ & _ & H);
    [cbn; lia ..|].
  apply H; cbn; lia.
Defined.

(** X15 at 13:00 in a locale with the rules noon, 6:00 to 12:00 and 12:00
    to 18:00, and the names of the first two only. *)
Lemma X15_day_period_choice_witness :
  let rules (_ : string) :=
    [DateTranslation.Moment (DateTranslation.mkTime 12 0);
     DateTranslation.Span (DateTranslation.mkTime 6 0) (DateTranslation.mkTime 12 0);
     DateTranslation.Span (DateTranslation.mkTime 12 0) (DateTranslation.mkTime 18 0)] in
  DateTranslation.getDateTranslation
    (fun _ _ _ => []) (fun _ _ _ => [])
    (fun _ _ _ => ["AM"; "PM"]%string)
    (fun _ _ _ => ["noon"; "in the morning"]%string)
    rules (fun _ _ => [])
    (DateTranslation.mkDate 2024 0 1 13 0) "en"%string
    DateTranslation.DayPeriods DateTranslation.Wide DateTranslation.Format true
  = None.
Proof.
  intros rules.
  destruct (@X15_day_period_choice
              (fun _ _ _ => []) (fun _ _ _ => [])
              (fun _ _ _ => ["AM"; "PM"]%string)
              (fun _ _ _ => ["noon"; "in the morning"]%string)
              rules (fun _ _ => [])
              (DateTranslation.mkDate 2024 0 1 13 0) "en"%string
              DateTranslation.Wide DateTranslation.Format) as (H & _).
  exact (H [DateTranslation.Moment (DateTranslation.mkTime 12 0);
            DateTranslation.Span (DateTranslation.mkTime 6 0)
              (DateTranslation.mkTime 12 0)]
           _ [] eq_refl eq_refl eq_refl).
Defined.

(** ** Named date formats *)

Section NamedDateFacts.
Import NamedDate.
Local Open Scope string_scope.
Variable DateT : Type.
Variable Thrown : Type.
Variable Intl_DateTimeFormat_format :
  string -> DateTimeFormatOptions -> DateT -> string + Thrown.

Lemma formatObj_unknown format :
  ~ In format namedFormats -> formatObj format = None.
Proof.
  intros Hout. unfold formatObj, SHORT, MEDIUM, LONG, FULL.
  repeat match goal with
         | |- context [String.eqb format ?s] =>
             destruct (String.eqb_spec format s) as [E|_];
             [exfalso; apply Hout; rewrite E; cbn; tauto|]
         end.
  reflexivity.
Qed.

(** X16. [getIntlNamedDate] knows twelve names.  For a style [short],
    [medium], [long] or [full], the name [<style>Date] asks [Intl] for that
    style of date only, [<style>Time] for that style of time only, and the
    style alone for both.  Any other name gives the empty string without
    [Intl] being asked, so that neither the locale nor the time zone can
    make it throw.  An empty time zone is handed on as no time zone. *)
Theorem X16_named_date_formats
    (date : DateT) (locale format : string) (timeZone : option string) :
  let zone := match timeZone with Some "" => None | other => other end in
  let asked dateStyle timeStyle :=
    Intl_DateTimeFormat_format locale
      {| dateStyle := dateStyle; timeStyle := timeStyle; timeZone := zone |}
      date in
  (forall style,
     In style [SHORT; MEDIUM; LONG; FULL] ->
     getIntlNamedDate Intl_DateTimeFormat_format date locale (style ++ "Date") timeZone
     = asked (Some style) None
     /\ getIntlNamedDate Intl_DateTimeFormat_format date locale (style ++ "Time") timeZone
        = asked None (Some style)
     /\ getIntlNamedDate Intl_DateTimeFormat_format date locale style timeZone
        = asked (Some style) (Some style))
  /\ (~ In format namedFormats ->
      getIntlNamedDate Intl_DateTimeFormat_format date locale format timeZone
      = inl "")
  /\ getIntlNamedDate Intl_DateTimeFormat_format date locale format (Some "")
     = getIntlNamedDate Intl_DateTimeFormat_format date locale format None.
Proof.
  intros zone asked. repeat split.
  - destruct H as [<-|[<-|[<-|[<-|[]]]]]; reflexivity.
  - destruct H as [<-|[<-|[<-|[<-|[]]]]]; reflexivity.
  - destruct H as [<-|[<-|[<-|[<-|[]]]]]; reflexivity.
  - intros Hout. unfold getIntlNamedDate.
    rewrite formatObj_unknown by assumption. reflexivity.
Qed.

End NamedDateFacts.

(** X16 on the names [longTime] and [Long], with an [Intl] that prints the
    time style it was asked for. *)
Lemma X16_named_date_formats_witness :
  let intl (_ : string) (options : NamedDate.DateTimeFormatOptions) (_ : unit)
        : string + unit :=
    match NamedDate.timeStyle options with
    | Some style => inl style
    | None => inr tt
    end in
  NamedDate.getIntlNamedDate intl tt "en"%string "longTime"%string (Some "UTC"%string)
  = inl "long"%string
  /\ NamedDate.getIntlNamedDate intl tt "en"%string "Long"%string (Some "UTC"%string)
     = inl ""%string.
Proof.
  intros intl.
  destruct (@X16_named_date_formats unit unit intl tt "en"%string "Long"%string
              (Some "UTC"%string)) as (Hstyle & Hother & _).
  split.
  - destruct (Hstyle "long"%string) as (_ & Htime & _); [cbn; tauto|].
    exact Htime.
  - apply Hother. cbn.
    intros H; repeat (destruct H as [H|H]; [discriminate|]); exact H.
Defined.

(** ** The attributes of an optimized image *)

Section OptimizedImageFacts.
Import OptimizedImage.
Local Open Scope string_scope.

(** X17. The array made for the image directive is a list of name and value
    pairs with distinct names.  [ngSrc] comes first and carries the path
    as it is, empty or not; [width] and [height] are there when a non-empty
    string was given, with that string, and in this order. *)
Theorem X17_optimizedImage_attributes (path : string) (width height : option string) :
  let attrs := pairs (optimizedImage path width height) in
  let attr name value :=
    match given value with
    | Some v => [(name, v)]
    | None => []
    end in
  optimizedImage path width height = flat_map (fun a => [fst a; snd a]) attrs
  /\ attrs = ("ngSrc", path) :: attr "width" width ++ attr "height" height
  /\ NoDup (map fst attrs)
  /\ (forall name value,
        In (name, value) attrs -> name <> "ngSrc" -> value <> "").
Proof.
  intros attrs attr. unfold attrs, attr, optimizedImage.
  destruct width as [[|c w]|], height as [[|c' h']|]; cbn;
    repeat split;
    try (repeat constructor; cbn; intuition discriminate);
    intros name value Hin Hname;
    repeat (destruct Hin as [Hin|Hin];
            [inversion Hin; subst; first [congruence | discriminate]|]);
    destruct Hin.
Qed.

End OptimizedImageFacts.

(** ** Hydration features *)

Section HydrationFacts.
Import Hydration.

Lemma has_kind (k : HydrationFeatureKind) (features : list HydrationFeature) :
  Dedupe.mem HydrationFeatureKind_eq_dec k
    (Dedupe.new_Set HydrationFeatureKind_eq_dec (map kind features)) = true
  <-> In k (map kind features).
Proof. rewrite mem_true_iff. apply new_Set_In. Qed.

Lemma find_set_disable d (p : HydrationFeature -> bool) features
    (Hp : forall f, p (set_disable d f) = p f) :
  option_map exclude (find p (map (set_disable d) features))
  = option_map exclude (find p features).
Proof.
  induction features as [|f features IH]; cbn; [reflexivity|].
  rewrite Hp. destruct (p f); [reflexivity | exact IH].
Qed.

Lemma find_first (A : Type) (p : A -> bool) pre f post :
  (forall g, In g pre -> p g = false) -> p f = true ->
  find p (pre ++ f :: post) = Some f.
Proof.
  intros Hpre Hf. induction pre as [|g pre IH]; cbn.
  - now rewrite Hf.
  - rewrite (Hpre g (or_introl eq_refl)). apply IH.
    intros g' Hg'. apply Hpre. now right.
Qed.

(** X18. [provideClientHydration] provides the HTTP transfer cache exactly
    when no feature made by [withNoHttpTransferCache] is given, and DOM
    hydration exactly when none made by [withNoDomReuse] is, wherever
    these stand among the features.  The [disable] option of
    [withHttpTransferCache] has no effect.  The cache is set up with the
    [exclude] of the first feature made by [withHttpTransferCache]; those
    of later ones are dropped. *)
Theorem X18_hydration_features (ngDevMode : option bool)
    (features : list HydrationFeature) :
  let providers := provideClientHydration ngDevMode features in
  (existsb isTransferCache providers = false
   <-> In NoHttpTransferCache (map kind features))
  /\ (In DomHydration providers <-> ~ In NoDomReuseFeature (map kind features))
  /\ (forall d,
        provideClientHydration ngDevMode (map (set_disable d) features) = providers)
  /\ (forall pre f post e,
        features = pre ++ f :: post ->
        kind f = HttpTransferCacheOptions ->
        (forall g, In g pre -> kind g <> HttpTransferCacheOptions) ->
        In (HttpTransferCache e) providers -> e = exclude f).
Proof.
  intros providers. unfold providers, provideClientHydration.
  pose proof (has_kind NoHttpTransferCache features) as Hcache.
  pose proof (has_kind NoDomReuseFeature features) as Hdom.
  split; [|split; [|split]].
  - rewrite !existsb_app.
    destruct (Dedupe.mem _ NoHttpTransferCache _);
      destruct (Dedupe.mem _ NoDomReuseFeature _);
      destruct ngDevMode as [[|]|]; cbn; split; intros H;
      try discriminate; try reflexivity; try (apply Hcache; reflexivity);
      apply Hcache in H; discriminate.
  - rewrite !in_app_iff.
    destruct (Dedupe.mem _ NoDomReuseFeature _).
    + split; [|intros H; destruct H; now apply Hdom].
      intros [H|[[]|H]].
      * destruct ngDevMode as [[|]|]; cbn in H; intuition discriminate.
      * destruct (Dedupe.mem _ NoHttpTransferCache _); cbn in H;
          intuition discriminate.
    + split; [|intros _; right; left; now left].
      intros _ H. apply Hdom in H. discriminate.
  - intros d.
    assert (Hkinds : map kind (map (set_disable d) features) = map kind features).
    { rewrite map_map. apply map_ext. reflexivity. }
    rewrite Hkinds.
    pose proof (find_set_disable d
                  (fun f => if HydrationFeatureKind_eq_dec (kind f)
                                 HttpTransferCacheOptions
                            then true else false) features
                  (fun f => eq_refl)) as Hfind.
    destruct (find _ (map (set_disable d) features)), (find _ features);
      cbn in Hfind; inversion Hfind; congruence.
  - intros pre f post e -> Hf Hpre Hin.
    rewrite (@find_first _ _ pre f post) in Hin.
    + rewrite !in_app_iff in Hin. destruct Hin as [H|[H|H]].
      * destruct ngDevMode as [[|]|]; cbn in H; intuition discriminate.
      * destruct (Dedupe.mem _ NoDomReuseFeature _); cbn in H;
          intuition discriminate.
      * destruct (Dedupe.mem _ NoHttpTransferCache _); cbn in H;
          [destruct H|]. destruct H as [H|[]]. now inversion H.
    + intros g Hg. specialize (Hpre g Hg).
      destruct (HydrationFeatureKind_eq_dec (kind g) HttpTransferCacheOptions);
        congruence.
    + rewrite Hf. reflexivity.
Qed.

End HydrationFacts.

(** X18 on [withHttpTransferCache({disable: true})] followed by a second
    [withHttpTransferCache({exclude})]: the cache is provided, without the
    filter. *)
Lemma X18_hydration_features_witness :
  let noGet (req : HttpRequest) : bool := String.eqb (method req) "GET" in
  let features :=
    [Hydration.withHttpTransferCache (Some (None, Some true));
     Hydration.withHttpTransferCache (Some (Some noGet, None))] in
  In (Hydration.HttpTransferCache None)
    (Hydration.provideClientHydration None features)
  /\ @None (HttpRequest -> bool)
     = Hydration.exclude (Hydration.withHttpTransferCache (Some (None, Some true))).
Proof.
  intros noGet features.
  assert (Hin : In (Hydration.HttpTransferCache None)
                  (Hydration.provideClientHydration None features))
    by (cbn; tauto).
  split; [exact Hin|].
  destruct (@X18_hydration_features None features) as (_ & _ & _ & H).
  refine (H [] _ _ None eq_refl eq_refl _ Hin).
  intros g [].
Defined.

(** ** Reads of declarations of the file *)

Section ModuleScopeFacts.
Import ModuleScope.
Local Open Scope string_scope.

Lemma find_declaration name decls decl :
  find (fun d => String.eqb (decl_name d) name) decls = Some decl ->
  In decl decls /\ decl_name decl = name.
Proof.
  intros H. apply find_some in H as [Hin Hname].
  split; [exact Hin | now apply String.eqb_eq].
Qed.

Lemma includes_In name symbols :
  existsb (String.eqb name) symbols = true <-> In name symbols.
Proof.
  rewrite existsb_exists. split.
  - intros (x & Hx & E). apply String.eqb_eq in E. now subst.
  - intros H. exists name. split; [exact H | apply String.eqb_refl].
Qed.

Lemma replaceGlobalThis_twice expr symbols :
  replaceGlobalThis (replaceGlobalThis expr symbols) symbols
  = replaceGlobalThis expr symbols.
Proof.
  destruct expr as [name|name|id]; cbn; try reflexivity.
  destruct (existsb _ symbols) eqn:E; cbn; now rewrite ?E.
Qed.

Lemma replaceGlobalThis_lexical expr symbols name :
  replaceGlobalThis expr symbols = LexicalReadExpr name
  <-> expr = LexicalReadExpr name /\ ~ In name symbols.
Proof.
  destruct expr as [n|n|id]; cbn;
    try (split; [discriminate | intros [H _]; discriminate]).
  destruct (existsb _ symbols) eqn:E; split.
  - discriminate.
  - intros [H Hout]. inversion H; subst. apply includes_In in E. contradiction.
  - intros H. split; [exact H|]. inversion H; subst.
    intros Hs. apply includes_In in Hs. congruence.
  - intros [H _]. exact H.
Qed.

(** The first element a predicate holds of. *)
Lemma find_first_match (A : Type) (f : A -> bool) pre x post :
  (forall y, In y pre -> f y = false) -> f x = true ->
  find f (pre ++ x :: post) = Some x.
Proof.
  intros Hpre Hx. induction pre as [|y pre IH]; cbn.
  - now rewrite Hx.
  - rewrite (Hpre y (or_introl eq_refl)). apply IH.
    intros z Hz. apply Hpre. now right.
Qed.

(** X19. [replaceAccess] changes lexical reads of names the file declares,
    and nothing else.  The first declaration of the name decides: when it
    is a [var], the read becomes a variable read of the name itself and
    nothing is recorded; otherwise it becomes a variable read of
    [local_<name>] and the name is recorded with the module of that
    declaration, at the end of [usedDeclarations], once for every read,
    also when the same name was recorded before.  What it returns is a
    lexical read only of a name the file does not declare, so that a second
    pass changes nothing, and [inFileDeclarations] is never changed.
    [replaceGlobalThis] turns the lexical reads of the given symbols into
    variable reads of the same name and leaves every other expression as it
    is. *)
Theorem X19_module_scope_reads (expr : Expression) (job : Job) (symbols : list string) :
  let expr' := fst (replaceAccess expr job) in
  let job' := snd (replaceAccess expr job) in
  replaceAccess expr' job' = (expr', job')
  /\ inFileDeclarations job' = inFileDeclarations job
  /\ (forall name pre decl post,
        expr = LexicalReadExpr name ->
        inFileDeclarations job = (pre ++ decl :: post)%list ->
        (forall earlier, In earlier pre -> decl_name earlier <> name) ->
        decl_name decl = name ->
        replaceAccess expr job
        = if String.eqb (decl_type decl) "var"
          then (ReadVarExpr name, job)
          else (ReadVarExpr ("local_" ++ name),
                {| inFileDeclarations := inFileDeclarations job
                 ; usedDeclarations :=
                     (usedDeclarations job
                      ++ [mkUsed name (decl_module decl)])%list |}))
  /\ ((forall name,
         expr = LexicalReadExpr name ->
         forall decl, In decl (inFileDeclarations job) -> decl_name decl <> name) ->
      replaceAccess expr job = (expr, job))
  /\ (forall name,
        expr' = LexicalReadExpr name ->
        expr = expr'
        /\ forall decl, In decl (inFileDeclarations job) -> decl_name decl <> name)
  /\ (job' = job
      \/ exists name decl,
           expr = LexicalReadExpr name
           /\ In decl (inFileDeclarations job)
           /\ decl_name decl = name /\ decl_type decl <> "var"
           /\ expr' = ReadVarExpr ("local_" ++ name)
           /\ usedDeclarations job'
              = (usedDeclarations job ++ [mkUsed name (decl_module decl)])%list
           /\ usedDeclarations (snd (replaceAccess expr job'))
              = (usedDeclarations job
                 ++ [mkUsed name (decl_module decl);
                     mkUsed name (decl_module decl)])%list)
  /\ (forall name,
        expr = LexicalReadExpr name -> In name symbols ->
        replaceGlobalThis expr symbols = ReadVarExpr name)
  /\ ((forall name, expr = LexicalReadExpr name -> ~ In name symbols) ->
      replaceGlobalThis expr symbols = expr)
  /\ replaceGlobalThis (replaceGlobalThis expr symbols) symbols
     = replaceGlobalThis expr symbols
  /\ (forall name,
        replaceGlobalThis expr symbols = LexicalReadExpr name <->
        expr = LexicalReadExpr name /\ ~ In name symbols).
Proof.
  intros expr' job'. unfold expr', job'.
  assert (Hfirst : forall name pre decl post,
            expr = LexicalReadExpr name ->
            inFileDeclarations job = (pre ++ decl :: post)%list ->
            (forall earlier, In earlier pre -> decl_name earlier <> name) ->
            decl_name decl = name ->
            replaceAccess expr job
            = if String.eqb (decl_type decl) "var"
              then (ReadVarExpr name, job)
              else (ReadVarExpr ("local_" ++ name),
                    {| inFileDeclarations := inFileDeclarations job
                     ; usedDeclarations :=
                         (usedDeclarations job
                          ++ [mkUsed name (decl_module decl)])%list |})).
  { intros name pre decl post -> Hdecls Hpre Hname. cbn [replaceAccess].
    rewrite Hdecls, find_first_match.
    - destruct (String.eqb (decl_type decl) "var"); [reflexivity|].
      now rewrite <- Hdecls.
    - intros y Hy. apply String.eqb_neq. now apply Hpre.
    - now apply String.eqb_eq. }
  assert (Hnone : (forall name,
                     expr = LexicalReadExpr name ->
                     forall decl, In decl (inFileDeclarations job) ->
                                  decl_name decl <> name) ->
                  replaceAccess expr job = (expr, job)).
  { intros H. destruct expr as [name|name|id]; try reflexivity.
    cbn [replaceAccess].
    destruct (find _ (inFileDeclarations job)) as [decl|] eqn:Hfind;
      [|reflexivity].
    destruct (find_declaration _ _ Hfind) as [Hin Hname].
    exfalso. exact (H name eq_refl decl Hin Hname). }
  assert (Hsym : forall name,
            expr = LexicalReadExpr name -> In name symbols ->
            replaceGlobalThis expr symbols = ReadVarExpr name).
  { intros name -> Hin. cbn. apply includes_In in Hin. now rewrite Hin. }
  assert (Hother : (forall name, expr = LexicalReadExpr name -> ~ In name symbols) ->
                   replaceGlobalThis expr symbols = expr).
  { intros H. destruct expr as [name|name|id]; try reflexivity. cbn.
    destruct (existsb _ symbols) eqn:E; [|reflexivity].
    apply includes_In in E. exfalso. exact (H name eq_refl E). }
  split; [|split; [|split; [exact Hfirst|split; [exact Hnone|split; [|split;
    [|split; [exact Hsym|split; [exact Hother|split;
    [ exact (replaceGlobalThis_twice expr symbols)
    | exact (replaceGlobalThis_lexical expr symbols) ]]]]]]]]].
  all: clear Hfirst Hnone Hsym Hother.
  all: destruct expr as [name|name|id]; cbn;
    try reflexivity; try discriminate; try (now left).
  all: destruct (find _ (inFileDeclarations job)) as [decl|] eqn:Hfind.
  all: try (destruct (find_declaration _ _ Hfind) as [Hin Hname]).
  all: try (destruct (String.eqb (decl_type decl) "var") eqn:Hvar).
  all: cbn; rewrite ?Hfind; try reflexivity; try discriminate; try (now left).
  - intros n H. inversion H; subst n. split; [reflexivity|].
    intros decl Hin Hname.
    apply (find_none _ _ Hfind) in Hin. cbn in Hin.
    apply String.eqb_neq in Hin. contradiction.
  - right. exists name, decl. rewrite Hvar. cbn.
    apply String.eqb_neq in Hvar.
    repeat split; auto. now rewrite <- app_assoc.
Qed.

End ModuleScopeFacts.

(** X17 on an image with an empty width and the height 10. *)
Lemma X17_optimizedImage_attributes_witness :
  OptimizedImage.optimizedImage "a.png" (Some ""%string) (Some "10"%string)
  = ["ngSrc"; "a.png"; "height"; "10"]%string
  /\ "10"%string <> ""%string.
Proof.
  split; [reflexivity|].
  destruct (@X17_optimizedImage_attributes "a.png" (Some ""%string)
              (Some "10"%string)) as (_ & _ & _ & H).
  apply (H "height"%string); [cbn; tauto | discriminate].
Defined.

(** X19 on a read of [bar] in a file that declares [foo] only, and on a
    read of [foo] in a file that declares it as a constant and, after that,
    as a [var]. *)
Lemma X19_module_scope_reads_witness :
  let job :=
    ModuleScope.mkJob [ModuleScope.mkDeclaration "foo" "const" "./foo"]%string [] in
  let twice :=
    ModuleScope.mkJob [ModuleScope.mkDeclaration "foo" "const" "./foo";
                       ModuleScope.mkDeclaration "foo" "var" "./bar"]%string [] in
  ModuleScope.replaceAccess (ModuleScope.LexicalReadExpr "bar") job
  = (ModuleScope.LexicalReadExpr "bar", job)
  /\ (forall decl,
        In decl (ModuleScope.inFileDeclarations job) ->
        ModuleScope.decl_name decl <> "bar"%string)
  /\ ModuleScope.replaceAccess (ModuleScope.LexicalReadExpr "foo") twice
     = (ModuleScope.ReadVarExpr "local_foo",
        ModuleScope.mkJob (ModuleScope.inFileDeclarations twice)
          [ModuleScope.mkUsed "foo" "./foo"]).
Proof.
  intros job twice. split; [reflexivity|]. split.
  - destruct (@X19_module_scope_reads (ModuleScope.LexicalReadExpr "bar") job [])
      as (_ & _ & _ & _ & H & _).
    exact (proj2 (H "bar"%string eq_refl)).
  - destruct (@X19_module_scope_reads (ModuleScope.LexicalReadExpr "foo") twice [])
      as (_ & _ & H & _).
    rewrite (H "foo"%string [] (ModuleScope.mkDeclaration "foo" "const" "./foo")
               [ModuleScope.mkDeclaration "foo" "var" "./bar"]
               eq_refl eq_refl (fun _ F => match F with end) eq_refl).
    reflexivity.
Defined.

(** ** Names taken from [Intl] *)

Section IntlDateFacts.
Import DateTranslation IntlDate.
Local Open Scope string_scope.
Variable DateT : Type.
Variable Intl_DateTimeFormat :
  string -> DateTimeFormatOptions -> option (Formatter DateT).

Local Abbreviation getter := (intlDateStrGetter Intl_DateTimeFormat).

(** X20. What [intlDateStrGetter] asks of [Intl] does not depend on all of
    its arguments.  For months and days the widths [Short] and
    [Abbreviated] give the same name.  For a day period that is not
    extended neither the width nor the form matters: am/pm is read off the
    hour in the 12 hour cycle.  For eras the form and [extended] do not
    matter, and [extended] matters for day periods only.  A name it
    returns is what [Intl] printed for the date or the value of one of the
    parts [Intl] made of it; when the part to be taken out is not among
    them, as for a day period without a [dayPeriod] part, a TypeError is
    thrown. *)
Theorem X20_date_getter_arguments
    (name : TranslationType) (width : TranslationWidth) (form : FormStyle)
    (extended : bool) (date : DateT) (locale : string) :
  (In name [Months; Days] ->
   getter name Short form extended date locale
   = getter name Abbreviated form extended date locale)
  /\ (forall width' form',
        getter DayPeriods width form false date locale
        = getter DayPeriods width' form' false date locale)
  /\ (forall form' extended',
        getter Eras width form extended date locale
        = getter Eras width form' extended' date locale)
  /\ (forall extended',
        name <> DayPeriods ->
        getter name width form extended date locale
        = getter name width form extended' date locale)
  /\ (forall value,
        getter name width form extended date locale = inl value ->
        exists options formatDefinition,
          Intl_DateTimeFormat locale options = Some formatDefinition
          /\ (value = format formatDefinition date
              \/ exists part,
                   In part (formatToParts formatDefinition date)
                   /\ NumberFormat.part_value part = value))
  /\ (forall formatDefinition,
        Intl_DateTimeFormat locale (options (getDayPeriod width false))
        = Some formatDefinition ->
        (forall part,
           In part (formatToParts formatDefinition date) ->
           NumberFormat.part_type part <> "dayPeriod") ->
        getter DayPeriods width form false date locale = inr TypeError).
Proof.
  split; [|split; [|split; [|split; [|split]]]].
  - intros [<-|[<-|[]]]; reflexivity.
  - reflexivity.
  - reflexivity.
  - intros extended' Hname. destruct name; try reflexivity. congruence.
  - intros value. unfold intlDateStrGetter.
    set (o := match name with
              | Months => _ | Days => _ | DayPeriods => _ | Eras => _
              end).
    destruct (Intl_DateTimeFormat locale (options o)) as [fd|] eqn:Hintl;
      [|discriminate].
    destruct (extract o) as [e|].
    + unfold extractIntlPart.
      destruct (find _ (formatToParts fd date)) as [part|] eqn:Hfind;
        [|discriminate].
      cbn. intros H. inversion H; subst value.
      exists (options o), fd. split; [exact Hintl|]. right.
      exists part. split; [|reflexivity]. now apply find_some in Hfind.
    + intros H. inversion H; subst value.
      exists (options o), fd. split; [exact Hintl|]. now left.
  - intros fd Hintl Hparts. unfold intlDateStrGetter.
    cbn [getDayPeriod] in *. 
    replace (options (getDayPeriod width false))
      with (options (getDayPeriod Narrow false)) in Hintl
      by reflexivity.
    cbn in Hintl |- *. rewrite Hintl.
    unfold extractIntlPart.
    destruct (find _ (formatToParts fd date)) as [part|] eqn:Hfind;
      [|reflexivity].
    apply find_some in Hfind as [Hin Htype].
    apply String.eqb_eq in Htype. now apply Hparts in Hin.
Qed.

End IntlDateFacts.

(** X20 with an [Intl] that prints the month it was asked for and makes no
    parts. *)
Lemma X20_date_getter_arguments_witness :
  let intl (_ : string) (o : IntlDate.DateTimeFormatOptions)
        : option (IntlDate.Formatter unit) :=
    Some {| IntlDate.format := fun _ =>
              match IntlDate.month o with Some m => m | None => ""%string end
          ; IntlDate.formatToParts := fun _ => [] |} in
  IntlDate.intlDateStrGetter intl DateTranslation.Months DateTranslation.Short
    DateTranslation.Format false tt "en"%string
  = inl "short"%string
  /\ IntlDate.intlDateStrGetter intl DateTranslation.Months
       DateTranslation.Abbreviated DateTranslation.Format false tt "en"%string
     = inl "short"%string
  /\ IntlDate.intlDateStrGetter intl DateTranslation.DayPeriods
       DateTranslation.Wide DateTranslation.Format false tt "en"%string
     = inr IntlDate.TypeError.
Proof.
  intros intl.
  destruct (@X20_date_getter_arguments unit intl DateTranslation.Months
              DateTranslation.Wide DateTranslation.Format false tt "en"%string)
    as (Hsame & _ & _ & _ & _ & Hmissing).
  split; [reflexivity|]. split.
  - rewrite <- Hsame; [reflexivity | cbn; tauto].
  - apply (Hmissing _ eq_refl). intros part [].
Defined.

(** ** The fetch backend *)

Section PromiseFetchBackendFacts.
Import PromiseFetchBackend.
Local Open Scope Z_scope.
Variable Bytes : Type.
Variable Json : Type.
Variable Err : Type.
Variable Headers : Type.
Variable TextDecoder_decode : Bytes -> string.
Variable JSON_parse : string -> Json + Err.
Variable truthy : Json -> bool.
Variable Headers_get : Headers -> string -> option string.
Variable X_REQUEST_URL_HEADER : string.
Variable CONTENT_TYPE_HEADER : string.
Variable HTTP_STATUS_CODE_OK : Z.
Variable toLocaleLowerCase : string -> string.

Local Abbreviation parseBody := (parseBody TextDecoder_decode JSON_parse).
Local Abbreviation getResponseUrl :=
  (getResponseUrl Headers_get X_REQUEST_URL_HEADER toLocaleLowerCase).
Local Abbreviation doRequest :=
  (doRequest TextDecoder_decode JSON_parse truthy Headers_get
     X_REQUEST_URL_HEADER CONTENT_TYPE_HEADER HTTP_STATUS_CODE_OK
     toLocaleLowerCase).

(** X21. [doRequest] returns a response only when [fetch] gave one, and
    then with a status from 200 to 299: the status received, or, when that
    is 0 and the body is truthy, [HTTP_STATUS_CODE_OK].  A response whose
    body was read and which is thrown for its status never has such a
    status; one thrown because the body could not be read or parsed has
    the status received, whatever it is.  A response with status 0 and no
    body is thrown with status 0.  When [fetch] fails, what is thrown has
    the status of the error, or 0, and the URL of the request.  The URL of
    a response is its own if it has one, else the one of the header, else
    the URL of the request. *)
Theorem X21_doRequest_status
    (request : Request) (fetched : Response Bytes Err Headers + Failure Err Headers) :
  (forall r,
     doRequest request fetched = inl r ->
     exists response,
       fetched = inl response
       /\ 200 <= res_status r < 300
       /\ (Response_status response <> 0 ->
           res_status r = Response_status response)
       /\ (Response_status response = 0 ->
           res_status r = HTTP_STATUS_CODE_OK
           /\ Body_truthy truthy (res_body r) = true)
       /\ res_url r
          = match Response_url response with
            | EmptyString =>
                match Headers_get (Response_headers response)
                        (toLocaleLowerCase X_REQUEST_URL_HEADER) with
                | Some u => u
                | None => urlWithParams request
                end
            | u => u
            end)
  /\ (forall e body,
        doRequest request fetched = inr e ->
        err_error e = Unsuccessful body ->
        ~ 200 <= err_status e < 300)
  /\ (forall e error,
        doRequest request fetched = inr e ->
        err_error e = BodyFailed error ->
        exists response,
          fetched = inl response /\ err_status e = Response_status response)
  /\ (forall response,
        fetched = inl response ->
        Response_status response = 0 -> hasBody response = false ->
        exists e,
          doRequest request fetched = inr e
          /\ err_status e = 0 /\ err_error e = Unsuccessful Null)
  /\ (forall error,
        fetched = inr error ->
        exists e,
          doRequest request fetched = inr e
          /\ err_error e = FetchFailed error
          /\ err_url e = urlWithParams request
          /\ err_status e
             = match failure_status error with Some s => s | None => 0 end).
Proof.
  unfold PromiseFetchBackend.doRequest.
  destruct fetched as [response|error].
  - set (loaded := if hasBody response then _ else _).
    split; [|split; [|split; [|split]]].
    + intros r. destruct loaded as [body|error]; [|discriminate].
      destruct (Z.eqb_spec (Response_status response) 0) as [E0|E0].
      * destruct (Body_truthy truthy body) eqn:Htruthy.
        -- destruct (Z.leb_spec 200 HTTP_STATUS_CODE_OK),
             (Z.ltb_spec HTTP_STATUS_CODE_OK 300);
             cbn [andb]; intros Hdo; inversion Hdo; subst r; clear Hdo.
           exists response. cbn.
           repeat split; try lia; try assumption.
           unfold PromiseFetchBackend.getResponseUrl.
           destruct (Response_url response); reflexivity.
        -- cbn. discriminate.
      * destruct (Z.leb_spec 200 (Response_status response)),
          (Z.ltb_spec (Response_status response) 300);
          cbn [andb]; intros Hdo; inversion Hdo; subst r; clear Hdo.
        exists response. cbn.
        repeat split; try lia; try contradiction.
        unfold PromiseFetchBackend.getResponseUrl.
        destruct (Response_url response); reflexivity.
    + intros e body. destruct loaded as [body'|error].
      * destruct (Z.eqb_spec (Response_status response) 0) as [E0|E0].
        -- destruct (Body_truthy truthy body').
           ++ destruct (Z.leb_spec 200 HTTP_STATUS_CODE_OK),
                (Z.ltb_spec HTTP_STATUS_CODE_OK 300);
                cbn [andb]; intros Hdo; inversion Hdo; subst e; cbn; lia.
           ++ cbn. intros Hdo; inversion Hdo; subst e; cbn; lia.
        -- destruct (Z.leb_spec 200 (Response_status response)),
             (Z.ltb_spec (Response_status response) 300);
             cbn [andb]; intros Hdo; inversion Hdo; subst e; cbn; lia.
      * intros Hdo; inversion Hdo; subst e. cbn. discriminate.
    + intros e error. destruct loaded as [body'|error'].
      * intros Hdo Hcause.
        match type of Hdo with
        | context [if ?c then inl _ else inr _] => destruct c
        end; inversion Hdo; subst e; cbn in Hcause; discriminate.
      * intros Hdo; inversion Hdo; subst e. cbn. intros _.
        exists response. split; reflexivity.
    + intros response' Hr H0 Hbody. inversion Hr; subst response'.
      unfold loaded. rewrite Hbody, H0. cbn.
      eexists. repeat split.
    + intros error H. discriminate.
  - split; [|split; [|split; [|split]]]; try discriminate.
    + intros e body Hdo; inversion Hdo; subst e. cbn. discriminate.
    + intros e error' Hdo; inversion Hdo; subst e. cbn. discriminate.
    + intros error' H. inversion H; subst error'.
      eexists. repeat split.
Qed.

Lemma dropPrefix_app p t : dropPrefix p (p ++ t) = Some t.
Proof.
  induction p as [|c p IH]; cbn; [reflexivity|].
  now rewrite Ascii.eqb_refl.
Qed.

(** X22. For the response type [json] the XSSI prefix, with or without its
    comma, is taken off the text once before it is parsed, and a text that
    is empty then gives the body [null] without [JSON.parse] being called;
    a text that does not start with [)]}'] is parsed as it is.  The content
    type is of use for a [blob] only. *)
Theorem X22_parseBody_json
    (request : Request) (binContent : Bytes) (contentType : string) (t : string)
    (Hjson : responseType request = json) :
  let parsed (s : string) : Body Bytes Json + Err :=
    if String.eqb s ""
    then inl Null
    else match JSON_parse s with
         | inl value => inl (Parsed value)
         | inr error => inr error
         end in
  (TextDecoder_decode binContent
   = (")]}'" ++ String LF EmptyString ++ t)%string
   \/ TextDecoder_decode binContent
      = (")]}'," ++ String LF EmptyString ++ t)%string ->
   parseBody request binContent contentType = parsed t)
  /\ (dropPrefix ")]}'" (TextDecoder_decode binContent) = None ->
      parseBody request binContent contentType
      = parsed (TextDecoder_decode binContent))
  /\ (forall contentType',
        parseBody request binContent contentType
        = parseBody request binContent contentType').
Proof.
  intros parsed. unfold PromiseFetchBackend.parseBody. rewrite Hjson.
  split; [|split; [|reflexivity]].
  - intros [E|E]; rewrite E.
    + replace (replace_XSSI_PREFIX (")]}'" ++ String LF "" ++ t)) with t;
        [reflexivity|].
      unfold replace_XSSI_PREFIX.
      change (")]}'" ++ String LF "" ++ t)%string
        with (")]}'" ++ (String LF t))%string.
      rewrite dropPrefix_app. reflexivity.
    + replace (replace_XSSI_PREFIX (")]}'," ++ String LF "" ++ t)) with t;
        [reflexivity|].
      unfold replace_XSSI_PREFIX.
      change (")]}'," ++ String LF "" ++ t)%string
        with (")]}'" ++ (String "," (String LF t)))%string.
      rewrite dropPrefix_app. cbn. reflexivity.
  - intros Hnone. unfold replace_XSSI_PREFIX. rewrite Hnone. reflexivity.
Qed.

End PromiseFetchBackendFacts.

Section FetchBackendDispatch.
Import SingleShot.
Variable heap : Ref -> HttpInterceptorFn.

(** X23. The promise of [Http.request] over the fetch backend is resolved
    with the response when [doRequest] returns one.  When [doRequest]
    throws, for a failed [fetch], a body that cannot be read or a status
    that is not from 200 to 299, the promise stays pending: the error
    reaches nobody. *)
Theorem X23_request_over_fetch_backend
    (doRequest : HttpRequest -> Settled HttpEvent)
    (first : string + HttpRequest) (u : string) (options : RequestOptions)
    (w : World) :
  let req :=
    match first with
    | inr r => r
    | inl m => {| method := m; url := u; headers := options_headers options |}
    end in
  request (mkHttp (PromiseFetchBackend.handle doRequest)) first u options w
  = (Fulfilled (length (promises w)),
     {| index := index w
      ; trace := trace w
      ; promises :=
          promises w
          ++ [match doRequest req with
              | Fulfilled response => Resolved (Event response)
              | Rejected _ => Pending
              end]
      ; pendingTasks := pendingTasks w |}).
Proof.
  intros req. unfold request. fold req.
  unfold new_Promise, call_async, PromiseFetchBackend.handle, Http_backend.
  unfold bind, ret, call.
  destruct (doRequest req) as [response|e].
  - rewrite (@settle_last (length (promises w)) _ _ (promises w));
      reflexivity.
  - reflexivity.
Qed.

(** X24. Behind the dispatcher, with entries that pass the request on, the
    fetch backend is asked for the request as changed by all of them.
    Without entries the caller is given the response, once.  With one entry
    or more the response reaches nobody and the dispatcher is rejected with
    a TypeError; what [doRequest] throws rejects it in either case. *)
Theorem X24_fetch_backend_behind_entries
    (this : HttpInterceptorHandler) (f : Ref -> HttpRequest -> HttpRequest)
    (entries : list Ref) (doRequest : HttpRequest -> Settled HttpEvent)
    (req : HttpRequest) (w : World)
    (Hentries : Dedupe.dedupedInterceptorFns Nat.eq_dec
                  (HTTP_INTERCEPTOR_FNS (injector this))
                  (HTTP_ROOT_INTERCEPTOR_FNS (injector this)) = entries)
    (Hheap : forall r, In r entries -> heap r = passThroughEvent r (f r))
    (Hbackend : backend this = PromiseFetchBackend.handle doRequest) :
  let world (delivered : list Label) :=
    {| index := Z.of_nat (length entries)
     ; trace := trace w ++ interceptions f entries req ++ delivered
     ; promises := promises w
     ; pendingTasks := pendingTasks w |} in
  handle heap this req recording w
  = match doRequest (fold_left (fun q r => f r q) entries req) with
    | Fulfilled response =>
        match entries with
        | [] => (Fulfilled tt, world [Delivered (Event response)])
        | _ :: _ =>
            (Rejected (TypeError "onEvent is not a function"), world [])
        end
    | Rejected e => (Rejected e, world [])
    end.
Proof.
  intros world. unfold handle. rewrite Hentries. unfold bind at 1.
  rewrite (@next_passThroughEvent_run_from heap this entries f entries []
             req _ (set_index (-1) w) (length entries) Hheap eq_refl eq_refl
             (le_n _)).
  rewrite Hbackend. unfold PromiseFetchBackend.handle, world.
  unfold bind, ret, call.
  destruct (doRequest _) as [response|e].
  - destruct entries as [|r0 rest].
    + cbn. unfold recording, log, add_trace. cbn.
      now rewrite app_nil_r.
    + cbn [index trace promises pendingTasks set_index].
      now rewrite app_nil_r.
  - cbn [index trace promises pendingTasks set_index].
    now rewrite app_nil_r.
Qed.

End FetchBackendDispatch.

(** X21 on a response with status 0 and the body [{}], asked for as
    [json]: it is returned with status 200. *)
Lemma X21_doRequest_status_witness :
  let response :=
    PromiseFetchBackend.mkResponse ""%string [("x-request-url", "/a")]%string
      0%Z "OK"%string true (inl "{}"%string : string + string) in
  PromiseFetchBackend.doRequest (fun s => s) IntlSamples.parseAsText
    IntlSamples.nonEmpty IntlSamples.headerOf
    "x-request-url"%string "Content-Type"%string 200%Z (fun s => s)
    (PromiseFetchBackend.mkRequest "/b" PromiseFetchBackend.json)
    (inl response)
  = inl (PromiseFetchBackend.mkHttpResponseInit
           (PromiseFetchBackend.Parsed "{}"%string)
           [("x-request-url", "/a")]%string 200%Z "OK"%string "/a"%string)
  /\ (200 <= 200 < 300)%Z.
Proof.
  intros response. split; [reflexivity|].
  destruct (@X21_doRequest_status string string string (list (string * string))
              (fun s => s) IntlSamples.parseAsText IntlSamples.nonEmpty
              IntlSamples.headerOf "x-request-url"%string "Content-Type"%string
              200%Z (fun s => s)
              (PromiseFetchBackend.mkRequest "/b" PromiseFetchBackend.json)
              (inl response)) as (H & _).
  destruct (H _ eq_refl) as (r & _ & Hrange & _).
  exact Hrange.
Defined.

(** X22 on the text [)]}',] followed by a line feed and [[1]]. *)
Lemma X22_parseBody_json_witness :
  PromiseFetchBackend.parseBody (fun s => s) IntlSamples.parseAsText
    (PromiseFetchBackend.mkRequest "/b" PromiseFetchBackend.json)
    (")]}'," ++ String PromiseFetchBackend.LF EmptyString ++ "[1]")%string
    "application/json"%string
  = inl (PromiseFetchBackend.Parsed "[1]"%string).
Proof.
  destruct (@X22_parseBody_json string string string
              (fun s => s) IntlSamples.parseAsText
              (PromiseFetchBackend.mkRequest "/b" PromiseFetchBackend.json)
              (")]}'," ++ String PromiseFetchBackend.LF EmptyString ++ "[1]")%string
              "application/json"%string "[1]"%string eq_refl) as (H & _).
  exact (H (or_intror eq_refl)).
Defined.

(** X24 with two entries and a [doRequest] that returns a response. *)
Lemma X24_fetch_backend_behind_entries_witness :
  let rq := Samples.GET "/a" in
  let ok (_ : HttpRequest) : SingleShot.Settled HttpEvent :=
    SingleShot.Fulfilled (Response 200 "from fetch") in
  SingleShot.handle Samples.Promise.forwarding
    (Samples.Promise.handler [0; 1] [1] (PromiseFetchBackend.handle ok)) rq
    SingleShot.recording SingleShot.emptyWorld
  = (SingleShot.Rejected (SingleShot.TypeError "onEvent is not a function"),
     {| SingleShot.index := 2
      ; SingleShot.trace :=
          [SingleShot.Intercepted 0 rq; SingleShot.Intercepted 1 rq]
      ; SingleShot.promises := []
      ; SingleShot.pendingTasks := Samples.noTasks |}).
Proof.
  intros rq ok.
  rewrite (@X24_fetch_backend_behind_entries Samples.Promise.forwarding
             (Samples.Promise.handler [0; 1] [1] (PromiseFetchBackend.handle ok))
             (fun _ req => req) [0; 1] ok rq SingleShot.emptyWorld
             eq_refl (fun r _ => eq_refl) eq_refl).
  reflexivity.
Defined.
